(** * The Pipl.ai provider gateway ([backend/piplai.py])

    A shallow embedding of the [PiplAPI] class: the response normalisation
    of [get_emails] and [get_leads], the fallback chain of [get_labels],
    the two [TTLCache]s and the propagate-or-degrade policy of every
    operation, followed by the properties the specification states
    about them.

    Conventions of the model.
    - A Python object built by [response.json()] is a [value]; a [dict]
      is an association list in insertion order with unique keys.  JSON
      numbers are integers.
    - A method runs in the monad [M]: it reads and updates a [state]
      (process environment, the [PiplAPI] instance, the monotonic clock and
      the log of upstream requests) and either returns or raises.  State
      changes made before an exception survive it, as in Python.
    - The provider is an [upstream]: it answers the [n]-th request of the
      run with a [reply] after some delay.  Every theorem quantifies over
      it.
    - Log statements are dropped, except where formatting the message can
      itself raise.
    - Text is a string of bytes.  Where Python works on characters the
      model follows it on ASCII text: upper-casing and lengths are stated
      for [ascii_text] only.
    - httpx refuses a URL that holds an ASCII control character
      ([httpx.InvalidURL], which is not an [httpx.HTTPError]); the model
      raises it where the gateway puts a record's [thread_id] into a URL,
      and where the route [mark_email_read] and the EmailBison client do
      so with an argument.  The limit httpx puts on the length of a URL
      is left out. *)

From Stdlib Require Import String Ascii List ZArith NArith Bool Lia.
From Stdlib Require Import DecimalString DecimalPos DecimalZ.
Import ListNotations.

Set Warnings "-register-all".

Local Open Scope string_scope.
Local Open Scope Z_scope.
Local Open Scope list_scope.

(** ** Python values *)

Inductive value : Type :=
| VNone
| VBool (b : bool)
| VInt (z : Z)
| VStr (s : string)
| VList (l : list value)
| VDict (d : list (string * value)).

Definition dict := list (string * value).

(** [d.get(k)] on the association list. *)
Fixpoint dict_get (d : dict) (k : string) : option value :=
  match d with
  | [] => None
  | (k', v) :: rest => if String.eqb k' k then Some v else dict_get rest k
  end.

(** [k in d]. *)
Definition dict_has (d : dict) (k : string) : bool :=
  match dict_get d k with Some _ => true | None => false end.

(** [d[k] = v]: an existing key keeps its position, a new key goes last. *)
Fixpoint dict_set (d : dict) (k : string) (v : value) : dict :=
  match d with
  | [] => [(k, v)]
  | (k', v') :: rest =>
      if String.eqb k' k then (k', v) :: rest else (k', v') :: dict_set rest k v
  end.

(** [d.get(k, default)]. *)
Definition dict_get_default (d : dict) (k : string) (default : value) : value :=
  match dict_get d k with Some v => v | None => default end.

(** Truth value of an object, as [if x:] tests it. *)
Definition truthy (v : value) : bool :=
  match v with
  | VNone => false
  | VBool b => b
  | VInt z => negb (z =? 0)
  | VStr s => negb (String.eqb s "")
  | VList l => match l with [] => false | _ => true end
  | VDict d => match d with [] => false | _ => true end
  end.

(** Truth value of an [Optional[str]] argument. *)
Definition given (o : option string) : bool :=
  match o with
  | Some s => negb (String.eqb s "")
  | None => false
  end.

(** [a == b].  [bool] is a subclass of [int]; dictionaries compare
    without regard to order. *)
Fixpoint py_eq (a b : value) : bool :=
  match a, b with
  | VNone, VNone => true
  | VBool x, VBool y => Bool.eqb x y
  | VInt x, VInt y => x =? y
  | VBool x, VInt y => Z.b2z x =? y
  | VInt x, VBool y => x =? Z.b2z y
  | VStr x, VStr y => String.eqb x y
  | VList x, VList y =>
      (fix all2 (l1 l2 : list value) : bool :=
         match l1, l2 with
         | [], [] => true
         | h1 :: t1, h2 :: t2 => py_eq h1 h2 && all2 t1 t2
         | _, _ => false
         end) x y
  | VDict x, VDict y =>
      (length x =? length y)%nat &&
      forallb (fun kv => match dict_get y (fst kv) with
                         | Some v' => py_eq (snd kv) v'
                         | None => false
                         end) x
  | _, _ => false
  end.

(** ** Exceptions *)

Inductive exn : Type :=
| HTTPStatusError (status_code : Z)  (* raised by [raise_for_status] *)
| RequestError                       (* timeouts, connection failures *)
| AttributeError
| TypeError
| KeyError
| ValueError                         (* [json.JSONDecodeError] *)
| InvalidURL.                        (* [httpx.InvalidURL], not an [HTTPError] *)

(** [isinstance(e, httpx.HTTPError)]. *)
Definition is_HTTPError (e : exn) : bool :=
  match e with
  | HTTPStatusError _ | RequestError => true
  | _ => false
  end.

(** [isinstance(e, httpx.HTTPStatusError)]. *)
Definition is_HTTPStatusError (e : exn) : bool :=
  match e with
  | HTTPStatusError _ => true
  | _ => false
  end.

Inductive result (A : Type) : Type :=
| Return (a : A)
| Raise (e : exn).
Arguments Return {A} a.
Arguments Raise {A} e.

Definition raises {A} (r : result A) : bool :=
  match r with Raise _ => true | Return _ => false end.

(** ** Operations on objects that may raise *)

(** [o.get(k, default)]: only a [dict] has the method. *)
Definition py_get (o : value) (k : string) (default : value) : result value :=
  match o with
  | VDict d => Return (dict_get_default d k default)
  | _ => Raise AttributeError
  end.

(** [d[k]] on a dictionary. *)
Definition dict_getitem (d : dict) (k : string) : result value :=
  match dict_get d k with
  | Some v => Return v
  | None => Raise KeyError
  end.

Fixpoint chars (s : string) : list value :=
  match s with
  | EmptyString => []
  | String c rest => VStr (String c EmptyString) :: chars rest
  end.

(** The items [for x in o] runs through. *)
Definition py_iter (o : value) : result (list value) :=
  match o with
  | VList l => Return l
  | VDict d => Return (map (fun kv => VStr (fst kv)) d)
  | VStr s => Return (chars s)
  | _ => Raise TypeError
  end.

(** [len(o)]. *)
Definition py_len (o : value) : result Z :=
  match o with
  | VList l => Return (Z.of_nat (length l))
  | VDict d => Return (Z.of_nat (length d))
  | VStr s => Return (Z.of_nat (String.length s))
  | _ => Raise TypeError
  end.

(** Text all of whose characters are ASCII: [s.isascii()]. *)
Definition ascii_char (c : ascii) : bool := (nat_of_ascii c <? 128)%nat.

Fixpoint ascii_text (s : string) : bool :=
  match s with
  | EmptyString => true
  | String c rest => ascii_char c && ascii_text rest
  end.

(** An ASCII control character: [c.isascii() and not c.isprintable()]. *)
Definition ascii_control (c : ascii) : bool :=
  let n := nat_of_ascii c in
  ((n <? 32) || (n =? 127))%nat.

Fixpoint has_control (s : string) : bool :=
  match s with
  | EmptyString => false
  | String c rest => ascii_control c || has_control rest
  end.

(** [str.upper()] and [str.replace(" ", "_")].  [upper] maps the letters
    [a]-[z] and nothing else: it is [str.upper()] on [ascii_text] only,
    Python's method being Unicode-aware (it also maps letters outside
    ASCII, some of them to several characters).  Every statement about
    the value of a derived label assumes [ascii_text] names. *)
Definition upper_ascii (c : ascii) : ascii :=
  let n := nat_of_ascii c in
  if ((97 <=? n) && (n <=? 122))%nat then ascii_of_nat (n - 32) else c.

Fixpoint upper (s : string) : string :=
  match s with
  | EmptyString => EmptyString
  | String c rest => String (upper_ascii c) (upper rest)
  end.

Fixpoint replace_space (s : string) : string :=
  match s with
  | EmptyString => EmptyString
  | String c rest =>
      String (if Ascii.eqb c " "%char then "_"%char else c) (replace_space rest)
  end.

(** [str(n)] of an integer. *)
Definition str_of_int (z : Z) : string := NilZero.string_of_int (Z.to_int z).

(** How an f-string renders a [bool] and an [Optional[str]]. *)
Definition fmt_bool (b : bool) : string := if b then "True" else "False".
Definition fmt_opt (o : option string) : string :=
  match o with Some s => s | None => "None" end.

(** An [Optional] argument as the object the method body sees. *)
Definition of_opt_str (o : option string) : value :=
  match o with Some s => VStr s | None => VNone end.
Definition of_opt_int (o : option Z) : value :=
  match o with Some z => VInt z | None => VNone end.

(** ** [cachetools.TTLCache]

    The entries in least-recently-used order, the head being the next
    one to evict.  Every entry of one cache has the same time to live
    and the clock is monotonic, so the entries that [expire] drops from
    the front of the expiry chain are exactly those whose time has
    passed.  Each value has size one and both caches hold a hundred, so
    the "value too large" check of [__setitem__] never fires. *)

Record entry : Type := mkEntry {
  e_key : string;
  e_value : value;
  e_expires : Z
}.

Definition TTLCache := list entry.

Definition find_entry (k : string) (c : TTLCache) : option entry :=
  find (fun e => String.eqb (e_key e) k) c.

Definition forget (k : string) (c : TTLCache) : TTLCache :=
  filter (fun e => negb (String.eqb (e_key e) k)) c.

(** [k in cache]: no reordering, no sweep. *)
Definition cache_contains (k : string) (now : Z) (c : TTLCache) : bool :=
  match find_entry k c with
  | Some e => now <? e_expires e
  | None => false
  end.

(** [cache[k]]: the lookup moves the key to the recent end, then an
    expired or absent key raises [KeyError]. *)
Definition cache_getitem (k : string) (now : Z) (c : TTLCache)
  : result value * TTLCache :=
  match find_entry k c with
  | Some e =>
      let c' := forget k c ++ [e] in
      if now <? e_expires e then (Return (e_value e), c') else (Raise KeyError, c')
  | None => (Raise KeyError, c)
  end.

Definition expire (now : Z) (c : TTLCache) : TTLCache :=
  filter (fun e => now <? e_expires e) c.

(** [cache[k] = v]: sweep the expired entries, make room for a new key
    by evicting from the head, then store at the recent end. *)
Definition cache_setitem (maxsize : nat) (ttl : Z)
    (k : string) (v : value) (now : Z) (c : TTLCache) : TTLCache :=
  let live := expire now c in
  let room :=
    match find_entry k live with
    | Some _ => live
    | None => skipn (length live + 1 - maxsize) live
    end in
  forget k room ++ [mkEntry k v (now + ttl)].

(** ** Upstream requests and replies *)

Inductive endpoint : Type :=
| unibox_emails
| unibox_thread (thread_id : value)
| unibox_emails_reply
| lead_add
| lead_add_lead_in_subseq
| lead_data_update
| lead_workspace_leads
| campaign_list_all
| tag_list
| unibox_labels
| analytics_campaign_stats
| unibox_emails_label.

Inductive verb : Type := GET | POST.

(** [r_data] is the query string of a GET and the JSON body of a POST. *)
Record request : Type := mkRequest {
  r_verb : verb;
  r_path : endpoint;
  r_headers : list (string * string);
  r_data : dict
}.

Inductive reply : Type :=
| Success (body : option value)  (* 2xx; [None]: the body is not JSON *)
| Status (code : Z)              (* [raise_for_status] raises *)
| Failure.                       (* the request itself raises *)

(** The exception a reply turns into, if any. *)
Definition reply_error (r : reply) : option exn :=
  match r with
  | Success _ => None
  | Status code => Some (HTTPStatusError code)
  | Failure => Some RequestError
  end.

(** The provider: what the [n]-th request of the run is answered with,
    and how long that takes. *)
Definition upstream := nat -> request -> N * reply.

(** ** State *)

Record PiplAPI : Type := mkPiplAPI {
  api_key : string;
  base_url : string;
  workspace_id : string;
  headers : list (string * string);
  email_cache : TTLCache;
  label_cache : TTLCache
}.

Record state : Type := mkState {
  environ : list (string * string);
  self : PiplAPI;
  clock : Z;
  sent : list request   (* oldest first *)
}.

(** [os.getenv(name)] and [os.getenv(name, default)]. *)
Fixpoint getenv (env : list (string * string)) (name : string) : option string :=
  match env with
  | [] => None
  | (n, v) :: rest => if String.eqb n name then Some v else getenv rest name
  end.

Definition getenv_default (env : list (string * string)) (name default : string)
  : string :=
  match getenv env name with Some v => v | None => default end.

(** [PiplAPI.__init__]. *)
Definition PiplAPI_init (env : list (string * string)) : PiplAPI :=
  let key := getenv_default env "PIPL_API_KEY" "6fc126c4-04e5c9d5-87b13817-eedc8acc" in
  {| api_key := key;
     base_url := "https://api.pipl.ai/api/v1";
     workspace_id := getenv_default env "PIPL_WORKSPACE_ID" "67bd12283f02ce58fa6fb65d";
     headers := [("x-api-key", key); ("Content-Type", "application/json")];
     email_cache := [];
     label_cache := [] |}.

(** The process right after [pipl_api = PiplAPI()]. *)
Definition boot (env : list (string * string)) (now : Z) : state :=
  {| environ := env; self := PiplAPI_init env; clock := now; sent := [] |}.

(** Time passing between two calls. *)
Definition advance (d : Z) (w : state) : state :=
  {| environ := environ w; self := self w; clock := clock w + d; sent := sent w |}.

Definition email_maxsize : nat := 100.
Definition email_ttl : Z := 300.
Definition label_maxsize : nat := 100.
Definition label_ttl : Z := 3600.

(** ** The monad of method bodies *)

Definition M (A : Type) : Type := state -> result A * state.

Definition ret {A} (a : A) : M A := fun w => (Return a, w).
Definition raise {A} (e : exn) : M A := fun w => (Raise e, w).
Definition lift {A} (r : result A) : M A := fun w => (r, w).

Definition bind {A B} (m : M A) (k : A -> M B) : M B :=
  fun w =>
    match m w with
    | (Return a, w') => k a w'
    | (Raise e, w') => (Raise e, w')
    end.

(** [try: m  except <caught> as e: handler e]. *)
Definition try_except {A} (m : M A) (caught : exn -> bool) (handler : exn -> M A)
  : M A :=
  fun w =>
    match m w with
    | (Raise e, w') => if caught e then handler e w' else (Raise e, w')
    | r => r
    end.

Declare Scope py_scope.
Delimit Scope py_scope with py.
Notation "x <- m ;; k" := (bind m (fun x => k))
  (at level 100, m at next level, right associativity) : py_scope.
Notation "m ;;; k" := (bind m (fun _ => k))
  (at level 100, right associativity) : py_scope.
Local Open Scope py_scope.

Fixpoint for_each {A B} (body : A -> M B) (l : list A) : M (list B) :=
  match l with
  | [] => ret []
  | x :: rest =>
      y <- body x ;;
      ys <- for_each body rest ;;
      ret (y :: ys)
  end.

Definition get_self : M PiplAPI := fun w => (Return (self w), w).
Definition get_environ : M (list (string * string)) :=
  fun w => (Return (environ w), w).

Definition set_email_cache (c : TTLCache) : M unit :=
  fun w =>
    let s := self w in
    (Return tt,
     {| environ := environ w;
        self := {| api_key := api_key s; base_url := base_url s;
                   workspace_id := workspace_id s; headers := headers s;
                   email_cache := c; label_cache := label_cache s |};
        clock := clock w; sent := sent w |}).

Definition set_label_cache (c : TTLCache) : M unit :=
  fun w =>
    let s := self w in
    (Return tt,
     {| environ := environ w;
        self := {| api_key := api_key s; base_url := base_url s;
                   workspace_id := workspace_id s; headers := headers s;
                   email_cache := email_cache s; label_cache := c |};
        clock := clock w; sent := sent w |}).

(** [key in self.email_cache], [self.email_cache[key]] and
    [self.email_cache[key] = v], each at the current clock. *)
Definition email_cache_contains (k : string) : M bool :=
  fun w => (Return (cache_contains k (clock w) (email_cache (self w))), w).

Definition email_cache_getitem (k : string) : M value :=
  fun w =>
    let (r, c) := cache_getitem k (clock w) (email_cache (self w)) in
    match set_email_cache c w with (_, w') => (r, w') end.

Definition email_cache_setitem (k : string) (v : value) : M unit :=
  fun w =>
    set_email_cache
      (cache_setitem email_maxsize email_ttl k v (clock w) (email_cache (self w))) w.

Definition label_cache_contains (k : string) : M bool :=
  fun w => (Return (cache_contains k (clock w) (label_cache (self w))), w).

Definition label_cache_getitem (k : string) : M value :=
  fun w =>
    let (r, c) := cache_getitem k (clock w) (label_cache (self w)) in
    match set_label_cache c w with (_, w') => (r, w') end.

Definition label_cache_setitem (k : string) (v : value) : M unit :=
  fun w =>
    set_label_cache
      (cache_setitem label_maxsize label_ttl k v (clock w) (label_cache (self w))) w.

(** One round trip: [await client.get(...)] or [await client.post(...)]
    followed by [response.raise_for_status()].  The request is logged, the
    clock moves by the time the provider took, and the answer is the body
    to hand to [response.json()]. *)
Definition send (up : upstream) (v : verb) (path : endpoint) (data : dict)
  : M (option value) :=
  fun w =>
    let req := mkRequest v path (headers (self w)) data in
    let (lag, r) := up (length (sent w)) req in
    let w' := {| environ := environ w; self := self w;
                 clock := clock w + Z.of_N lag; sent := sent w ++ [req] |} in
    match r with
    | Success body => (Return body, w')
    | Status code => (Raise (HTTPStatusError code), w')
    | Failure => (Raise RequestError, w')
    end.

(** [response.json()]. *)
Definition json (body : option value) : M value :=
  match body with
  | Some v => ret v
  | None => raise ValueError
  end.

(** Sequencing of the pure operations that may raise. *)
Definition and_then {A B} (r : result A) (k : A -> result B) : result B :=
  match r with
  | Return a => k a
  | Raise e => Raise e
  end.
Notation "x <~ r ;; k" := (and_then r (fun x => k))
  (at level 100, r at next level, right associativity) : py_scope.

(** ** [get_emails] *)

(** [{"text": text, "html": html}]. *)
Definition body_of (text html : value) : value :=
  VDict [("text", text); ("html", html)].

(** The two [isinstance] arms shared by the thread scan and the preview
    branch: a [str] body fills both keys, a [dict] body is read key by key
    with empty-string defaults; any other body matches neither arm. *)
Definition structured_body (body : value) : option value :=
  match body with
  | VStr s => Some (body_of (VStr s) (VStr s))
  | VDict b =>
      Some (body_of (dict_get_default b "text" (VStr ""))
                    (dict_get_default b "html" (VStr "")))
  | _ => None
  end.

(** [email[k] = email.get(k, default)]. *)
Definition backfill (email : dict) (k : string) (default : value) : dict :=
  dict_set email k (dict_get_default email k default).

(** [for thread_email in email["thread"]: if thread_email.get("id") ==
    email["id"]: ...; break]. *)
Fixpoint adopt_body (email : dict) (thread : list value) : result dict :=
  match thread with
  | [] => Return email
  | thread_email :: rest =>
      tid <~ py_get thread_email "id" VNone ;;
      eid <~ dict_getitem email "id" ;;
      if py_eq tid eid then
        body <~ py_get thread_email "body" (VDict []) ;;
        Return (match structured_body body with
                | Some b => dict_set email "body" b
                | None => email
                end)
      else adopt_body email rest
  end.

(** Whether httpx takes [f"{self.base_url}/unibox/thread/{thread_id}"]
    for a URL: it refuses one that holds an ASCII control character.  A
    [str] goes into the f-string as it is; [str()] of any other object
    has no control character (a [repr] escapes them).  The limit httpx
    puts on the length of a URL is left out. *)
Definition thread_url_ok (thread_id : value) : bool :=
  match thread_id with
  | VStr s => negb (has_control s)
  | _ => true
  end.

(** [client.get] parsing its URL, before anything is sent. *)
Definition check_url (ok : bool) : M unit :=
  if ok then ret tt else raise InvalidURL.

(** The [try] block of the full-thread branch.  Only the request can
    raise an [httpx.HTTPError], and it does so before the record is
    touched, so the handler works on the record as it entered.  Anything
    else raised inside the block leaves it: [httpx.InvalidURL] for the
    URL, [ValueError] for a body that is not JSON, [AttributeError] and
    [TypeError] for a thread of the wrong shape. *)
Definition expand_thread (up : upstream) (email : dict) : M dict :=
  s <- get_self ;;
  try_except
    (tid <- lift (dict_getitem email "thread_id") ;;
     check_url (thread_url_ok tid) ;;;
     response <- send up GET (unibox_thread tid)
                   [("workspace_id", VStr (workspace_id s))] ;;
     thread_data <- json response ;;
     thread <- lift (py_get thread_data "data" (VList [])) ;;
     let email := dict_set email "thread" thread in
     items <- lift (py_iter thread) ;;
     lift (adopt_body email items))
    is_HTTPError
    (fun _ => ret (dict_set email "thread" (VList []))).

(** The [else] branch: "Handle email body for preview". *)
Definition preview_body (email : dict) : dict :=
  let body := dict_get_default email "body" VNone in
  let email :=
    dict_set email "body"
      (match structured_body body with
       | Some b => b
       | None => body_of (VStr "") (VStr "")
       end) in
  dict_set email "thread" (VList []).

(** "Ensure required fields exist". *)
Definition required_fields (email : dict) : dict :=
  let email := backfill email "id" (VStr "") in
  let email := backfill email "message_id" (VStr "") in
  let email := backfill email "subject" (VStr "") in
  let email := backfill email "from_address_email" (VStr "") in
  let email :=
    backfill email "from_address_json"
      (VList [VDict [("address", dict_get_default email "from_address_email" (VStr ""));
                     ("name", VStr "")]]) in
  let email := backfill email "to_address_json" (VList []) in
  let email := backfill email "cc_address_json" (VList []) in
  let email := backfill email "timestamp_created" VNone in
  backfill email "content_preview" (VStr "").

(** "Handle other fields". *)
Definition other_fields (email : dict) : dict :=
  let email := backfill email "label" VNone in
  let email := backfill email "campaign_id" VNone in
  let email := backfill email "lead_id" VNone in
  let email := backfill email "thread_id" VNone in
  backfill email "is_unread" (VBool false).

(** Whether the loop body takes the full-thread branch. *)
Definition wants_thread (preview_only : bool) (email : dict) : bool :=
  negb preview_only && truthy (dict_get_default email "thread_id" VNone).

(** The body of [for email in emails:]. *)
Definition normalize_email (up : upstream) (preview_only : bool) (email : value)
  : M value :=
  match email with
  | VDict d =>
      let d := required_fields d in
      d <- (if wants_thread preview_only d
            then expand_thread up d
            else ret (preview_body d)) ;;
      ret (VDict (other_fields d))
  | _ => raise AttributeError
  end.

Definition email_cache_key (preview_only : bool) (lead_email campaign_id : option string)
    (email_type : string) (label : option string) : string :=
  (fmt_bool preview_only ++ ":" ++ fmt_opt lead_email ++ ":" ++ fmt_opt campaign_id
   ++ ":" ++ email_type ++ ":" ++ fmt_opt label)%string.

(** [params[k] = v] when the optional filter [v] is given. *)
Definition add_filter (params : dict) (k : string) (v : option string) : dict :=
  if given v then dict_set params k (of_opt_str v) else params.

Definition get_emails_params (s : PiplAPI) (preview_only : bool)
    (lead_email campaign_id : option string) (email_type : string)
    (label : option string) : dict :=
  let params :=
    [("workspace_id", VStr (workspace_id s));
     ("preview_only", VStr (if preview_only then "true" else "false"));
     ("email_type", VStr email_type)] in
  let params := add_filter params "lead" lead_email in
  let params := add_filter params "campaign_id" campaign_id in
  add_filter params "label" label.

(** The list the loop leaves behind: the records of a list are updated
    in place; any other iterable got through the loop only if it was empty. *)
Definition updated (emails : value) (items : list value) : value :=
  match emails with
  | VList _ => VList items
  | _ => emails
  end.

Definition get_emails (up : upstream) (preview_only : bool)
    (lead_email campaign_id : option string) (email_type : string)
    (label : option string) : M value :=
  let cache_key := email_cache_key preview_only lead_email campaign_id email_type label in
  hit <- email_cache_contains cache_key ;;
  if hit : bool then email_cache_getitem cache_key
  else
    s <- get_self ;;
    let params := get_emails_params s preview_only lead_email campaign_id email_type label in
    try_except
      (response <- send up GET unibox_emails params ;;
       data <- json response ;;
       emails <- lift (py_get data "data" (VList [])) ;;
       items <- lift (py_iter emails) ;;
       items <- for_each (normalize_email up preview_only) items ;;
       let emails := updated emails items in
       email_cache_setitem cache_key emails ;;;
       ret emails)
      is_HTTPError
      (fun e => raise e).

(** ** [send_email] *)

Definition sender_of (env : list (string * string)) : string :=
  let sender_email := getenv_default env "PIPL_SENDER_EMAIL" "noreply@caeros.com" in
  let sender_name := getenv_default env "PIPL_SENDER_NAME" "Diana Moreno" in
  if negb (String.eqb sender_name "")
  then (sender_name ++ " <" ++ sender_email ++ ">")%string
  else sender_email.

Definition reply_data (s : PiplAPI) (sender to subject body : string)
    (reply_to_id : option string) : dict :=
  [("workspace_id", VStr (workspace_id s));
   ("reply_to_id", of_opt_str reply_to_id);
   ("subject", VStr subject);
   ("to", VStr to);
   ("body", VStr body);
   ("from", VStr sender)].

Definition new_lead_data (s : PiplAPI) (env : list (string * string))
    (to subject body : string) : dict :=
  [("workspace_id", VStr (workspace_id s));
   ("campaign_id", of_opt_str (getenv env "PIPL_DEFAULT_CAMPAIGN_ID"));
   ("leads",
    VList [VDict [("email", VStr to);
                  ("custom_variables",
                   VDict [("initial_subject", VStr subject);
                          ("initial_body", VStr body)])]])].

Definition send_email (up : upstream) (to subject body : string)
    (reply_to_id : option string) : M value :=
  env <- get_environ ;;
  s <- get_self ;;
  let sender := sender_of env in
  try_except
    (if given reply_to_id then
       response <- send up POST unibox_emails_reply
                     (reply_data s sender to subject body reply_to_id) ;;
       json response
     else
       response <- send up POST lead_add (new_lead_data s env to subject body) ;;
       json response)
    is_HTTPError
    (fun e => raise e).

(** ** The one-request operations *)

Definition workspace_params (s : PiplAPI) : dict :=
  [("workspace_id", VStr (workspace_id s))].

Definition get_campaigns (up : upstream) : M value :=
  s <- get_self ;;
  try_except
    (response <- send up GET campaign_list_all (workspace_params s) ;;
     json response)
    is_HTTPError
    (fun _ => ret (VList [])).

Definition add_lead_to_sequence (up : upstream) (email sequence_id : string) : M value :=
  s <- get_self ;;
  let data :=
    [("workspace_id", VStr (workspace_id s));
     ("subseq_id", VStr sequence_id);
     ("parent_lead_ids", VList [VStr email])] in
  try_except
    (response <- send up POST lead_add_lead_in_subseq data ;;
     json response)
    is_HTTPError
    (fun e => raise e).

Definition get_tags (up : upstream) : M value :=
  s <- get_self ;;
  try_except
    (response <- send up GET tag_list (workspace_params s) ;;
     json response)
    is_HTTPError
    (fun _ => ret (VList [])).

Definition update_lead (up : upstream) (email campaign_id : string) (variables : dict)
  : M value :=
  s <- get_self ;;
  let data :=
    [("workspace_id", VStr (workspace_id s));
     ("campaign_id", VStr campaign_id);
     ("email", VStr email);
     ("variables", VDict variables)] in
  try_except
    (response <- send up POST lead_data_update data ;;
     json response)
    is_HTTPError
    (fun e => raise e).

Definition get_analytics (up : upstream) (campaign_id : option string) : M value :=
  s <- get_self ;;
  let params := add_filter (workspace_params s) "campaign_id" campaign_id in
  try_except
    (response <- send up GET analytics_campaign_stats params ;;
     json response)
    is_HTTPError
    (fun _ => ret (VDict [("stats", VDict [])])).

Definition update_email_label (up : upstream) (email_id label : string) : M value :=
  s <- get_self ;;
  let data :=
    [("workspace_id", VStr (workspace_id s));
     ("email_id", VStr email_id);
     ("label", VStr label)] in
  try_except
    (response <- send up POST unibox_emails_label data ;;
     json response)
    is_HTTPError
    (fun e => raise e).

Definition invalidate_email_cache : M unit := set_email_cache [].
Definition invalidate_label_cache : M unit := set_label_cache [].

(** ** [get_labels] *)

Definition default_labels : value :=
  VList [VStr "INTERESTED"; VStr "NOT_INTERESTED"; VStr "MEETING_BOOKED";
         VStr "FOLLOW_UP"; VStr "WRONG_PERSON"; VStr "QUALIFIED";
         VStr "NOT_QUALIFIED"; VStr "CONTACTED"; VStr "RESPONDED";
         VStr "NO_RESPONSE"].

(** [name.upper().replace(" ", "_")]: only a [str] has [upper]. *)
Definition label_of_name (name : value) : result value :=
  match name with
  | VStr s => Return (VStr (replace_space (upper s)))
  | _ => Raise AttributeError
  end.

(** [[tag.get("name", "").upper().replace(" ", "_") for tag in tags
    if tag.get("name")]]. *)
Fixpoint labels_of_tags (tags : list value) : result (list value) :=
  match tags with
  | [] => Return []
  | tag :: rest =>
      keep <~ py_get tag "name" VNone ;;
      if truthy keep then
        name <~ py_get tag "name" (VStr "") ;;
        l <~ label_of_name name ;;
        ls <~ labels_of_tags rest ;;
        Return (l :: ls)
      else labels_of_tags rest
  end.

(** The handler of the inner [except httpx.HTTPStatusError]. *)
Definition labels_from_tags (up : upstream) (params : dict) (e : exn) : M value :=
  match e with
  | HTTPStatusError code =>
      if code =? 404 then
        response <- send up GET tag_list params ;;
        tags <- json response ;;
        items <- lift (py_iter tags) ;;
        ls <- lift (labels_of_tags items) ;;
        let labels := VList ls in
        label_cache_setitem "labels" labels ;;;
        ret labels
      else raise e
  | _ => raise e
  end.

Definition get_labels (up : upstream) : M value :=
  hit <- label_cache_contains "labels" ;;
  if hit : bool then label_cache_getitem "labels"
  else
    s <- get_self ;;
    let params := workspace_params s in
    try_except
      (try_except
         (response <- send up GET unibox_labels params ;;
          data <- json response ;;
          labels <- lift (py_get data "labels" (VList [])) ;;
          label_cache_setitem "labels" labels ;;;
          ret labels)
         is_HTTPStatusError
         (labels_from_tags up params))
      is_HTTPError
      (fun _ =>
         label_cache_setitem "labels" default_labels ;;;
         ret default_labels).

(** ** [get_leads] *)

(** [{"data": data, "total": total, "page": page, "limit": limit}]. *)
Definition leads_page (data : value) (total : Z) (page limit : option Z) : value :=
  VDict [("data", data); ("total", VInt total);
         ("page", of_opt_int page); ("limit", of_opt_int limit)].

Definition empty_page (page limit : option Z) : value :=
  leads_page (VList []) 0 page limit.

(** [params[k] = str(n)] when the optional number [n] is given and non-zero. *)
Definition add_number (params : dict) (k : string) (n : option Z) : dict :=
  if truthy (of_opt_int n)
  then dict_set params k (VStr (match n with Some z => str_of_int z | None => "" end))
  else params.

Definition get_leads_params (s : PiplAPI)
    (campaign_id status label email first_name last_name : option string)
    (page limit : option Z) (sort direction : option string) : dict :=
  let params := workspace_params s in
  let params := add_filter params "campaign_id" campaign_id in
  let params := add_filter params "status" status in
  let params := add_filter params "label" label in
  let params := add_filter params "email" email in
  let params := add_filter params "first_name" first_name in
  let params := add_filter params "last_name" last_name in
  let params := add_number params "page" page in
  let params := add_number params "limit" limit in
  let params := add_filter params "sort" sort in
  add_filter params "direction" direction.

(** "Ensure we return a consistent response format".  The first arm
    formats [len(data['data'])] into its log message before returning. *)
Definition consistent_format (data : value) (page limit : option Z) : result value :=
  match data with
  | VDict d =>
      if dict_has d "data" then
        items <~ dict_getitem d "data" ;;
        _ <~ py_len items ;;
        Return data
      else if dict_has d "_id" then
        Return (leads_page (VList [data]) 1 page limit)
      else Return (empty_page page limit)
  | VList l => Return (leads_page data (Z.of_nat (length l)) page limit)
  | _ => Return (empty_page page limit)
  end.

Definition get_leads (up : upstream)
    (campaign_id status label email first_name last_name : option string)
    (page limit : option Z) (sort direction : option string) : M value :=
  s <- get_self ;;
  let params := get_leads_params s campaign_id status label email first_name
                  last_name page limit sort direction in
  try_except
    (response <- send up GET lead_workspace_leads params ;;
     data <- json response ;;
     lift (consistent_format data page limit))
    is_HTTPError
    (fun _ => ret (empty_page page limit)).

(** ** Runs on concrete providers *)

(** A provider that answers every request at once with the same reply. *)
Definition always (r : reply) : upstream := fun _ _ => (0%N, r).

(** A provider that answers by endpoint, one second per round trip. *)
Definition by_path (f : endpoint -> reply) : upstream :=
  fun _ req => (1%N, f (r_path req)).

Definition run {A} (m : M A) (w : state) : result A := fst (m w).
Definition after {A} (m : M A) (w : state) : state := snd (m w).

(** ** Vocabulary of the statements *)

(** The provider's answer to the next request made from [w]. *)
Definition next_reply (up : upstream) (w : state) (v : verb) (path : endpoint)
    (data : dict) : reply :=
  snd (up (length (sent w)) (mkRequest v path (headers (self w)) data)).

(** The state once that request has been answered. *)
Definition answered (up : upstream) (w : state) (v : verb) (path : endpoint)
    (data : dict) : state :=
  let req := mkRequest v path (headers (self w)) data in
  {| environ := environ w; self := self w;
     clock := clock w + Z.of_N (fst (up (length (sent w)) req));
     sent := sent w ++ [req] |}.

(** Every request fails, with a bad status or in transport. *)
Definition down (up : upstream) : Prop :=
  forall n req, reply_error (snd (up n req)) <> None.


(** The record has a [body] object with both a [text] and an [html] key. *)
Definition has_structured_body (email : dict) : bool :=
  match dict_get email "body" with
  | Some (VDict b) => dict_has b "text" && dict_has b "html"
  | _ => false
  end.

(** A [LeadsPage]: a sequence under [data] and integers under [total],
    [page] and [limit]. *)
Definition is_LeadsPage (v : value) : bool :=
  match v with
  | VDict d =>
      match dict_get d "data", dict_get d "total", dict_get d "page", dict_get d "limit" with
      | Some (VList _), Some (VInt _), Some (VInt _), Some (VInt _) => true
      | _, _, _, _ => false
      end
  | _ => false
  end.

(** [get_emails] between the cache lookup and the cache write: the
    request and the loop. *)
Definition fetch_emails (up : upstream) (preview_only : bool) (params : dict) : M value :=
  response <- send up GET unibox_emails params ;;
  data <- json response ;;
  emails <- lift (py_get data "data" (VList [])) ;;
  items <- lift (py_iter emails) ;;
  items <- for_each (normalize_email up preview_only) items ;;
  ret (updated emails items).

(** [get_labels] likewise: the list each tier comes up with. *)
Definition resolve_labels (up : upstream) (params : dict) : M value :=
  try_except
    (try_except
       (response <- send up GET unibox_labels params ;;
        data <- json response ;;
        lift (py_get data "labels" (VList [])))
       is_HTTPStatusError
       (fun e =>
          match e with
          | HTTPStatusError code =>
              if code =? 404 then
                response <- send up GET tag_list params ;;
                tags <- json response ;;
                items <- lift (py_iter tags) ;;
                ls <- lift (labels_of_tags items) ;;
                ret (VList ls)
              else raise e
          | _ => raise e
          end))
    is_HTTPError
    (fun _ => ret default_labels).

(** The shape every one-request operation has: the request, then
    [response.json()], under one [except httpx.HTTPError]. *)
Definition round_trip (up : upstream) (v : verb) (path : endpoint) (data : dict)
    (handler : exn -> M value) : M value :=
  try_except
    (response <- send up v path data ;; json response)
    is_HTTPError handler.

(** [extends w w']: between [w] and [w'] only the network was used.  The
    environment and the instance are untouched, the clock did not go
    back and the request log only grew. *)

Definition extends (w w' : state) : Prop :=
  environ w' = environ w /\ self w' = self w /\ clock w <= clock w' /\
  exists reqs, sent w' = sent w ++ reqs.

Definition net_only {A} (m : M A) : Prop := forall w, extends w (snd (m w)).


(** ** Further vocabulary *)

(** A request carries the given headers and workspace id. *)
Definition stamped (hs : list (string * string)) (ws : string) (req : request) : Prop :=
  r_headers req = hs /\ dict_get (r_data req) "workspace_id" = Some (VStr ws).

(** A method body that, run on an instance with these headers and this
    workspace id, keeps both and sends stamped requests only. *)
Definition stamps {A} (hs : list (string * string)) (ws : string) (m : M A) : Prop :=
  forall w,
    headers (self w) = hs -> workspace_id (self w) = ws ->
    headers (self (snd (m w))) = hs /\
    workspace_id (self (snd (m w))) = ws /\
    exists reqs, sent (snd (m w)) = sent w ++ reqs /\ Forall (stamped hs ws) reqs.

(** What a call added to the request log. *)
Definition all_stamped {A} (m : M A) (w : state) : Prop :=
  exists reqs,
    sent (after m w) = sent w ++ reqs /\
    Forall (stamped (headers (self w)) (workspace_id (self w))) reqs.

(** How an optional string filter shows in a query: under its key when
    given and non-empty, not at all otherwise. *)
Definition filter_sent (data : dict) (k : string) (o : option string) : Prop :=
  (forall s, o = Some s -> s <> "" -> dict_get data k = Some (VStr s)) /\
  (o = None \/ o = Some "" -> dict_get data k = None).

(** The same for an optional number, sent in decimal unless zero. *)
Definition number_sent (data : dict) (k : string) (o : option Z) : Prop :=
  (forall n, o = Some n -> n <> 0 ->
             exists s, dict_get data k = Some (VStr s) /\
                       option_map Z.of_int (NilZero.int_of_string s) = Some n) /\
  (o = None \/ o = Some 0 -> dict_get data k = None).

(** The thread requests a listing makes for these records, in order. *)
Definition thread_requests (s : PiplAPI) (preview_only : bool) (records : list dict)
  : list request :=
  map (fun email =>
         mkRequest GET (unibox_thread (dict_get_default email "thread_id" VNone))
           (headers s) (workspace_params s))
      (filter (fun email =>
                 negb preview_only && truthy (dict_get_default email "thread_id" VNone))
              records).

(** The listing query of [get_emails]. *)
Definition listing_request (s : PiplAPI) (preview_only : bool)
    (lead_email campaign_id : option string) (email_type : string)
    (label : option string) : request :=
  mkRequest GET unibox_emails (headers s)
    (get_emails_params s preview_only lead_email campaign_id email_type label).

(** A cache in good order: no key twice, no more entries than it may hold. *)
Definition cache_ok (maxsize : nat) (c : TTLCache) : Prop :=
  NoDup (map e_key c) /\ (length c <= maxsize)%nat.

Definition caches_ok (w : state) : Prop :=
  cache_ok email_maxsize (email_cache (self w)) /\
  cache_ok label_maxsize (label_cache (self w)).

(** What a lookup of [k] at time [now] would find, without the reordering. *)
Definition cache_peek (k : string) (now : Z) (c : TTLCache) : option value :=
  match find_entry k c with
  | Some e => if now <? e_expires e then Some (e_value e) else None
  | None => None
  end.

(** The text holds no colon. *)
Fixpoint colon_free (s : string) : bool :=
  match s with
  | EmptyString => true
  | String c rest => negb (Ascii.eqb c ":"%char) && colon_free rest
  end.

(** A record as [get_emails] leaves it in preview mode. *)
Definition preview_record (email : dict) : dict :=
  other_fields (preview_body (required_fields email)).

(** The keys every normalised record has. *)
Definition record_keys : list string :=
  ["id"; "message_id"; "subject"; "from_address_email"; "from_address_json";
   "to_address_json"; "cc_address_json"; "timestamp_created"; "content_preview";
   "body"; "thread"; "label"; "campaign_id"; "lead_id"; "thread_id"; "is_unread"].

(** A lower-case ASCII letter. *)
Definition is_lower (c : ascii) : bool :=
  let n := nat_of_ascii c in ((97 <=? n) && (n <=? 122))%nat.

(** The text holds no space and no lower-case ASCII letter. *)
Fixpoint label_shaped (s : string) : bool :=
  match s with
  | EmptyString => true
  | String c rest =>
      negb (Ascii.eqb c " "%char) && negb (is_lower c) && label_shaped rest
  end.

(** The name a tag contributes, if it has one. *)
Definition tag_name (tag : dict) : option string :=
  match dict_get tag "name" with
  | Some (VStr s) => if String.eqb s "" then None else Some s
  | _ => None
  end.

(** The tag's name, if it has one, is a string or counts as false. *)
Definition plain_tag (tag : dict) : bool :=
  match dict_get tag "name" with
  | None => true
  | Some (VStr _) => true
  | Some v => negb (truthy v)
  end.

(** The names the tags contribute, in order. *)
Fixpoint tag_names (tags : list dict) : list string :=
  match tags with
  | [] => []
  | tag :: rest =>
      match tag_name tag with
      | Some s => s :: tag_names rest
      | None => tag_names rest
      end
  end.

(** What a one-request operation makes of the provider's answer when it
    degrades to [fallback] on an HTTP error. *)
Definition degraded (answer : reply) (fallback : value) : result value :=
  match answer with
  | Success (Some j) => Return j
  | Success None => Raise ValueError
  | Status _ | Failure => Return fallback
  end.

(** The same when it raises the HTTP error. *)
Definition propagated (answer : reply) : result value :=
  match answer with
  | Success (Some j) => Return j
  | Success None => Raise ValueError
  | Status code => Raise (HTTPStatusError code)
  | Failure => Raise RequestError
  end.

(** One request was sent, this one, and the instance is as it was. *)
Definition sent_only {A} (m : M A) (w : state) (v : verb) (path : endpoint)
    (data : dict) : Prop :=
  sent (after m w) = sent w ++ [mkRequest v path (headers (self w)) data] /\
  self (after m w) = self w.

(** ** The routes of [main.py]

    A route answers with a JSON body or raises
    [HTTPException(status_code=500, detail=str(e))]; the exception it
    caught stands for its text.  The routes that go through [pipl_api]
    wrap one gateway call; [mark_email_read] and [get_unread_count] talk
    to the provider themselves, on two endpoints the gateway never
    uses. *)
Module Main.

Inductive response : Type :=
| Body (v : value)
| HTTPException (status_code : Z) (detail : exn).

(** [try: return await m  except Exception as e: raise HTTPException(500, ...)]. *)
Definition guarded (m : M value) : state -> response * state :=
  fun w =>
    match m w with
    | (Return v, w') => (Body v, w')
    | (Raise e, w') => (HTTPException 500 e, w')
    end.

Definition get_emails (up : upstream) (preview_only : bool) (email_type : string)
    (label lead_email campaign_id : option string) :=
  guarded (get_emails up preview_only lead_email campaign_id email_type label).

Definition send_email (up : upstream) (to subject body : string)
    (reply_to_id : option string) :=
  guarded (send_email up to subject body reply_to_id).

Definition get_campaigns (up : upstream) := guarded (get_campaigns up).

Definition add_to_sequence (up : upstream) (email sequence_id : string) :=
  guarded (add_lead_to_sequence up email sequence_id).

Definition get_tags (up : upstream) := guarded (get_tags up).

Definition update_tags (up : upstream) (email campaign_id : string) (tags : list string) :=
  guarded (update_lead up email campaign_id [("tags", VList (map VStr tags))]).

Definition get_analytics (up : upstream) (campaign_id : option string) :=
  guarded (get_analytics up campaign_id).

Definition get_labels (up : upstream) := guarded (get_labels up).

Definition update_email_label (up : upstream) (email_id label : string) :=
  guarded (update_email_label up email_id label).

Definition get_leads (up : upstream)
    (campaign_id status label email first_name last_name : option string)
    (page limit : Z) (sort direction : string) :=
  guarded (get_leads up campaign_id status label email first_name last_name
             (Some page) (Some limit) (Some sort) (Some direction)).

(** The two endpoints the routes call on their own. *)
Inductive path : Type :=
| unibox_threads_mark_as_read (thread_id : string)
| unibox_emails_count_unread.

Record request : Type := mkRequest {
  r_verb : verb;
  r_path : path;
  r_headers : list (string * string);
  r_data : dict
}.

(** One round trip under [except Exception]. *)
Definition direct (answer : reply) : response :=
  match answer with
  | Success (Some j) => Body j
  | Success None => HTTPException 500 ValueError
  | Status code => HTTPException 500 (HTTPStatusError code)
  | Failure => HTTPException 500 RequestError
  end.

(** How httpx writes one value of [params=] into the query string:
    [None] becomes the empty string, so the key is sent with no value. *)
Definition query_value (v : value) : value :=
  match v with
  | VNone => VStr ""
  | VBool b => VStr (if b then "true" else "false")
  | VInt z => VStr (str_of_int z)
  | _ => v
  end.

(** [mark_email_read] returns its answer and the request it made, if it
    made one: a [thread_id] httpx cannot put into a URL ends the route
    before anything is sent.  [json=data] carries an unset variable as
    JSON [null]. *)
Definition mark_email_read (up : request -> reply) (thread_id : string) (w : state)
  : response * option request :=
  let data := [("workspace_id", of_opt_str (getenv (environ w) "PIPL_WORKSPACE_ID"))] in
  if has_control thread_id then (HTTPException 500 InvalidURL, None)
  else
    let req :=
      mkRequest POST (unibox_threads_mark_as_read thread_id) (headers (self w)) data in
    (direct (up req), Some req).

(** [get_unread_count] returns its answer and the request it made;
    [params=params] carries an unset variable as an empty value. *)
Definition get_unread_count (up : request -> reply) (w : state) : response * request :=
  let params := [("workspace_id", of_opt_str (getenv (environ w) "PIPL_WORKSPACE_ID"))] in
  let req :=
    mkRequest GET unibox_emails_count_unread (headers (self w))
      (map (fun kv => (fst kv, query_value (snd kv))) params) in
  (direct (up req), req).

End Main.

(** ** The EmailBison client ([emailbison.py])

    Five operations of one request each, none of them under a [try].
    The two that put an argument into the URL return the request they
    made, if they made one: httpx refuses a URL that holds an ASCII
    control character before anything is sent. *)
Module EmailBison.

Inductive path : Type :=
| emails
| send
| sequences
| sequence_contacts (sequence_id : string)
| sequence_contact (sequence_id contact_email : string).

Record request : Type := mkRequest {
  r_verb : verb;
  r_path : path;
  r_headers : list (string * string);
  r_data : dict
}.

Record EmailBisonAPI : Type := mkEmailBisonAPI {
  api_key : option string;
  base_url : string;
  headers : list (string * string)
}.

(** [EmailBisonAPI.__init__]. *)
Definition init (env : list (string * string)) : EmailBisonAPI :=
  let key := getenv env "EMAILBISON_API_KEY" in
  {| api_key := key;
     base_url := "https://api.emailbison.com/v1";
     headers := [("Authorization", ("Bearer " ++ fmt_opt key)%string);
                 ("Content-Type", "application/json")] |}.

(** The request, [raise_for_status()], then [response.json()]. *)
Definition exchange (up : request -> reply) (req : request) : result value :=
  body <~ (match up req with
           | Success body => Return body
           | Status code => Raise (HTTPStatusError code)
           | Failure => Raise RequestError
           end) ;;
  match body with
  | Some v => Return v
  | None => Raise ValueError
  end.

Definition get_emails (up : request -> reply) (self : EmailBisonAPI) (folder : string)
  : result value * request :=
  let req := mkRequest GET emails (headers self) [("folder", VStr folder)] in
  (exchange up req, req).

Definition send_email (up : request -> reply) (self : EmailBisonAPI)
    (to subject body : string) : result value * request :=
  let req := mkRequest POST send (headers self)
               [("to", VStr to); ("subject", VStr subject); ("body", VStr body)] in
  (exchange up req, req).

Definition create_sequence (up : request -> reply) (self : EmailBisonAPI)
    (name : string) (steps : list dict) : result value * request :=
  let req := mkRequest POST sequences (headers self)
               [("name", VStr name); ("steps", VList (map VDict steps))] in
  (exchange up req, req).

Definition add_to_sequence (up : request -> reply) (self : EmailBisonAPI)
    (sequence_id contact_email : string) : result value * option request :=
  if has_control sequence_id then (Raise InvalidURL, None)
  else
    let req := mkRequest POST (sequence_contacts sequence_id) (headers self)
                 [("email", VStr contact_email)] in
    (exchange up req, Some req).

Definition get_sequence_status (up : request -> reply) (self : EmailBisonAPI)
    (sequence_id contact_email : string) : result value * option request :=
  if has_control sequence_id || has_control contact_email then (Raise InvalidURL, None)
  else
    let req :=
      mkRequest GET (sequence_contact sequence_id contact_email) (headers self) [] in
    (exchange up req, Some req).

End EmailBison.


(** * Properties *)

(** ** The monad *)

Lemma bind_Return {A B} (m : M A) (k : A -> M B) w a w' :
  m w = (Return a, w') -> bind m k w = k a w'.
Proof. intros H. unfold bind. now rewrite H. Qed.

Lemma bind_Raise {A B} (m : M A) (k : A -> M B) w e w' :
  m w = (Raise e, w') -> bind m k w = (Raise e, w').
Proof. intros H. unfold bind. now rewrite H. Qed.

Lemma reraise_id {A} (m : M A) (caught : exn -> bool) w :
  try_except m caught (fun e => raise e) w = m w.
Proof.
  unfold try_except, raise.
  destruct (m w) as [[a | e] w']; [reflexivity |].
  now destruct (caught e).
Qed.

(** ** What a method body can do to the state *)

Lemma extends_refl w : extends w w.
Proof.
  repeat split; try lia. exists []. now rewrite app_nil_r.
Qed.

Lemma extends_trans w1 w2 w3 : extends w1 w2 -> extends w2 w3 -> extends w1 w3.
Proof.
  intros (E1 & S1 & C1 & r1 & L1) (E2 & S2 & C2 & r2 & L2).
  repeat split; try congruence; try lia.
  exists (r1 ++ r2). now rewrite L2, L1, app_assoc.
Qed.

Lemma net_only_ret {A} (a : A) : net_only (ret a).
Proof. intros w. apply extends_refl. Qed.

Lemma net_only_raise {A} e : net_only (@raise A e).
Proof. intros w. apply extends_refl. Qed.

Lemma net_only_lift {A} (r : result A) : net_only (lift r).
Proof. intros w. apply extends_refl. Qed.

Lemma net_only_get_self : net_only get_self.
Proof. intros w. apply extends_refl. Qed.

Lemma net_only_get_environ : net_only get_environ.
Proof. intros w. apply extends_refl. Qed.

Lemma net_only_json b : net_only (json b).
Proof. destruct b; intros w; apply extends_refl. Qed.

Lemma net_only_bind {A B} (m : M A) (k : A -> M B) :
  net_only m -> (forall a, net_only (k a)) -> net_only (bind m k).
Proof.
  intros Hm Hk w. unfold bind. specialize (Hm w).
  destruct (m w) as [[a | e] w']; simpl in Hm; [| exact Hm].
  eapply extends_trans; [exact Hm | apply Hk].
Qed.

Lemma net_only_try_except {A} (m : M A) caught handler :
  net_only m -> (forall e, net_only (handler e)) ->
  net_only (try_except m caught handler).
Proof.
  intros Hm Hh w. unfold try_except. specialize (Hm w).
  destruct (m w) as [[a | e] w']; simpl in Hm; [exact Hm |].
  destruct (caught e); [| exact Hm].
  eapply extends_trans; [exact Hm | apply Hh].
Qed.

Lemma net_only_for_each {A B} (body : A -> M B) l :
  (forall a, net_only (body a)) -> net_only (for_each body l).
Proof.
  intros Hb. induction l as [| x rest IH]; simpl.
  - apply net_only_ret.
  - apply net_only_bind; [apply Hb |]. intros y.
    apply net_only_bind; [exact IH |]. intros ys. apply net_only_ret.
Qed.

Lemma net_only_send up v path data : net_only (send up v path data).
Proof.
  intros w. unfold send.
  destruct (up _ _) as [lag r].
  assert (E : extends w {| environ := environ w; self := self w;
                           clock := clock w + Z.of_N lag;
                           sent := sent w ++ [mkRequest v path (headers (self w)) data] |}).
  { repeat split; simpl; try lia. now eexists. }
  destruct r; exact E.
Qed.

Create HintDb net_only.
#[local] Hint Resolve net_only_ret net_only_raise net_only_lift net_only_get_self
  net_only_get_environ net_only_json net_only_send : net_only.

Ltac net_only :=
  repeat first
    [ apply net_only_bind; [| intros ?]
    | apply net_only_try_except; [| intros ?]
    | apply net_only_for_each; intros ?
    | solve [auto with net_only] ].

Lemma net_only_check_url ok : net_only (check_url ok).
Proof. destruct ok; [apply net_only_ret | apply net_only_raise]. Qed.

Lemma net_only_expand_thread up email : net_only (expand_thread up email).
Proof. unfold expand_thread. net_only. apply net_only_check_url. Qed.

Lemma net_only_normalize_email up preview_only email :
  net_only (normalize_email up preview_only email).
Proof.
  unfold normalize_email. destruct email; try apply net_only_raise.
  net_only. destruct (wants_thread _ _);
    [apply net_only_expand_thread | apply net_only_ret].
Qed.

(** ** The cache *)

Lemma find_entry_forget k c : find_entry k (forget k c) = None.
Proof.
  unfold find_entry, forget. induction c as [| e c IH]; simpl; [reflexivity |].
  destruct (String.eqb (e_key e) k) eqn:E; simpl; [exact IH |].
  now rewrite E.
Qed.

Lemma find_entry_app_None k c1 c2 :
  find_entry k c1 = None -> find_entry k (c1 ++ c2) = find_entry k c2.
Proof.
  unfold find_entry. induction c1 as [| e c1 IH]; simpl; [reflexivity |].
  destruct (String.eqb (e_key e) k); [discriminate | exact IH].
Qed.

Lemma forget_forget k c : forget k (forget k c) = forget k c.
Proof.
  unfold forget. induction c as [| e c IH]; simpl; [reflexivity |].
  destruct (String.eqb (e_key e) k) eqn:E; simpl; [exact IH |].
  rewrite E. simpl. now rewrite IH.
Qed.

Lemma forget_app k c1 c2 : forget k (c1 ++ c2) = forget k c1 ++ forget k c2.
Proof. apply filter_app. Qed.

(** What [cache[k] = v] leaves behind: [k] is the most recent entry. *)
Lemma cache_setitem_shape maxsize ttl k v now c :
  exists older,
    cache_setitem maxsize ttl k v now c = forget k older ++ [mkEntry k v (now + ttl)].
Proof. unfold cache_setitem. eexists. reflexivity. Qed.

Lemma find_entry_fresh k older e :
  e_key e = k -> find_entry k (forget k older ++ [e]) = Some e.
Proof.
  intros <-. rewrite find_entry_app_None by apply find_entry_forget.
  unfold find_entry. simpl. now rewrite String.eqb_refl.
Qed.

(** A stored entry is found until its time to live has passed. *)
Lemma cache_contains_setitem maxsize ttl k v now c later :
  later < now + ttl ->
  cache_contains k later (cache_setitem maxsize ttl k v now c) = true.
Proof.
  intros H. destruct (cache_setitem_shape maxsize ttl k v now c) as [older ->].
  unfold cache_contains. rewrite find_entry_fresh by reflexivity.
  simpl. now apply Z.ltb_lt.
Qed.

(** Reading it back returns the stored value and changes nothing. *)
Lemma cache_getitem_setitem maxsize ttl k v now c later :
  later < now + ttl ->
  cache_getitem k later (cache_setitem maxsize ttl k v now c)
  = (Return v, cache_setitem maxsize ttl k v now c).
Proof.
  intros H. destruct (cache_setitem_shape maxsize ttl k v now c) as [older ->].
  unfold cache_getitem. rewrite find_entry_fresh by reflexivity. simpl.
  apply Z.ltb_lt in H. rewrite H. f_equal.
  rewrite forget_app, forget_forget. unfold forget at 2. simpl.
  rewrite String.eqb_refl. simpl. now rewrite app_nil_r.
Qed.

(** A key that is in the cache can be read. *)
Lemma cache_getitem_contains k now c :
  cache_contains k now c = true ->
  exists v c', cache_getitem k now c = (Return v, c').
Proof.
  unfold cache_contains, cache_getitem.
  destruct (find_entry k c) as [e |]; [| discriminate].
  intros ->. eauto.
Qed.

(** ** One round trip *)

Lemma reply_error_is_HTTPError r e : reply_error r = Some e -> is_HTTPError e = true.
Proof. destruct r; simpl; intros H; inversion H; reflexivity. Qed.

Lemma send_error up w v path data e :
  reply_error (next_reply up w v path data) = Some e ->
  send up v path data w = (Raise e, answered up w v path data).
Proof.
  unfold next_reply, answered, send.
  destruct (up _ _) as [lag r]. simpl.
  destruct r; simpl; intros H; inversion H; reflexivity.
Qed.

Lemma send_success up w v path data body :
  next_reply up w v path data = Success body ->
  send up v path data w = (Return body, answered up w v path data).
Proof.
  unfold next_reply, answered, send.
  destruct (up _ _) as [lag r]. simpl. now intros ->.
Qed.

Lemma send_logs up w v path data :
  sent (snd (send up v path data w))
  = sent w ++ [mkRequest v path (headers (self w)) data].
Proof.
  unfold send. destruct (up _ _) as [lag r]. now destruct r.
Qed.

Lemma self_answered up w v path data : self (answered up w v path data) = self w.
Proof. reflexivity. Qed.

Lemma round_trip_error up w v path data handler e :
  reply_error (next_reply up w v path data) = Some e ->
  round_trip up v path data handler w = handler e (answered up w v path data).
Proof.
  intros H. unfold round_trip, try_except.
  rewrite (bind_Raise _ _ _ _ _ (send_error _ _ _ _ _ _ H)).
  now rewrite (reply_error_is_HTTPError _ _ H).
Qed.

Lemma round_trip_success up w v path data handler j :
  next_reply up w v path data = Success (Some j) ->
  round_trip up v path data handler w = (Return j, answered up w v path data).
Proof.
  intros H. unfold round_trip, try_except.
  now rewrite (bind_Return _ _ _ _ _ (send_success _ _ _ _ _ _ H)).
Qed.

Lemma round_trip_logs up w v path data handler :
  (forall e w', sent (snd (handler e w')) = sent w') ->
  sent (snd (round_trip up v path data handler w))
  = sent w ++ [mkRequest v path (headers (self w)) data].
Proof.
  intros Hh. unfold round_trip, try_except, bind.
  pose proof (send_logs up w v path data) as L.
  destruct (send up v path data w) as [[body | e] w']; simpl in L.
  - destruct body; exact L.
  - destruct (is_HTTPError e); [rewrite Hh |]; exact L.
Qed.

(** Each one-request operation is a [round_trip] with its own handler. *)

Lemma get_campaigns_round_trip up w :
  get_campaigns up w
  = round_trip up GET campaign_list_all (workspace_params (self w))
      (fun _ => ret (VList [])) w.
Proof. reflexivity. Qed.

Lemma get_tags_round_trip up w :
  get_tags up w
  = round_trip up GET tag_list (workspace_params (self w))
      (fun _ => ret (VList [])) w.
Proof. reflexivity. Qed.

Lemma get_analytics_round_trip up campaign_id w :
  get_analytics up campaign_id w
  = round_trip up GET analytics_campaign_stats
      (add_filter (workspace_params (self w)) "campaign_id" campaign_id)
      (fun _ => ret (VDict [("stats", VDict [])])) w.
Proof. reflexivity. Qed.

Lemma add_lead_to_sequence_round_trip up email sequence_id w :
  add_lead_to_sequence up email sequence_id w
  = round_trip up POST lead_add_lead_in_subseq
      [("workspace_id", VStr (workspace_id (self w)));
       ("subseq_id", VStr sequence_id);
       ("parent_lead_ids", VList [VStr email])]
      (fun e => raise e) w.
Proof. reflexivity. Qed.

Lemma update_lead_round_trip up email campaign_id variables w :
  update_lead up email campaign_id variables w
  = round_trip up POST lead_data_update
      [("workspace_id", VStr (workspace_id (self w)));
       ("campaign_id", VStr campaign_id);
       ("email", VStr email);
       ("variables", VDict variables)]
      (fun e => raise e) w.
Proof. reflexivity. Qed.

Lemma update_email_label_round_trip up email_id label w :
  update_email_label up email_id label w
  = round_trip up POST unibox_emails_label
      [("workspace_id", VStr (workspace_id (self w)));
       ("email_id", VStr email_id);
       ("label", VStr label)]
      (fun e => raise e) w.
Proof. reflexivity. Qed.

Lemma send_email_round_trip up to subject body reply_to_id w :
  send_email up to subject body reply_to_id w
  = if given reply_to_id
    then round_trip up POST unibox_emails_reply
           (reply_data (self w) (sender_of (environ w)) to subject body reply_to_id)
           (fun e => raise e) w
    else round_trip up POST lead_add
           (new_lead_data (self w) (environ w) to subject body)
           (fun e => raise e) w.
Proof.
  unfold send_email, bind, get_environ, get_self, round_trip, try_except.
  now destruct (given reply_to_id).
Qed.

(** When the next request fails, a round trip is its handler's answer. *)
Lemma round_trip_down up w v path data handler :
  (forall v path data, reply_error (next_reply up w v path data) <> None) ->
  exists e, is_HTTPError e = true /\
    round_trip up v path data handler w = handler e (answered up w v path data).
Proof.
  intros Hdown.
  destruct (reply_error (next_reply up w v path data)) as [e |] eqn:E;
    [| now apply Hdown in E].
  exists e. split; [eapply reply_error_is_HTTPError, E |].
  now apply round_trip_error.
Qed.

(** ** Degrade or propagate *)

(** C8: When the provider fails, [get_campaigns] and [get_tags] return the
    empty list and [get_analytics] returns [{"stats": {}}], while
    [add_lead_to_sequence], [update_lead] and [update_email_label] raise
    the provider's error to the caller. *)
Theorem degrade_or_propagate :
  forall (up : upstream) (w : state),
    (forall v path data, reply_error (next_reply up w v path data) <> None) ->
    run (get_campaigns up) w = Return (VList []) /\
    run (get_tags up) w = Return (VList []) /\
    (forall campaign_id,
        run (get_analytics up campaign_id) w = Return (VDict [("stats", VDict [])])) /\
    (forall email sequence_id,
        exists e, is_HTTPError e = true /\
                  run (add_lead_to_sequence up email sequence_id) w = Raise e) /\
    (forall email campaign_id variables,
        exists e, is_HTTPError e = true /\
                  run (update_lead up email campaign_id variables) w = Raise e) /\
    (forall email_id label,
        exists e, is_HTTPError e = true /\
                  run (update_email_label up email_id label) w = Raise e).
Proof.
  intros up w Hdown. unfold run.
  repeat split; intros.
  - rewrite get_campaigns_round_trip.
    now destruct (round_trip_down up w GET campaign_list_all
                    (workspace_params (self w)) (fun _ => ret (VList [])) Hdown)
      as (e & _ & ->).
  - rewrite get_tags_round_trip.
    now destruct (round_trip_down up w GET tag_list
                    (workspace_params (self w)) (fun _ => ret (VList [])) Hdown)
      as (e & _ & ->).
  - rewrite get_analytics_round_trip.
    now destruct (round_trip_down up w GET analytics_campaign_stats
                    (add_filter (workspace_params (self w)) "campaign_id" campaign_id)
                    (fun _ => ret (VDict [("stats", VDict [])])) Hdown)
      as (e & _ & ->).
  - rewrite add_lead_to_sequence_round_trip.
    match goal with
    | |- context [round_trip up ?v ?p ?d ?h w] =>
        destruct (round_trip_down up w v p d h Hdown) as (e & He & ->)
    end.
    now exists e.
  - rewrite update_lead_round_trip.
    match goal with
    | |- context [round_trip up ?v ?p ?d ?h w] =>
        destruct (round_trip_down up w v p d h Hdown) as (e & He & ->)
    end.
    now exists e.
  - rewrite update_email_label_round_trip.
    match goal with
    | |- context [round_trip up ?v ?p ?d ?h w] =>
        destruct (round_trip_down up w v p d h Hdown) as (e & He & ->)
    end.
    now exists e.
Qed.

(** A provider that is down altogether is a case in point. *)
Lemma degrade_or_propagate_witness :
  run (get_campaigns (always Failure)) (boot [] 0) = Return (VList []) /\
  exists e, is_HTTPError e = true /\
    run (update_email_label (always Failure) "e1" "QUALIFIED") (boot [] 0) = Raise e.
Proof.
  assert (H : forall v path data,
             reply_error (next_reply (always Failure) (boot [] 0) v path data) <> None)
    by (intros v path data; simpl; discriminate).
  pose proof (degrade_or_propagate (always Failure) (boot [] 0) H)
    as (C & _ & _ & _ & _ & L).
  split; [exact C | exact (L "e1" "QUALIFIED")].
Defined.

(** ** [send_email] *)

(** C7: [send_email] sends exactly one request.  With a [reply_to_id] it
    is the reply call; without one it is the lead-creation call, whose
    payload ties the lead to the configured default campaign and carries
    subject and body as custom variables.  In both modes a failure of the
    provider is raised to the caller. *)
Theorem send_email_modes :
  forall (up : upstream) (to subject body : string) (reply_to_id : option string)
         (w : state),
    let call := send_email up to subject body reply_to_id in
    let reply_request :=
      mkRequest POST unibox_emails_reply (headers (self w))
        [("workspace_id", VStr (workspace_id (self w)));
         ("reply_to_id", of_opt_str reply_to_id);
         ("subject", VStr subject);
         ("to", VStr to);
         ("body", VStr body);
         ("from", VStr (sender_of (environ w)))] in
    let lead_request :=
      mkRequest POST lead_add (headers (self w))
        [("workspace_id", VStr (workspace_id (self w)));
         ("campaign_id", of_opt_str (getenv (environ w) "PIPL_DEFAULT_CAMPAIGN_ID"));
         ("leads",
          VList [VDict [("email", VStr to);
                        ("custom_variables",
                         VDict [("initial_subject", VStr subject);
                                ("initial_body", VStr body)])]])] in
    (given reply_to_id = true -> sent (after call w) = sent w ++ [reply_request]) /\
    (given reply_to_id = false -> sent (after call w) = sent w ++ [lead_request]) /\
    (forall e,
        reply_error (snd (up (length (sent w))
                            (if given reply_to_id then reply_request else lead_request)))
        = Some e ->
        run call w = Raise e).
Proof.
  intros up to subject body reply_to_id w. cbv zeta.
  unfold run, after. rewrite send_email_round_trip.
  repeat split.
  - intros ->. now apply round_trip_logs.
  - intros ->. now apply round_trip_logs.
  - intros e. destruct (given reply_to_id); intros H;
      now rewrite (round_trip_error _ _ _ _ _ _ _ H).
Qed.

(** A reply to message [m-17], and a new message to a lead, while the
    provider is unreachable. *)
Lemma send_email_modes_witness :
  (exists req,
      sent (after (send_email (always Failure) "lp@fund.example" "Re: Intro" "Thanks"
                     (Some "m-17")) (boot [] 0)) = [req] /\
      r_path req = unibox_emails_reply) /\
  (exists req,
      sent (after (send_email (always Failure) "lp@fund.example" "Intro" "Hello" None)
                  (boot [] 0)) = [req] /\
      r_path req = lead_add) /\
  run (send_email (always Failure) "lp@fund.example" "Intro" "Hello" None) (boot [] 0)
  = Raise RequestError.
Proof.
  pose proof (send_email_modes (always Failure) "lp@fund.example" "Re: Intro" "Thanks"
                (Some "m-17") (boot [] 0)) as (R & _ & _).
  pose proof (send_email_modes (always Failure) "lp@fund.example" "Intro" "Hello"
                None (boot [] 0)) as (_ & L & E).
  split; [| split].
  - eexists. split; [exact (R eq_refl) | reflexivity].
  - eexists. split; [exact (L eq_refl) | reflexivity].
  - exact (E RequestError eq_refl).
Defined.

(** ** Configuration *)

(** C6, as stated, fails: with no [PIPL_DEFAULT_CAMPAIGN_ID] in the
    environment, [send_email] raises nothing when the provider accepts
    the request. *)
Lemma missing_campaign_id_raises_nothing :
  getenv [] "PIPL_DEFAULT_CAMPAIGN_ID" = None /\
  raises (run (send_email (always (Success (Some (VDict [("status", VStr "ok")]))))
                 "lp@fund.example" "Intro" "Hello" None)
              (boot [] 0)) = false.
Proof. split; reflexivity. Qed.

(** C6, amended: no operation checks its configuration.  A missing API
    key or workspace id is replaced by the literal default of
    [__init__], a missing sender by the literal defaults of
    [send_email], and a missing default campaign id goes to the provider
    as a null [campaign_id]; the call then returns whatever the provider
    answers. *)
Theorem missing_configuration_is_substituted :
  forall (env : list (string * string)),
    (getenv env "PIPL_API_KEY" = None ->
     api_key (PiplAPI_init env) = "6fc126c4-04e5c9d5-87b13817-eedc8acc") /\
    (getenv env "PIPL_WORKSPACE_ID" = None ->
     workspace_id (PiplAPI_init env) = "67bd12283f02ce58fa6fb65d") /\
    (getenv env "PIPL_SENDER_NAME" = None -> getenv env "PIPL_SENDER_EMAIL" = None ->
     sender_of env = "Diana Moreno <noreply@caeros.com>") /\
    (getenv env "PIPL_DEFAULT_CAMPAIGN_ID" = None ->
     forall (up : upstream) (to subject body : string) (now : Z) (j : value),
       let w := boot env now in
       let data := new_lead_data (self w) env to subject body in
       next_reply up w POST lead_add data = Success (Some j) ->
       dict_get data "campaign_id" = Some VNone /\
       sent (after (send_email up to subject body None) w)
       = [mkRequest POST lead_add (headers (self w)) data] /\
       run (send_email up to subject body None) w = Return j).
Proof.
  intros env. repeat split.
  - intros H. simpl. unfold getenv_default. now rewrite H.
  - intros H. simpl. unfold getenv_default. now rewrite H.
  - intros Hn He. unfold sender_of, getenv_default. now rewrite Hn, He.
  - unfold new_lead_data. simpl. now rewrite H.
  - unfold after. rewrite send_email_round_trip. simpl given. cbv iota.
    now rewrite round_trip_logs.
  - unfold run. rewrite send_email_round_trip. simpl given. cbv iota.
    now rewrite (round_trip_success _ _ _ _ _ _ _ H0).
Qed.

(** The empty environment, and a provider that accepts the lead. *)
Lemma missing_configuration_is_substituted_witness :
  api_key (PiplAPI_init []) = "6fc126c4-04e5c9d5-87b13817-eedc8acc" /\
  run (send_email (always (Success (Some (VDict [("status", VStr "ok")]))))
         "lp@fund.example" "Intro" "Hello" None)
      (boot [] 0)
  = Return (VDict [("status", VStr "ok")]).
Proof.
  pose proof (missing_configuration_is_substituted []) as (K & _ & _ & C).
  split; [exact (K eq_refl) |].
  exact (proj2 (proj2 (C eq_refl (always (Success (Some (VDict [("status", VStr "ok")]))))
                         "lp@fund.example" "Intro" "Hello" 0
                         (VDict [("status", VStr "ok")]) eq_refl))).
Defined.

(** ** [get_leads] *)

(** The whole method by cases on the provider's answer. *)
Lemma get_leads_by_reply up campaign_id status label email first_name last_name
    page limit sort direction w :
  let params := get_leads_params (self w) campaign_id status label email first_name
                  last_name page limit sort direction in
  get_leads up campaign_id status label email first_name last_name page limit
    sort direction w
  = (match next_reply up w GET lead_workspace_leads params with
     | Success (Some data) => consistent_format data page limit
     | Success None => Raise ValueError
     | Status _ | Failure => Return (empty_page page limit)
     end,
     answered up w GET lead_workspace_leads params).
Proof.
  intros params. unfold get_leads, bind at 1, get_self. fold params.
  unfold try_except.
  destruct (next_reply up w GET lead_workspace_leads params) as [body | code |] eqn:E.
  - rewrite (bind_Return _ _ _ _ _ (send_success _ _ _ _ _ _ E)).
    destruct body as [data |]; simpl; [| reflexivity].
    unfold bind, ret, lift.
    destruct (consistent_format data page limit) as [v | e] eqn:F; [reflexivity |].
    replace (is_HTTPError e) with false; [reflexivity |].
    destruct data as [| | | | l | d]; simpl in F; try discriminate.
    destruct (dict_has d "data"); [| destruct (dict_has d "_id"); discriminate].
    unfold dict_getitem in F. destruct (dict_get d "data") as [items |];
      simpl in F; [| now inversion F].
    destruct items; simpl in F; now inversion F.
  - rewrite (bind_Raise _ _ _ (HTTPStatusError code) (answered up w GET lead_workspace_leads params)).
    + reflexivity.
    + apply send_error. now rewrite E.
  - rewrite (bind_Raise _ _ _ RequestError (answered up w GET lead_workspace_leads params)).
    + reflexivity.
    + apply send_error. now rewrite E.
Qed.

(** C2, as stated, fails: a dictionary that has a [data] key is returned
    as the provider sent it, whatever else it lacks. *)
Lemma get_leads_passes_partial_envelope :
  let partial := VDict [("data", VList [])] in
  run (get_leads (always (Success (Some partial))) None None None None None None
         (Some 1) (Some 10) (Some "_id") (Some "asc"))
      (boot [] 0)
  = Return partial /\
  is_LeadsPage partial = false.
Proof. split; reflexivity. Qed.

(** C2, amended: on any failure of the provider [get_leads] returns the
    empty page; a bare list of N items becomes a page of those N items
    with total N; a dictionary with a [data] key whose value has a length
    is returned unchanged, valid or not; a dictionary with [_id] and
    no [data] becomes a one-item page; every other JSON value becomes the
    empty page.  Apart from the dictionary passed through, the result is
    a LeadsPage carrying the requested page and limit. *)
Theorem get_leads_envelope :
  forall (up : upstream)
         (campaign_id status label email first_name last_name : option string)
         (page limit : option Z) (sort direction : option string) (w : state),
    let call := get_leads up campaign_id status label email first_name last_name
                  page limit sort direction in
    let answer := next_reply up w GET lead_workspace_leads
                    (get_leads_params (self w) campaign_id status label email
                       first_name last_name page limit sort direction) in
    let page_of data total :=
      VDict [("data", data); ("total", VInt total);
             ("page", of_opt_int page); ("limit", of_opt_int limit)] in
    (forall e, reply_error answer = Some e ->
               run call w = Return (page_of (VList []) 0)) /\
    (forall items, answer = Success (Some (VList items)) ->
                   run call w = Return (page_of (VList items) (Z.of_nat (length items)))) /\
    (forall d items n, answer = Success (Some (VDict d)) ->
                       dict_get d "data" = Some items -> py_len items = Return n ->
                       run call w = Return (VDict d)) /\
    (forall d, answer = Success (Some (VDict d)) ->
               dict_get d "data" = None -> dict_has d "_id" = true ->
               run call w = Return (page_of (VList [VDict d]) 1)) /\
    (forall d, answer = Success (Some (VDict d)) ->
               dict_get d "data" = None -> dict_has d "_id" = false ->
               run call w = Return (page_of (VList []) 0)) /\
    (forall j, answer = Success (Some j) ->
               match j with VDict _ | VList _ => False | _ => True end ->
               run call w = Return (page_of (VList []) 0)) /\
    (forall p l v, page = Some p -> limit = Some l ->
                   (forall d, answer = Success (Some (VDict d)) -> dict_get d "data" = None) ->
                   run call w = Return v ->
                   is_LeadsPage v = true).
Proof.
  intros up campaign_id status label email first_name last_name page limit sort
    direction w. cbv zeta. unfold run. rewrite get_leads_by_reply. cbv zeta. simpl fst.
  set (answer := next_reply _ _ _ _ _).
  repeat split.
  - intros e H. destruct answer; simpl in H; [discriminate | reflexivity | reflexivity].
  - intros items ->. reflexivity.
  - intros d items n -> Hd Hn. simpl. unfold dict_has, dict_getitem.
    rewrite Hd. simpl. now rewrite Hn.
  - intros d -> Hd Hid. simpl. unfold dict_has in *. rewrite Hd.
    destruct (dict_get d "_id"); [reflexivity | discriminate].
  - intros d -> Hd Hid. simpl. unfold dict_has in *. rewrite Hd.
    destruct (dict_get d "_id"); [discriminate | reflexivity].
  - intros j -> Hj. destruct j; try reflexivity; contradiction.
  - intros p l v -> -> Hd.
    destruct answer as [[data |] | code |]; try discriminate;
      try (intros H; inversion H; reflexivity).
    destruct data as [| | | | items | d]; simpl;
      try (intros H; inversion H; reflexivity).
    specialize (Hd d eq_refl). unfold dict_has. rewrite Hd.
    destruct (dict_get d "_id"); intros H; inversion H; reflexivity.
Qed.

(** A provider that answers with a bare list of two leads, asked for
    page 3 with 25 per page. *)
Lemma get_leads_envelope_witness :
  let leads := [VDict [("_id", VStr "l1")]; VDict [("_id", VStr "l2")]] in
  let call := get_leads (always (Success (Some (VList leads)))) None None None None
                None None (Some 3) (Some 25) (Some "_id") (Some "asc") in
  run call (boot [] 0)
  = Return (VDict [("data", VList leads); ("total", VInt 2);
                   ("page", VInt 3); ("limit", VInt 25)]) /\
  (forall v, run call (boot [] 0) = Return v -> is_LeadsPage v = true) /\
  run (get_leads (always (Status 503)) None None None None None None
         (Some 3) (Some 25) (Some "_id") (Some "asc")) (boot [] 0)
  = Return (VDict [("data", VList []); ("total", VInt 0);
                   ("page", VInt 3); ("limit", VInt 25)]).
Proof.
  cbv zeta.
  pose proof (get_leads_envelope
                (always (Success (Some (VList [VDict [("_id", VStr "l1")];
                                               VDict [("_id", VStr "l2")]]))))
                None None None None None None (Some 3) (Some 25) (Some "_id")
                (Some "asc") (boot [] 0)) as (_ & L & _ & _ & _ & _ & V).
  pose proof (get_leads_envelope (always (Status 503))
                None None None None None None (Some 3) (Some 25) (Some "_id")
                (Some "asc") (boot [] 0)) as (E & _).
  split; [exact (L _ eq_refl) | split].
  - intros v. apply (V 3 25 v eq_refl eq_refl). intros d H. discriminate H.
  - exact (E (HTTPStatusError 503) eq_refl).
Defined.

(** ** [get_emails] and its cache *)

Lemma net_only_fetch_emails up preview_only params :
  net_only (fetch_emails up preview_only params).
Proof.
  unfold fetch_emails. net_only. apply net_only_normalize_email.
Qed.

(** The method is the lookup, then [fetch_emails], then the write. *)
Lemma get_emails_unfold up preview_only lead_email campaign_id email_type label w :
  let key := email_cache_key preview_only lead_email campaign_id email_type label in
  get_emails up preview_only lead_email campaign_id email_type label w =
  if cache_contains key (clock w) (email_cache (self w))
  then email_cache_getitem key w
  else
    match fetch_emails up preview_only
            (get_emails_params (self w) preview_only lead_email campaign_id
               email_type label) w with
    | (Return emails, w') => (Return emails, snd (email_cache_setitem key emails w'))
    | (Raise e, w') => (Raise e, w')
    end.
Proof.
  intros key. unfold get_emails. fold key.
  unfold bind at 1. unfold email_cache_contains at 1.
  destruct (cache_contains key (clock w) (email_cache (self w))); [reflexivity |].
  unfold bind at 1. unfold get_self at 1. rewrite reraise_id.
  unfold fetch_emails, bind.
  destruct (send up GET unibox_emails _ w) as [[response | e] w1]; [| reflexivity].
  destruct (json response w1) as [[data | e] w2]; [| reflexivity].
  destruct (lift (py_get data "data" (VList [])) w2) as [[emails | e] w3]; [| reflexivity].
  destruct (lift (py_iter emails) w3) as [[items | e] w4]; [| reflexivity].
  destruct (for_each (normalize_email up preview_only) items w4) as [[items' | e] w5];
    reflexivity.
Qed.

(** A hit returns. *)
Lemma email_cache_getitem_hit k w :
  cache_contains k (clock w) (email_cache (self w)) = true ->
  exists v, fst (email_cache_getitem k w) = Return v.
Proof.
  intros H. destruct (cache_getitem_contains _ _ _ H) as (v & c' & E).
  unfold email_cache_getitem. rewrite E. now exists v.
Qed.

(** Reading back what was just written, before its time is up. *)
Lemma email_cache_read_back k v w0 d :
  0 <= d < email_ttl ->
  let w1 := advance d (snd (email_cache_setitem k v w0)) in
  cache_contains k (clock w1) (email_cache (self w1)) = true /\
  email_cache_getitem k w1 = (Return v, w1).
Proof.
  intros Hd w1. subst w1. unfold email_cache_setitem, set_email_cache, advance.
  simpl. split.
  - apply cache_contains_setitem. lia.
  - unfold email_cache_getitem. simpl.
    rewrite cache_getitem_setitem by lia. reflexivity.
Qed.

(** A miss that returns has written its result after the last round trip. *)
Lemma get_emails_miss_return up preview_only lead_email campaign_id email_type label w r :
  let call := get_emails up preview_only lead_email campaign_id email_type label in
  let key := email_cache_key preview_only lead_email campaign_id email_type label in
  cache_contains key (clock w) (email_cache (self w)) = false ->
  run call w = Return r ->
  exists w', extends w w' /\ after call w = snd (email_cache_setitem key r w').
Proof.
  intros call key Hmiss. unfold run, after. subst call.
  rewrite get_emails_unfold. fold key. rewrite Hmiss.
  pose proof (net_only_fetch_emails up preview_only
                (get_emails_params (self w) preview_only lead_email campaign_id
                   email_type label) w) as Hext.
  destruct (fetch_emails _ _ _ w) as [[emails | e] w']; simpl in *; [| discriminate].
  intros H. inversion H; subst. now exists w'.
Qed.

(** C9: When the primary request of [get_emails] fails, the failure is
    raised to the caller and the instance, both caches included, is as it
    was.  More generally every raising call leaves the instance as it was,
    and a call that misses and returns has written its result under the
    request's key once, at the clock reading after the last round trip. *)
Theorem get_emails_failure_leaves_cache :
  forall (up : upstream) (preview_only : bool) (lead_email campaign_id : option string)
         (email_type : string) (label : option string) (w : state),
    let call := get_emails up preview_only lead_email campaign_id email_type label in
    let key := email_cache_key preview_only lead_email campaign_id email_type label in
    let params := get_emails_params (self w) preview_only lead_email campaign_id
                    email_type label in
    (forall e, cache_contains key (clock w) (email_cache (self w)) = false ->
               reply_error (next_reply up w GET unibox_emails params) = Some e ->
               run call w = Raise e /\ self (after call w) = self w) /\
    (forall e, run call w = Raise e -> self (after call w) = self w) /\
    (forall r, cache_contains key (clock w) (email_cache (self w)) = false ->
               run call w = Return r ->
               email_cache (self (after call w))
               = cache_setitem email_maxsize email_ttl key r (clock (after call w))
                   (email_cache (self w)) /\
               label_cache (self (after call w)) = label_cache (self w)).
Proof.
  intros up preview_only lead_email campaign_id email_type label w call key params.
  repeat split.
  - subst call. unfold run. rewrite get_emails_unfold. fold key params. rewrite H.
    unfold fetch_emails.
    now rewrite (bind_Raise _ _ _ _ _ (send_error _ _ _ _ _ _ H0)).
  - subst call. unfold after. rewrite get_emails_unfold. fold key params. rewrite H.
    unfold fetch_emails.
    now rewrite (bind_Raise _ _ _ _ _ (send_error _ _ _ _ _ _ H0)).
  - intros e. subst call. unfold run, after. rewrite get_emails_unfold.
    fold key params.
    destruct (cache_contains key (clock w) (email_cache (self w))) eqn:Hit.
    + destruct (email_cache_getitem_hit _ _ Hit) as [v Hv]. congruence.
    + pose proof (net_only_fetch_emails up preview_only params w) as (_ & S & _).
      destruct (fetch_emails up preview_only params w) as [[emails | e'] w'];
        simpl in *; [discriminate | now intros _].
  - subst call.
    destruct (get_emails_miss_return up preview_only lead_email campaign_id
                email_type label w r H H0) as (w' & (_ & S & _) & ->).
    simpl. now rewrite S.
  - subst call.
    destruct (get_emails_miss_return up preview_only lead_email campaign_id
                email_type label w r H H0) as (w' & (_ & S & _) & ->).
    simpl. now rewrite S.
Qed.

(** The first request of a fresh process is refused with a 502. *)
Lemma get_emails_failure_leaves_cache_witness :
  run (get_emails (always (Status 502)) true None None "all" None) (boot [] 0)
  = Raise (HTTPStatusError 502) /\
  email_cache (self (after (get_emails (always (Status 502)) true None None "all" None)
                       (boot [] 0))) = [].
Proof.
  pose proof (get_emails_failure_leaves_cache (always (Status 502)) true None None
                "all" None (boot [] 0)) as (F & _ & _).
  destruct (F (HTTPStatusError 502) eq_refl eq_refl) as (R & S).
  split; [exact R | now rewrite S].
Defined.

(** C5: Two calls of [get_emails] with the same five arguments build the
    same cache key; when the first one went to the provider and
    returned, a second one made less than 300 seconds after that result
    was stored returns the same result and leaves the state, request log
    included, as it found it, whatever the provider would answer now. *)
Theorem get_emails_cached_within_ttl :
  forall (up1 up2 : upstream) (preview_only preview_only' : bool)
         (lead_email lead_email' campaign_id campaign_id' : option string)
         (email_type email_type' : string) (label label' : option string)
         (w : state) (r : value) (d : Z),
    let first := get_emails up1 preview_only lead_email campaign_id email_type label in
    let second := get_emails up2 preview_only' lead_email' campaign_id' email_type'
                    label' in
    let key := email_cache_key preview_only lead_email campaign_id email_type label in
    preview_only' = preview_only -> lead_email' = lead_email ->
    campaign_id' = campaign_id -> email_type' = email_type -> label' = label ->
    cache_contains key (clock w) (email_cache (self w)) = false ->
    run first w = Return r ->
    0 <= d < 300 ->
    let w1 := advance d (after first w) in
    email_cache_key preview_only' lead_email' campaign_id' email_type' label' = key /\
    run second w1 = Return r /\
    after second w1 = w1 /\
    sent (after second w1) = sent (after first w).
Proof.
  intros up1 up2 preview_only preview_only' lead_email lead_email' campaign_id
    campaign_id' email_type email_type' label label' w r d first second key
    -> -> -> -> -> Hmiss Hret Hd w1.
  subst first second key w1.
  split; [reflexivity |].
  destruct (get_emails_miss_return up1 preview_only lead_email campaign_id
              email_type label w r Hmiss Hret) as (w' & _ & Hafter).
  destruct (email_cache_read_back
              (email_cache_key preview_only lead_email campaign_id email_type label)
              r w' d Hd) as (Hin & Hget).
  rewrite <- Hafter in Hin, Hget.
  set (w1 := advance d (after _ w)) in *.
  assert (E : get_emails up2 preview_only lead_email campaign_id email_type label w1
              = (Return r, w1)).
  { rewrite get_emails_unfold. now rewrite Hin. }
  repeat split.
  - unfold run. now rewrite E.
  - unfold after at 1. now rewrite E.
  - unfold after at 1. now rewrite E.
Qed.

(** A preview listing fetched from a fresh process, asked for again four
    minutes later from a provider that is by then unreachable. *)
Lemma get_emails_cached_within_ttl_witness :
  let page := VDict [("data", VList [VDict [("id", VStr "e1"); ("body", VStr "hi")]])] in
  let first := get_emails (always (Success (Some page))) true None None "all" None in
  let second := get_emails (always Failure) true None None "all" None in
  exists r,
    run first (boot [] 0) = Return r /\
    run second (advance 240 (after first (boot [] 0))) = Return r /\
    sent (after second (advance 240 (after first (boot [] 0))))
    = sent (after first (boot [] 0)).
Proof.
  cbv zeta. eexists. split; [reflexivity |].
  pose proof (get_emails_cached_within_ttl
                (always (Success (Some (VDict [("data",
                   VList [VDict [("id", VStr "e1"); ("body", VStr "hi")]])]))))
                (always Failure) true true None None None None "all" "all" None None
                (boot [] 0) _ 240 eq_refl eq_refl eq_refl eq_refl eq_refl eq_refl
                eq_refl ltac:(lia)) as (_ & R & _ & L).
  split; [exact R | exact L].
Defined.

(** ** [get_labels] and its cache *)

Ltac case_step :=
  match goal with
  | |- context [match ?x with _ => _ end] =>
      lazymatch x with
      | context [match _ with _ => _ end] => fail
      | _ => destruct x eqn:?
      end
  end.

(** The method is the lookup, then [resolve_labels], then the write:
    nothing can raise between a tier's result and its write. *)
Lemma get_labels_unfold up w :
  get_labels up w =
  if cache_contains "labels" (clock w) (label_cache (self w))
  then label_cache_getitem "labels" w
  else
    match resolve_labels up (workspace_params (self w)) w with
    | (Return labels, w') => (Return labels, snd (label_cache_setitem "labels" labels w'))
    | (Raise e, w') => (Raise e, w')
    end.
Proof.
  unfold get_labels. unfold bind at 1. unfold label_cache_contains at 1.
  destruct (cache_contains "labels" (clock w) (label_cache (self w))); [reflexivity |].
  unfold bind at 1. unfold get_self at 1.
  set (params := workspace_params (self w)).
  unfold resolve_labels, labels_from_tags, try_except, bind, lift, raise, ret.
  destruct (send up GET unibox_labels params w) as [[response | e] w1].
  - destruct (json response w1) as [[data | e] w2].
    + destruct (py_get data "labels" (VList [])) as [labels | e]; [reflexivity |].
      repeat (case_step; try reflexivity).
    + repeat (case_step; try reflexivity).
  - repeat (case_step; try reflexivity).
Qed.

Lemma net_only_resolve_labels up params : net_only (resolve_labels up params).
Proof.
  unfold resolve_labels. net_only.
  match goal with e : exn |- _ => destruct e; try apply net_only_raise end.
  destruct (_ =? 404); net_only.
Qed.

(** The tiers, by the provider's answers. *)
Lemma resolve_labels_first up params w d :
  next_reply up w GET unibox_labels params = Success (Some (VDict d)) ->
  resolve_labels up params w
  = (Return (dict_get_default d "labels" (VList [])),
     answered up w GET unibox_labels params).
Proof.
  intros H. unfold resolve_labels, try_except.
  now rewrite (bind_Return _ _ _ _ _ (send_success _ _ _ _ _ _ H)).
Qed.

Lemma resolve_labels_other_error up params w e :
  reply_error (next_reply up w GET unibox_labels params) = Some e ->
  e <> HTTPStatusError 404 ->
  resolve_labels up params w
  = (Return default_labels, answered up w GET unibox_labels params).
Proof.
  intros H Hne. unfold resolve_labels, try_except.
  rewrite (bind_Raise _ _ _ _ _ (send_error _ _ _ _ _ _ H)).
  destruct (next_reply up w GET unibox_labels params) as [body | code |];
    simpl in H; inversion H; subst; simpl; [| reflexivity].
  destruct (code =? 404) eqn:E; [| reflexivity].
  apply Z.eqb_eq in E. now subst.
Qed.

Lemma resolve_labels_tags up params w tags ls :
  next_reply up w GET unibox_labels params = Status 404 ->
  next_reply up (answered up w GET unibox_labels params) GET tag_list params
  = Success (Some (VList tags)) ->
  labels_of_tags tags = Return ls ->
  resolve_labels up params w
  = (Return (VList ls),
     answered up (answered up w GET unibox_labels params) GET tag_list params).
Proof.
  intros H1 H2 H3. unfold resolve_labels, try_except.
  rewrite (bind_Raise _ _ _ (HTTPStatusError 404) (answered up w GET unibox_labels params))
    by (apply send_error; now rewrite H1).
  simpl.
  rewrite (bind_Return _ _ _ _ _ (send_success _ _ _ _ _ _ H2)).
  unfold json, bind, ret, lift. simpl. now rewrite H3.
Qed.

Lemma resolve_labels_tags_fail up params w :
  next_reply up w GET unibox_labels params = Status 404 ->
  reply_error (next_reply up (answered up w GET unibox_labels params) GET tag_list params)
  <> None ->
  resolve_labels up params w
  = (Return default_labels,
     answered up (answered up w GET unibox_labels params) GET tag_list params).
Proof.
  intros H1 H2. unfold resolve_labels, try_except.
  rewrite (bind_Raise _ _ _ (HTTPStatusError 404) (answered up w GET unibox_labels params))
    by (apply send_error; now rewrite H1).
  simpl.
  destruct (reply_error (next_reply up (answered up w GET unibox_labels params)
                           GET tag_list params)) as [e |] eqn:E; [| contradiction].
  rewrite (bind_Raise _ _ _ _ _ (send_error _ _ _ _ _ _ E)).
  now rewrite (reply_error_is_HTTPError _ _ E).
Qed.

(** Tags that carry a non-empty string name give one label each. *)
Lemma labels_of_named_tags tags names :
  Forall2 (fun tag n => exists d, tag = VDict d /\
                                  dict_get d "name" = Some (VStr n) /\ n <> "")
          tags names ->
  labels_of_tags tags = Return (map (fun n => VStr (replace_space (upper n))) names).
Proof.
  induction 1 as [| tag n tags names (d & -> & Hn & Hne) _ IH]; [reflexivity |].
  simpl. unfold dict_get_default. rewrite Hn. simpl.
  apply String.eqb_neq in Hne. rewrite Hne. simpl. now rewrite IH.
Qed.

(** C3: On a cache miss, [get_labels] returns the labels of the
    dedicated endpoint when it answers; when that endpoint answers 404,
    the tag names (non-empty ASCII strings) upper-cased with spaces
    turned into underscores; when it fails in any other way, the default
    labels at once, the tag endpoint never being asked; and the default
    labels again when the tag endpoint fails too.  There are ten default
    labels. *)
Theorem get_labels_fallback_chain :
  forall (up : upstream) (w : state),
    cache_contains "labels" (clock w) (label_cache (self w)) = false ->
    let params := workspace_params (self w) in
    let first := next_reply up w GET unibox_labels params in
    let second := next_reply up (answered up w GET unibox_labels params)
                    GET tag_list params in
    (forall d, first = Success (Some (VDict d)) ->
               run (get_labels up) w = Return (dict_get_default d "labels" (VList []))) /\
    (forall tags names,
        first = Status 404 ->
        second = Success (Some (VList tags)) ->
        Forall2 (fun tag n => exists d, tag = VDict d /\
                                        dict_get d "name" = Some (VStr n) /\
                                        n <> "" /\ ascii_text n = true)
                tags names ->
        run (get_labels up) w
        = Return (VList (map (fun n => VStr (replace_space (upper n))) names))) /\
    (forall e, reply_error first = Some e -> e <> HTTPStatusError 404 ->
               run (get_labels up) w = Return default_labels /\
               sent (after (get_labels up) w)
               = sent w ++ [mkRequest GET unibox_labels (headers (self w)) params]) /\
    (first = Status 404 -> reply_error second <> None ->
     run (get_labels up) w = Return default_labels) /\
    (exists l, default_labels = VList l /\ length l = 10%nat).
Proof.
  intros up w Hmiss params first second.
  unfold run, after. rewrite get_labels_unfold, Hmiss. fold params.
  repeat split.
  - intros d H. now rewrite (resolve_labels_first _ _ _ _ H).
  - intros tags names H1 H2 HF.
    assert (HF' : Forall2 (fun tag n => exists d, tag = VDict d /\
                                                  dict_get d "name" = Some (VStr n) /\
                                                  n <> "")
                          tags names).
    { clear - HF.
      induction HF as [| tag n tags names (d & Ht & Hn & Hne & _) _ IH];
        constructor; [now exists d | exact IH]. }
    now rewrite (resolve_labels_tags _ _ _ _ _ H1 H2 (labels_of_named_tags _ _ HF')).
  - now rewrite (resolve_labels_other_error _ _ _ _ H H0).
  - now rewrite (resolve_labels_other_error _ _ _ _ H H0).
  - intros H1 H2. now rewrite (resolve_labels_tags_fail _ _ _ H1 H2).
  - eexists. split; reflexivity.
Qed.

(** The dedicated endpoint answers 404 and the tag list holds the tags
    "Follow Up" and "vip"; then the dedicated endpoint answers 500. *)
Lemma get_labels_fallback_chain_witness :
  let tagged := by_path (fun p => match p with
                                  | unibox_labels => Status 404
                                  | _ => Success (Some (VList [VDict [("name", VStr "Follow Up")];
                                                               VDict [("name", VStr "vip")]]))
                                  end) in
  run (get_labels tagged) (boot [] 0) = Return (VList [VStr "FOLLOW_UP"; VStr "VIP"]) /\
  run (get_labels (always (Status 500))) (boot [] 0) = Return default_labels /\
  length (sent (after (get_labels (always (Status 500))) (boot [] 0))) = 1%nat.
Proof.
  cbv zeta.
  pose proof (get_labels_fallback_chain
                (by_path (fun p => match p with
                                   | unibox_labels => Status 404
                                   | _ => Success (Some (VList [VDict [("name", VStr "Follow Up")];
                                                                VDict [("name", VStr "vip")]]))
                                   end))
                (boot [] 0) eq_refl) as (_ & T & _).
  pose proof (get_labels_fallback_chain (always (Status 500)) (boot [] 0) eq_refl)
    as (_ & _ & O & _).
  split; [| split].
  - apply (T _ ["Follow Up"; "vip"] eq_refl eq_refl).
    repeat constructor; eexists;
      (split; [reflexivity | split; [reflexivity | split; [discriminate | reflexivity]]]).
  - apply (O (HTTPStatusError 500) eq_refl). discriminate.
  - destruct (O (HTTPStatusError 500) eq_refl) as (_ & ->); [discriminate | reflexivity].
Defined.

(** Reading a live key twice gives the same value, and the second read
    changes nothing. *)
Lemma cache_getitem_again k now c v c' :
  cache_getitem k now c = (Return v, c') ->
  cache_getitem k now c' = (Return v, c').
Proof.
  unfold cache_getitem.
  destruct (find_entry k c) as [e |] eqn:F; [| discriminate].
  destruct (now <? e_expires e) eqn:L; [| discriminate].
  intros H. inversion H; subst; clear H.
  assert (K : e_key e = k).
  { apply find_some in F. now apply String.eqb_eq. }
  rewrite (find_entry_fresh k c e K), L. f_equal.
  rewrite forget_app, forget_forget. unfold forget at 2. simpl.
  rewrite K, String.eqb_refl. simpl. now rewrite app_nil_r.
Qed.

Lemma label_cache_read_back k v w0 d :
  0 <= d < label_ttl ->
  let w1 := advance d (snd (label_cache_setitem k v w0)) in
  cache_contains k (clock w1) (label_cache (self w1)) = true /\
  label_cache_getitem k w1 = (Return v, w1).
Proof.
  intros Hd w1. subst w1. unfold label_cache_setitem, set_label_cache, advance.
  simpl. split.
  - apply cache_contains_setitem. lia.
  - unfold label_cache_getitem. simpl.
    rewrite cache_getitem_setitem by lia. reflexivity.
Qed.

Lemma label_cache_stored k v w0 :
  let w1 := snd (label_cache_setitem k v w0) in
  label_cache_getitem k w1 = (Return v, w1).
Proof.
  unfold label_cache_setitem, set_label_cache, label_cache_getitem. simpl.
  rewrite cache_getitem_setitem; [reflexivity |]. unfold label_ttl. lia.
Qed.

Lemma label_cache_getitem_again k w v :
  fst (label_cache_getitem k w) = Return v ->
  let w1 := snd (label_cache_getitem k w) in
  label_cache_getitem k w1 = (Return v, w1).
Proof.
  unfold label_cache_getitem, set_label_cache.
  destruct (cache_getitem k (clock w) (label_cache (self w))) as [r c'] eqn:E.
  simpl. intros ->. now rewrite (cache_getitem_again _ _ _ _ _ E).
Qed.

Lemma get_labels_miss_return up w r :
  cache_contains "labels" (clock w) (label_cache (self w)) = false ->
  run (get_labels up) w = Return r ->
  exists w', fst (resolve_labels up (workspace_params (self w)) w) = Return r /\
             after (get_labels up) w = snd (label_cache_setitem "labels" r w').
Proof.
  intros Hmiss. unfold run, after. rewrite get_labels_unfold, Hmiss.
  destruct (resolve_labels _ _ w) as [[labels | e] w']; simpl; [| discriminate].
  intros H. inversion H; subst. now exists w'.
Qed.

(** With the provider down, every tier fails and the defaults come out. *)
Lemma resolve_labels_down up params w :
  down up -> fst (resolve_labels up params w) = Return default_labels.
Proof.
  intros Hdown.
  destruct (reply_error (next_reply up w GET unibox_labels params)) as [e |] eqn:E;
    [| now apply Hdown in E].
  destruct (next_reply up w GET unibox_labels params) as [body | code |] eqn:N;
    simpl in E; inversion E; subst.
  - destruct (Z.eq_dec code 404) as [-> | Hne].
    + rewrite resolve_labels_tags_fail; [reflexivity | exact N | apply Hdown].
    + rewrite (resolve_labels_other_error up params w (HTTPStatusError code));
        [reflexivity | now rewrite N | congruence].
  - rewrite (resolve_labels_other_error up params w RequestError);
      [reflexivity | now rewrite N | discriminate].
Qed.

(** C10: Whenever [get_labels] returns a list, that list is in the label
    cache under the key ["labels"] when the call returns.  When the call
    went to the provider, every later call made less than 3600 seconds
    after returns the same list and leaves the state, request log
    included, as it found it, whatever the provider would answer by then;
    and when the provider was down during that first call, the list is the
    default one. *)
Theorem get_labels_result_is_cached :
  forall (up1 : upstream) (w : state) (r : value),
    run (get_labels up1) w = Return r ->
    let w1 := after (get_labels up1) w in
    label_cache_getitem "labels" w1 = (Return r, w1) /\
    (cache_contains "labels" (clock w) (label_cache (self w)) = false ->
     (forall (up2 : upstream) (d : Z),
         0 <= d < 3600 ->
         run (get_labels up2) (advance d w1) = Return r /\
         after (get_labels up2) (advance d w1) = advance d w1) /\
     (down up1 -> r = default_labels)).
Proof.
  intros up1 w r Hret w1. subst w1. split.
  - revert Hret. unfold run, after. rewrite get_labels_unfold.
    destruct (cache_contains "labels" (clock w) (label_cache (self w))).
    + apply label_cache_getitem_again.
    + destruct (resolve_labels _ _ w) as [[labels | e] w']; simpl; [| discriminate].
      intros H. inversion H; subst. apply label_cache_stored.
  - intros Hmiss.
    destruct (get_labels_miss_return up1 w r Hmiss Hret) as (w' & Hres & Hafter).
    split.
    + intros up2 d Hd.
      destruct (label_cache_read_back "labels" r w' d Hd) as (Hin & Hget).
      rewrite <- Hafter in Hin, Hget.
      set (w1 := advance d (after _ w)) in *.
      assert (E : get_labels up2 w1 = (Return r, w1)).
      { rewrite get_labels_unfold. now rewrite Hin. }
      unfold run, after at 1. now rewrite E.
    + intros Hdown. rewrite (resolve_labels_down up1 _ w Hdown) in Hres.
      now inversion Hres.
Qed.

(** The provider is unreachable at the first call and healthy half an
    hour later: the defaults are served again and nothing is requested. *)
Lemma get_labels_result_is_cached_witness :
  let healthy := always (Success (Some (VDict [("labels", VList [VStr "HOT"])]))) in
  let w1 := after (get_labels (always Failure)) (boot [] 0) in
  run (get_labels (always Failure)) (boot [] 0) = Return default_labels /\
  run (get_labels healthy) (advance 1800 w1) = Return default_labels /\
  after (get_labels healthy) (advance 1800 w1) = advance 1800 w1.
Proof.
  cbv zeta.
  pose proof (get_labels_result_is_cached (always Failure) (boot [] 0) default_labels
                eq_refl) as (_ & H).
  destruct (H eq_refl) as (Later & _).
  split; [reflexivity |].
  apply (Later (always (Success (Some (VDict [("labels", VList [VStr "HOT"])])))) 1800).
  lia.
Defined.

(** ** Records *)

Lemma dict_get_set_same d k v : dict_get (dict_set d k v) k = Some v.
Proof.
  induction d as [| [k' v'] d IH]; simpl.
  - now rewrite String.eqb_refl.
  - destruct (String.eqb k' k) eqn:E; simpl; now rewrite E.
Qed.

Lemma dict_get_set_other d k v k' :
  String.eqb k k' = false -> dict_get (dict_set d k v) k' = dict_get d k'.
Proof.
  intros Hne. induction d as [| [k0 v0] d IH]; simpl.
  - now rewrite Hne.
  - destruct (String.eqb k0 k) eqn:E; simpl.
    + apply String.eqb_eq in E. subst k0. now rewrite Hne.
    + now rewrite IH.
Qed.

Lemma dict_get_backfill_same d k default :
  dict_get (backfill d k default) k = Some (dict_get_default d k default).
Proof. apply dict_get_set_same. Qed.

Lemma dict_get_backfill_other d k default k' :
  String.eqb k k' = false -> dict_get (backfill d k default) k' = dict_get d k'.
Proof. apply dict_get_set_other. Qed.

Ltac dict_simpl :=
  repeat first
    [ rewrite dict_get_backfill_same
    | rewrite dict_get_set_same
    | rewrite dict_get_backfill_other by reflexivity
    | rewrite dict_get_set_other by reflexivity ].

Lemma required_fields_thread_id email :
  dict_get (required_fields email) "thread_id" = dict_get email "thread_id".
Proof. unfold required_fields. now dict_simpl. Qed.

Lemma required_fields_body email :
  dict_get (required_fields email) "body" = dict_get email "body".
Proof. unfold required_fields. now dict_simpl. Qed.

Lemma other_fields_thread email :
  dict_get (other_fields email) "thread" = dict_get email "thread".
Proof. unfold other_fields. now dict_simpl. Qed.

Lemma other_fields_body email :
  dict_get (other_fields email) "body" = dict_get email "body".
Proof. unfold other_fields. now dict_simpl. Qed.

Lemma wants_thread_required_fields preview_only email :
  wants_thread preview_only (required_fields email)
  = negb preview_only && truthy (dict_get_default email "thread_id" VNone).
Proof.
  unfold wants_thread, dict_get_default. now rewrite required_fields_thread_id.
Qed.

Lemma truthy_get d k :
  truthy (dict_get_default d k VNone) = true ->
  dict_get d k = Some (dict_get_default d k VNone).
Proof.
  unfold dict_get_default. destruct (dict_get d k); [reflexivity | discriminate].
Qed.

(** What the preview branch leaves in a record. *)
Lemma preview_branch_normalizes email :
  let out := other_fields (preview_body (required_fields email)) in
  has_structured_body out = true /\
  dict_get out "thread" = Some (VList []) /\
  (dict_get email "body" = None ->
   dict_get out "body" = Some (body_of (VStr "") (VStr ""))) /\
  (forall s, dict_get email "body" = Some (VStr s) ->
             dict_get out "body" = Some (body_of (VStr s) (VStr s))) /\
  (dict_get email "to_address_json" = None ->
   dict_get out "to_address_json" = Some (VList [])) /\
  (dict_get email "is_unread" = None -> dict_get out "is_unread" = Some (VBool false)).
Proof.
  cbv zeta.
  assert (B : dict_get (other_fields (preview_body (required_fields email))) "body"
              = Some (match structured_body (dict_get_default email "body" VNone) with
                      | Some b => b
                      | None => body_of (VStr "") (VStr "")
                      end)).
  { rewrite other_fields_body. unfold preview_body. dict_simpl.
    unfold dict_get_default. now rewrite required_fields_body. }
  repeat split.
  - unfold has_structured_body. rewrite B.
    destruct (structured_body _) as [b |] eqn:S; [| reflexivity].
    destruct (dict_get_default email "body" VNone); simpl in S; inversion S; reflexivity.
  - rewrite other_fields_thread. unfold preview_body. now dict_simpl.
  - intros H. rewrite B. unfold dict_get_default. now rewrite H.
  - intros s H. rewrite B. unfold dict_get_default. now rewrite H.
  - intros H. unfold other_fields, preview_body, required_fields. dict_simpl.
    unfold dict_get_default at 1. now dict_simpl; rewrite H.
  - intros H. unfold other_fields. dict_simpl. f_equal.
    unfold dict_get_default at 1. unfold preview_body, required_fields, backfill.
    now dict_simpl; rewrite H.
Qed.

(** ** Thread expansion *)

Lemma send_state up w v path data :
  snd (send up v path data w) = answered up w v path data.
Proof.
  unfold send, answered. destruct (up _ _) as [lag r]. now destruct r.
Qed.

(** A thread id httpx cannot put into a URL ends the branch before
    anything is sent. *)
Lemma expand_thread_invalid up email w tid :
  dict_get email "thread_id" = Some tid ->
  thread_url_ok tid = false ->
  expand_thread up email w = (Raise InvalidURL, w).
Proof.
  intros Hget Hbad.
  unfold expand_thread, bind, try_except, get_self, lift, dict_getitem, check_url.
  rewrite Hget, Hbad. reflexivity.
Qed.

(** Past the URL check the branch is the request and what follows it. *)
Lemma expand_thread_valid up email w tid :
  dict_get email "thread_id" = Some tid ->
  thread_url_ok tid = true ->
  expand_thread up email w
  = try_except
      (response <- send up GET (unibox_thread tid) (workspace_params (self w)) ;;
       thread_data <- json response ;;
       thread <- lift (py_get thread_data "data" (VList [])) ;;
       items <- lift (py_iter thread) ;;
       lift (adopt_body (dict_set email "thread" thread) items))
      is_HTTPError
      (fun _ => ret (dict_set email "thread" (VList []))) w.
Proof.
  intros Hget Hok.
  unfold expand_thread, bind at 1, get_self, try_except, dict_getitem.
  rewrite Hget. unfold bind at 1, lift at 1. cbv beta iota.
  unfold bind at 1, check_url. rewrite Hok. reflexivity.
Qed.

(** The full-thread branch makes one request, whatever comes of it. *)
Lemma expand_thread_state up email w tid :
  dict_get email "thread_id" = Some tid ->
  thread_url_ok tid = true ->
  snd (expand_thread up email w)
  = answered up w GET (unibox_thread tid) (workspace_params (self w)).
Proof.
  intros Hget Hok. rewrite (expand_thread_valid _ _ _ _ Hget Hok).
  unfold bind, try_except, lift, json, ret, raise.
  pose proof (send_state up w GET (unibox_thread tid) (workspace_params (self w))) as S.
  destruct (send up GET (unibox_thread tid) _ w) as [[body | e] w1];
    simpl in S; subst w1; repeat (case_step; simpl; try reflexivity).
Qed.



Lemma normalize_email_state up preview_only email w :
  let tid := dict_get_default email "thread_id" VNone in
  snd (normalize_email up preview_only (VDict email) w)
  = if negb preview_only && truthy tid && thread_url_ok tid
    then answered up w GET (unibox_thread tid) (workspace_params (self w))
    else w.
Proof.
  intros tid. unfold normalize_email, bind.
  rewrite wants_thread_required_fields. fold tid.
  destruct (negb preview_only && truthy tid) eqn:W; [| reflexivity].
  apply andb_prop in W as (_ & T). apply truthy_get in T.
  rewrite <- required_fields_thread_id in T. fold tid in T.
  rewrite andb_true_l.
  destruct (thread_url_ok tid) eqn:U.
  - pose proof (expand_thread_state up (required_fields email) w _ T U) as S.
    destruct (expand_thread up (required_fields email) w) as [[d | e] w1];
      simpl in *; exact S.
  - now rewrite (expand_thread_invalid _ _ _ _ T U).
Qed.

(** A record that came through the loop body had a thread id fit for a
    URL, if its thread was asked for at all. *)
Lemma normalize_email_returned up preview_only email w y w1 :
  let tid := dict_get_default email "thread_id" VNone in
  normalize_email up preview_only (VDict email) w = (Return y, w1) ->
  negb preview_only && truthy tid = true ->
  thread_url_ok tid = true.
Proof.
  intros tid H W. destruct (thread_url_ok tid) eqn:U; [reflexivity |].
  exfalso. revert H. unfold normalize_email, bind.
  rewrite wants_thread_required_fields. fold tid. rewrite W.
  apply andb_prop in W as (_ & T). apply truthy_get in T.
  rewrite <- required_fields_thread_id in T. fold tid in T.
  now rewrite (expand_thread_invalid _ _ _ _ T U).
Qed.


Lemma for_each_cons {A B} (body : A -> M B) x rest w :
  for_each body (x :: rest) w
  = match body x w with
    | (Return y, w1) =>
        match for_each body rest w1 with
        | (Return ys, w2) => (Return (y :: ys), w2)
        | (Raise e, w2) => (Raise e, w2)
        end
    | (Raise e, w1) => (Raise e, w1)
    end.
Proof. reflexivity. Qed.






(** ** The body of a record in full mode *)

(** C1: [get_emails] in full mode on a page of two records that carry a
    [thread_id], the first with a plain-string body and the second with
    none.  Whether the thread endpoint answers 500 or answers with a
    thread that holds neither record, the call returns both records; the
    first still has its string body and the second has no body at all. *)
Theorem get_emails_thread_failure_leaves_body :
  let page :=
    VDict [("data",
            VList [VDict [("id", VStr "e1"); ("thread_id", VStr "t1");
                          ("body", VStr "hello")];
                   VDict [("id", VStr "e2"); ("thread_id", VStr "t2")]])] in
  let failing := by_path (fun p => match p with
                                   | unibox_emails => Success (Some page)
                                   | _ => Status 500
                                   end) in
  let unrelated := by_path (fun p => match p with
                                     | unibox_emails => Success (Some page)
                                     | _ => Success (Some (VDict [("data", VList [])]))
                                     end) in
  let leaves_body (up : upstream) :=
    exists first second,
      run (get_emails up false None None "all" None) (boot [] 0)
      = Return (VList [VDict first; VDict second]) /\
      dict_get first "body" = Some (VStr "hello") /\
      has_structured_body first = false /\
      dict_get second "body" = None /\
      has_structured_body second = false in
  leaves_body failing /\ leaves_body unrelated.
Proof.
  cbv zeta. split; (do 2 eexists; split; [reflexivity |]; repeat split).
Qed.

(** ** Queries *)

Lemma dict_get_add_filter_other params k v k' :
  String.eqb k k' = false -> dict_get (add_filter params k v) k' = dict_get params k'.
Proof.
  intros H. unfold add_filter. destruct (given v); [| reflexivity].
  now apply dict_get_set_other.
Qed.

Lemma dict_get_add_number_other params k n k' :
  String.eqb k k' = false -> dict_get (add_number params k n) k' = dict_get params k'.
Proof.
  intros H. unfold add_number. destruct (truthy _); [| reflexivity].
  now apply dict_get_set_other.
Qed.

Lemma filter_sent_add_filter params k o :
  dict_get params k = None -> filter_sent (add_filter params k o) k o.
Proof.
  intros Hnone. unfold filter_sent, add_filter. split.
  - intros s -> Hs. simpl. apply String.eqb_neq in Hs. rewrite Hs. simpl.
    apply dict_get_set_same.
  - intros [-> | ->]; exact Hnone.
Qed.

Lemma str_of_int_parses n :
  option_map Z.of_int (NilZero.int_of_string (str_of_int n)) = Some n.
Proof.
  unfold str_of_int.
  assert (H : NilZero.int_of_string (NilZero.string_of_int (Z.to_int n))
              = Some (Z.to_int n)).
  { destruct n as [| p | p]; [reflexivity | |];
      (apply NilZero.isi; simpl; intros E; inversion E;
       eapply DecimalPos.Unsigned.to_uint_nonnil; eassumption). }
  rewrite H. simpl. f_equal. apply DecimalZ.of_to.
Qed.

Lemma number_sent_add_number params k o :
  dict_get params k = None -> number_sent (add_number params k o) k o.
Proof.
  intros Hnone. unfold number_sent, add_number. split.
  - intros n -> Hn. simpl. apply Z.eqb_neq in Hn. rewrite Hn. simpl.
    eexists. split; [apply dict_get_set_same | apply str_of_int_parses].
  - intros [-> | ->]; exact Hnone.
Qed.

Lemma filter_sent_other data k o k' v :
  String.eqb k' k = false -> filter_sent data k o -> filter_sent (add_filter data k' v) k o.
Proof.
  intros Hne (Hs & Hn). split.
  - intros s E Hs'. rewrite dict_get_add_filter_other by exact Hne. now apply Hs.
  - intros E. rewrite dict_get_add_filter_other by exact Hne. now apply Hn.
Qed.

Lemma filter_sent_other_number data k o k' n :
  String.eqb k' k = false -> filter_sent data k o -> filter_sent (add_number data k' n) k o.
Proof.
  intros Hne (Hs & Hn). split.
  - intros s E Hs'. rewrite dict_get_add_number_other by exact Hne. now apply Hs.
  - intros E. rewrite dict_get_add_number_other by exact Hne. now apply Hn.
Qed.

Lemma number_sent_other data k o k' v :
  String.eqb k' k = false -> number_sent data k o -> number_sent (add_filter data k' v) k o.
Proof.
  intros Hne (Hs & Hn). split.
  - intros n E Hn'. rewrite dict_get_add_filter_other by exact Hne. now apply Hs.
  - intros E. rewrite dict_get_add_filter_other by exact Hne. now apply Hn.
Qed.

Lemma number_sent_other_number data k o k' n :
  String.eqb k' k = false -> number_sent data k o -> number_sent (add_number data k' n) k o.
Proof.
  intros Hne (Hs & Hn). split.
  - intros m E Hn'. rewrite dict_get_add_number_other by exact Hne. now apply Hs.
  - intros E. rewrite dict_get_add_number_other by exact Hne. now apply Hn.
Qed.

Ltac query_simpl :=
  repeat first
    [ rewrite dict_get_add_filter_other by reflexivity
    | rewrite dict_get_add_number_other by reflexivity ].

Ltac sent_as :=
  repeat first
    [ apply filter_sent_add_filter; query_simpl; reflexivity
    | apply number_sent_add_number; query_simpl; reflexivity
    | apply filter_sent_other; [reflexivity |]
    | apply filter_sent_other_number; [reflexivity |]
    | apply number_sent_other; [reflexivity |]
    | apply number_sent_other_number; [reflexivity |] ].

(** A body that starts with a round trip logs that request first. *)
Lemma bind_send_first {B} up v path data (k : option value -> M B) w :
  (forall a, net_only (k a)) ->
  exists rest,
    sent (snd (bind (send up v path data) k w))
    = sent w ++ mkRequest v path (headers (self w)) data :: rest.
Proof.
  intros Hk. unfold bind.
  pose proof (send_logs up w v path data) as L.
  destruct (send up v path data w) as [[response | e] w1]; simpl in L.
  - destruct (Hk response w1) as (_ & _ & _ & rest & R).
    exists rest. rewrite R, L, <- app_assoc. reflexivity.
  - exists []. exact L.
Qed.

(** On a miss the first request of [get_emails] is the listing query. *)
Lemma get_emails_first_request up preview_only lead_email campaign_id email_type label w :
  let key := email_cache_key preview_only lead_email campaign_id email_type label in
  cache_contains key (clock w) (email_cache (self w)) = false ->
  exists rest,
    sent (after (get_emails up preview_only lead_email campaign_id email_type label) w)
    = sent w ++ mkRequest GET unibox_emails (headers (self w))
                  (get_emails_params (self w) preview_only lead_email campaign_id
                     email_type label) :: rest.
Proof.
  intros key Hmiss. unfold after. rewrite get_emails_unfold. fold key. rewrite Hmiss.
  set (params := get_emails_params _ _ _ _ _ _).
  assert (F : exists rest,
             sent (snd (fetch_emails up preview_only params w))
             = sent w ++ mkRequest GET unibox_emails (headers (self w)) params :: rest).
  { unfold fetch_emails. apply bind_send_first. intros response.
    net_only. apply net_only_normalize_email. }
  destruct F as (rest & F). exists rest.
  destruct (fetch_emails up preview_only params w) as [[emails | e] w']; exact F.
Qed.

(** X1: On a cache miss the first request [get_emails] sends is a GET of
    the listing endpoint whose query always holds the workspace id, the
    preview flag as ["true"] or ["false"] and the email type, and holds
    [lead], [campaign_id] and [label] exactly when the corresponding
    argument is given and non-empty; it holds nothing else. *)
Theorem get_emails_query :
  forall (up : upstream) (preview_only : bool) (lead_email campaign_id : option string)
         (email_type : string) (label : option string) (w : state),
    cache_contains (email_cache_key preview_only lead_email campaign_id email_type label)
      (clock w) (email_cache (self w)) = false ->
    exists req rest,
      sent (after (get_emails up preview_only lead_email campaign_id email_type label) w)
      = sent w ++ req :: rest /\
      r_verb req = GET /\ r_path req = unibox_emails /\
      dict_get (r_data req) "workspace_id" = Some (VStr (workspace_id (self w))) /\
      dict_get (r_data req) "preview_only"
      = Some (VStr (if preview_only then "true" else "false")) /\
      dict_get (r_data req) "email_type" = Some (VStr email_type) /\
      filter_sent (r_data req) "lead" lead_email /\
      filter_sent (r_data req) "campaign_id" campaign_id /\
      filter_sent (r_data req) "label" label /\
      incl (map fst (r_data req))
           ["workspace_id"; "preview_only"; "email_type"; "lead"; "campaign_id"; "label"].
Proof.
  intros up preview_only lead_email campaign_id email_type label w Hmiss.
  destruct (get_emails_first_request up preview_only lead_email campaign_id
              email_type label w Hmiss) as (rest & L).
  eexists. exists rest. split; [exact L |]. simpl.
  unfold get_emails_params.
  repeat match goal with |- _ /\ _ => split end;
    query_simpl; try reflexivity; sent_as.
  unfold add_filter.
  destruct (given lead_email), (given campaign_id), (given label); simpl;
    intros k Hk; simpl in *; intuition.
Qed.

(** A listing filtered by campaign, from a fresh process. *)
Lemma get_emails_query_witness :
  exists req rest,
    sent (after (get_emails (always Failure) true None (Some "c-9") "all" (Some "")) (boot [] 0))
    = req :: rest /\
    dict_get (r_data req) "campaign_id" = Some (VStr "c-9") /\
    dict_get (r_data req) "lead" = None /\
    dict_get (r_data req) "label" = None.
Proof.
  destruct (get_emails_query (always Failure) true None (Some "c-9") "all" (Some "")
              (boot [] 0) eq_refl)
    as (req & rest & L & _ & _ & _ & _ & _ & (_ & Ln) & (Cs & _) & (_ & Bn) & _).
  exists req, rest. split; [exact L |]. split; [| split].
  - apply (Cs "c-9" eq_refl). discriminate.
  - apply Ln. now left.
  - apply Bn. now right.
Defined.

(** X2: [get_leads] always sends exactly one request, a GET of the
    workspace-leads endpoint.  Its query holds the workspace id; each of
    the eight string filters exactly when it is given and non-empty; and
    [page] and [limit] in decimal exactly when they are given and not
    zero. *)
Theorem get_leads_query :
  forall (up : upstream)
         (campaign_id status label email first_name last_name : option string)
         (page limit : option Z) (sort direction : option string) (w : state),
    exists req,
      sent (after (get_leads up campaign_id status label email first_name last_name
                     page limit sort direction) w)
      = sent w ++ [req] /\
      r_verb req = GET /\ r_path req = lead_workspace_leads /\
      dict_get (r_data req) "workspace_id" = Some (VStr (workspace_id (self w))) /\
      filter_sent (r_data req) "campaign_id" campaign_id /\
      filter_sent (r_data req) "status" status /\
      filter_sent (r_data req) "label" label /\
      filter_sent (r_data req) "email" email /\
      filter_sent (r_data req) "first_name" first_name /\
      filter_sent (r_data req) "last_name" last_name /\
      number_sent (r_data req) "page" page /\
      number_sent (r_data req) "limit" limit /\
      filter_sent (r_data req) "sort" sort /\
      filter_sent (r_data req) "direction" direction.
Proof.
  intros. unfold after. rewrite get_leads_by_reply. cbv zeta. simpl snd.
  eexists. split; [reflexivity |]. simpl. unfold get_leads_params.
  repeat match goal with |- _ /\ _ => split end;
    query_simpl; try reflexivity; sent_as.
Qed.

(** ** Every request is stamped *)

Lemma stamps_ret {A} hs ws (a : A) : stamps hs ws (ret a).
Proof. intros w Hh Hw. repeat split; auto. exists []. now rewrite app_nil_r. Qed.

Lemma stamps_raise {A} hs ws e : stamps hs ws (@raise A e).
Proof. intros w Hh Hw. repeat split; auto. exists []. now rewrite app_nil_r. Qed.

Lemma stamps_lift {A} hs ws (r : result A) : stamps hs ws (lift r).
Proof. intros w Hh Hw. repeat split; auto. exists []. now rewrite app_nil_r. Qed.

Lemma stamps_json hs ws b : stamps hs ws (json b).
Proof. destruct b; [apply stamps_ret | apply stamps_raise]. Qed.

Lemma stamps_get_environ hs ws : stamps hs ws get_environ.
Proof. intros w Hh Hw. repeat split; auto. exists []. now rewrite app_nil_r. Qed.

Lemma stamps_bind {A B} hs ws (m : M A) (k : A -> M B) :
  stamps hs ws m -> (forall a, stamps hs ws (k a)) -> stamps hs ws (bind m k).
Proof.
  intros Hm Hk w Hh Hw. unfold bind.
  destruct (Hm w Hh Hw) as (Hh1 & Hw1 & r1 & L1 & F1).
  destruct (m w) as [[a | e] w1]; simpl in *.
  - destruct (Hk a w1 Hh1 Hw1) as (Hh2 & Hw2 & r2 & L2 & F2).
    repeat split; auto. exists (r1 ++ r2).
    split; [now rewrite L2, L1, app_assoc | now apply Forall_app].
  - repeat split; auto. now exists r1.
Qed.

(** A body that first reads the instance. *)
Lemma stamps_get_self {B} hs ws (k : PiplAPI -> M B) :
  (forall s, headers s = hs -> workspace_id s = ws -> stamps hs ws (k s)) ->
  stamps hs ws (bind get_self k).
Proof.
  intros Hk w Hh Hw. unfold bind, get_self. now apply Hk.
Qed.

Lemma stamps_try_except {A} hs ws (m : M A) caught handler :
  stamps hs ws m -> (forall e, stamps hs ws (handler e)) ->
  stamps hs ws (try_except m caught handler).
Proof.
  intros Hm Hh' w Hh Hw. unfold try_except.
  destruct (Hm w Hh Hw) as (Hh1 & Hw1 & r1 & L1 & F1).
  destruct (m w) as [[a | e] w1]; simpl in *.
  - repeat split; auto. now exists r1.
  - destruct (caught e).
    + destruct (Hh' e w1 Hh1 Hw1) as (Hh2 & Hw2 & r2 & L2 & F2).
      repeat split; auto. exists (r1 ++ r2).
      split; [now rewrite L2, L1, app_assoc | now apply Forall_app].
    + repeat split; auto. now exists r1.
Qed.

Lemma stamps_for_each {A B} hs ws (body : A -> M B) l :
  (forall a, stamps hs ws (body a)) -> stamps hs ws (for_each body l).
Proof.
  intros Hb. induction l as [| x rest IH]; simpl.
  - apply stamps_ret.
  - apply stamps_bind; [apply Hb |]. intros y.
    apply stamps_bind; [exact IH |]. intros ys. apply stamps_ret.
Qed.

Lemma stamps_send hs ws up v path data :
  dict_get data "workspace_id" = Some (VStr ws) ->
  stamps hs ws (send up v path data).
Proof.
  intros Hd w Hh Hw.
  pose proof (send_state up w v path data) as S. rewrite S. simpl.
  repeat split; auto. eexists. split; [reflexivity |].
  constructor; [| constructor]. split; simpl; auto.
Qed.

(** The cache operations send nothing and keep the instance's identity. *)
Lemma stamps_email_cache_contains hs ws k : stamps hs ws (email_cache_contains k).
Proof. intros w Hh Hw. repeat split; auto. exists []. now rewrite app_nil_r. Qed.

Lemma stamps_label_cache_contains hs ws k : stamps hs ws (label_cache_contains k).
Proof. intros w Hh Hw. repeat split; auto. exists []. now rewrite app_nil_r. Qed.

Lemma stamps_email_cache_getitem hs ws k : stamps hs ws (email_cache_getitem k).
Proof.
  intros w Hh Hw. unfold email_cache_getitem.
  destruct (cache_getitem _ _ _) as [r c]. simpl.
  repeat split; auto. exists []. now rewrite app_nil_r.
Qed.

Lemma stamps_label_cache_getitem hs ws k : stamps hs ws (label_cache_getitem k).
Proof.
  intros w Hh Hw. unfold label_cache_getitem.
  destruct (cache_getitem _ _ _) as [r c]. simpl.
  repeat split; auto. exists []. now rewrite app_nil_r.
Qed.

Lemma stamps_email_cache_setitem hs ws k v : stamps hs ws (email_cache_setitem k v).
Proof. intros w Hh Hw. simpl. repeat split; auto. exists []. now rewrite app_nil_r. Qed.

Lemma stamps_label_cache_setitem hs ws k v : stamps hs ws (label_cache_setitem k v).
Proof. intros w Hh Hw. simpl. repeat split; auto. exists []. now rewrite app_nil_r. Qed.

Create HintDb stamps.
#[local] Hint Resolve stamps_ret stamps_raise stamps_lift stamps_json stamps_get_environ
  stamps_email_cache_contains stamps_label_cache_contains
  stamps_email_cache_getitem stamps_label_cache_getitem
  stamps_email_cache_setitem stamps_label_cache_setitem : stamps.

Ltac stamps :=
  repeat first
    [ apply stamps_get_self; intros ? ? ?
    | apply stamps_bind; [| intros ?]
    | apply stamps_try_except; [| intros ?]
    | apply stamps_for_each; intros ?
    | apply stamps_send; subst; query_simpl; simpl; congruence
    | solve [auto with stamps] ].

Lemma stamps_normalize_email hs ws up preview_only email :
  stamps hs ws (normalize_email up preview_only email).
Proof.
  unfold normalize_email. destruct email; try apply stamps_raise.
  apply stamps_bind; [| intros ?; apply stamps_ret].
  destruct (wants_thread _ _); [| apply stamps_ret].
  unfold expand_thread. stamps.
  unfold check_url. destruct (thread_url_ok _); auto with stamps.
Qed.

Lemma stamps_get_emails hs ws up preview_only lead_email campaign_id email_type label :
  stamps hs ws (get_emails up preview_only lead_email campaign_id email_type label).
Proof.
  unfold get_emails. apply stamps_bind; [auto with stamps |]. intros [|].
  - auto with stamps.
  - unfold get_emails_params. stamps. apply stamps_normalize_email.
Qed.

Lemma stamps_get_labels hs ws up : stamps hs ws (get_labels up).
Proof.
  unfold get_labels. apply stamps_bind; [auto with stamps |]. intros [|].
  - auto with stamps.
  - unfold workspace_params. stamps.
    unfold labels_from_tags.
    match goal with e : exn |- _ => destruct e; try apply stamps_raise end.
    destruct (_ =? 404); stamps.
Qed.

Lemma stamps_all_stamped {A} (m : M A) w :
  stamps (headers (self w)) (workspace_id (self w)) m -> all_stamped m w.
Proof.
  intros H. destruct (H w eq_refl eq_refl) as (_ & _ & reqs & L & F).
  now exists reqs.
Qed.

(** X3: Whatever the provider answers, every request that any operation
    of the gateway sends carries the instance's headers, the API key
    among them, and the instance's workspace id. *)
Theorem every_request_is_stamped :
  forall (up : upstream) (w : state),
    (forall preview_only lead_email campaign_id email_type label,
        all_stamped (get_emails up preview_only lead_email campaign_id email_type label) w) /\
    (forall to subject body reply_to_id,
        all_stamped (send_email up to subject body reply_to_id) w) /\
    all_stamped (get_campaigns up) w /\
    (forall email sequence_id, all_stamped (add_lead_to_sequence up email sequence_id) w) /\
    all_stamped (get_tags up) w /\
    (forall email campaign_id variables,
        all_stamped (update_lead up email campaign_id variables) w) /\
    (forall campaign_id, all_stamped (get_analytics up campaign_id) w) /\
    all_stamped (get_labels up) w /\
    (forall email_id label, all_stamped (update_email_label up email_id label) w) /\
    (forall campaign_id status label email first_name last_name page limit sort direction,
        all_stamped (get_leads up campaign_id status label email first_name last_name
                       page limit sort direction) w).
Proof.
  intros up w.
  repeat match goal with |- _ /\ _ => split end; intros; apply stamps_all_stamped.
  - apply stamps_get_emails.
  - unfold send_email, reply_data, new_lead_data. stamps.
    destruct (given reply_to_id); stamps.
  - unfold get_campaigns, workspace_params. stamps.
  - unfold add_lead_to_sequence. stamps.
  - unfold get_tags, workspace_params. stamps.
  - unfold update_lead. stamps.
  - unfold get_analytics, workspace_params. stamps.
  - apply stamps_get_labels.
  - unfold update_email_label. stamps.
  - unfold get_leads, get_leads_params, workspace_params. stamps.
Qed.

(** ** How many requests a listing costs *)

Lemma for_each_preview_state up items w :
  snd (for_each (normalize_email up true) items w) = w.
Proof.
  revert w. induction items as [| x rest IH]; intros w; [reflexivity |].
  rewrite for_each_cons.
  assert (S : snd (normalize_email up true x w) = w).
  { destruct x; reflexivity. }
  destruct (normalize_email up true x w) as [[y | e] w1]; simpl in S; subst w1;
    [| reflexivity].
  specialize (IH w). destruct (for_each _ rest w) as [[ys | e] w2]; exact IH.
Qed.

Lemma for_each_records_state up preview_only records w out w' :
  for_each (normalize_email up preview_only) (map VDict records) w = (Return out, w') ->
  self w' = self w /\
  sent w' = sent w ++ thread_requests (self w) preview_only records.
Proof.
  revert w out. induction records as [| email records IH]; intros w out.
  - simpl. unfold ret. intros H. inversion H; subst.
    split; [reflexivity | now rewrite app_nil_r].
  - change (map VDict (email :: records)) with (VDict email :: map VDict records).
    rewrite for_each_cons.
    pose proof (normalize_email_state up preview_only email w) as S. cbv zeta in S.
    pose proof (normalize_email_returned up preview_only email w) as R. cbv zeta in R.
    destruct (normalize_email up preview_only (VDict email) w) as [[y | e] w1];
      [| discriminate].
    specialize (R y w1 eq_refl). simpl in S.
    destruct (for_each _ (map VDict records) w1) as [[ys | e] w2] eqn:E;
      [| discriminate].
    intros H. inversion H; subst out w'. clear H.
    destruct (IH w1 ys E) as (Hs & Hl).
    unfold thread_requests in *. simpl filter.
    revert S R. destruct (negb preview_only && truthy _); intros S R.
    + rewrite (R eq_refl) in S. simpl in S. subst w1. simpl in *.
      split; [exact Hs |]. rewrite Hl, <- app_assoc. reflexivity.
    + simpl in S. subst w1. split; [exact Hs | exact Hl].
Qed.

(** [fetch_emails] on a page whose [data] is a list of records. *)
Lemma fetch_emails_records up preview_only params w page records :
  next_reply up w GET unibox_emails params = Success (Some (VDict page)) ->
  dict_get page "data" = Some (VList (map VDict records)) ->
  fetch_emails up preview_only params w
  = match for_each (normalize_email up preview_only) (map VDict records)
            (answered up w GET unibox_emails params) with
    | (Return out, w2) => (Return (VList out), w2)
    | (Raise e, w2) => (Raise e, w2)
    end.
Proof.
  intros Hreply Hdata. unfold fetch_emails.
  rewrite (bind_Return _ _ _ _ _ (send_success _ _ _ _ _ _ Hreply)).
  cbv beta. unfold json. unfold bind at 1, ret at 1. cbv beta iota.
  unfold bind at 1, lift at 1, py_get, dict_get_default. rewrite Hdata. cbv beta iota.
  unfold bind at 1, lift at 1, py_iter. cbv beta iota. unfold bind at 1.
  destruct (for_each _ _ _) as [[out | e] w2]; reflexivity.
Qed.

(** X4: A preview listing that misses the cache costs exactly one
    request, whatever the provider answers.  A full listing that returns
    costs that request and then one thread request for each record with a
    non-empty [thread_id], in the order of the page. *)
Theorem get_emails_request_count :
  forall (up : upstream) (preview_only : bool) (lead_email campaign_id : option string)
         (email_type : string) (label : option string) (w : state),
    let call := get_emails up preview_only lead_email campaign_id email_type label in
    let first := listing_request (self w) preview_only lead_email campaign_id
                   email_type label in
    cache_contains (email_cache_key preview_only lead_email campaign_id email_type label)
      (clock w) (email_cache (self w)) = false ->
    (preview_only = true -> sent (after call w) = sent w ++ [first]) /\
    (forall page records r,
        snd (up (length (sent w)) first) = Success (Some (VDict page)) ->
        dict_get page "data" = Some (VList (map VDict records)) ->
        run call w = Return r ->
        sent (after call w)
        = sent w ++ first :: thread_requests (self w) preview_only records /\
        length (sent (after call w))
        = (length (sent w) + 1
           + length (filter (fun email =>
                               negb preview_only
                               && truthy (dict_get_default email "thread_id" VNone))
                            records))%nat).
Proof.
  intros up preview_only lead_email campaign_id email_type label w call first Hmiss.
  subst call first. unfold run, after, listing_request.
  rewrite get_emails_unfold, Hmiss.
  set (params := get_emails_params _ _ _ _ _ _).
  split.
  - intros ->.
    assert (F : snd (fetch_emails up true params w) = answered up w GET unibox_emails params).
    { unfold fetch_emails, bind at 1.
      pose proof (send_state up w GET unibox_emails params) as S.
      destruct (send up GET unibox_emails params w) as [[response | e] w1];
        simpl in S; subst w1; [| reflexivity].
      unfold bind at 1. destruct (json response _) as [[data | e] w2] eqn:J.
      2:{ destruct response; inversion J; reflexivity. }
      assert (w2 = answered up w GET unibox_emails params)
        by (destruct response; inversion J; reflexivity).
      subst w2. unfold bind at 1, lift at 1.
      destruct (py_get data "data" (VList [])) as [emails | e]; [| reflexivity].
      unfold bind at 1, lift at 1.
      destruct (py_iter emails) as [items | e]; [| reflexivity].
      unfold bind.
      pose proof (for_each_preview_state up items (answered up w GET unibox_emails params)) as P.
      destruct (for_each _ items _) as [[ys | e] w3]; simpl in P; subst w3; reflexivity. }
    destruct (fetch_emails up true params w) as [[emails | e] w']; simpl in F; subst w';
      reflexivity.
  - intros page records r Hreply Hdata.
    rewrite (fetch_emails_records up preview_only params w page records Hreply Hdata).
    destruct (for_each _ _ (answered up w GET unibox_emails params)) as [[out | e] w2] eqn:E;
      [| discriminate].
    destruct (for_each_records_state _ _ _ _ _ _ E) as (_ & L).
    intros _. simpl. rewrite L. simpl. rewrite <- app_assoc. split; [reflexivity |].
    rewrite !length_app. simpl. unfold thread_requests. rewrite length_map. lia.
Qed.

(** A full listing of three conversations, one of them without a thread. *)
Lemma get_emails_request_count_witness :
  let records := [[("id", VStr "e1"); ("thread_id", VStr "t1")];
                  [("id", VStr "e2")];
                  [("id", VStr "e3"); ("thread_id", VStr "t3")]] in
  let up := by_path (fun p => match p with
                              | unibox_emails =>
                                  Success (Some (VDict [("data", VList (map VDict records))]))
                              | _ => Failure
                              end) in
  length (sent (after (get_emails up false None None "all" None) (boot [] 0))) = 3%nat /\
  length (sent (after (get_emails up true None None "all" None) (boot [] 0))) = 1%nat.
Proof.
  cbv zeta. set (up := by_path _).
  pose proof (get_emails_request_count up false None None "all" None (boot [] 0) eq_refl)
    as (_ & Full).
  pose proof (get_emails_request_count up true None None "all" None (boot [] 0) eq_refl)
    as (Preview & _).
  split.
  - destruct (Full _ [[("id", VStr "e1"); ("thread_id", VStr "t1")];
                      [("id", VStr "e2")];
                      [("id", VStr "e3"); ("thread_id", VStr "t3")]]
                _ eq_refl eq_refl eq_refl) as (_ & ->). reflexivity.
  - rewrite (Preview eq_refl). reflexivity.
Defined.

(** ** Expiry and invalidation *)

(** Once its time is up a stored entry is no longer found. *)
Lemma cache_contains_setitem_expired maxsize ttl k v now c later :
  now + ttl <= later ->
  cache_contains k later (cache_setitem maxsize ttl k v now c) = false.
Proof.
  intros H. destruct (cache_setitem_shape maxsize ttl k v now c) as [older ->].
  unfold cache_contains. rewrite find_entry_fresh by reflexivity.
  simpl. now apply Z.ltb_ge.
Qed.

(** Handlers that only use the network keep the first request first. *)
Lemma try_except_first {A} (m : M A) caught handler w req :
  (exists rest, sent (snd (m w)) = sent w ++ req :: rest) ->
  (forall e, net_only (handler e)) ->
  exists rest, sent (snd (try_except m caught handler w)) = sent w ++ req :: rest.
Proof.
  intros (rest & L) Hh. unfold try_except.
  destruct (m w) as [[a | e] w1]; simpl in L; [now exists rest |].
  destruct (caught e); [| now exists rest].
  destruct (Hh e w1) as (_ & _ & _ & more & R).
  exists (rest ++ more). rewrite R, L, <- app_assoc. reflexivity.
Qed.

(** On a miss the first request of [get_labels] asks the dedicated endpoint. *)
Lemma get_labels_first_request up w :
  cache_contains "labels" (clock w) (label_cache (self w)) = false ->
  exists rest,
    sent (after (get_labels up) w)
    = sent w ++ mkRequest GET unibox_labels (headers (self w))
                  (workspace_params (self w)) :: rest.
Proof.
  intros Hmiss. unfold after. rewrite get_labels_unfold, Hmiss.
  set (params := workspace_params (self w)).
  assert (F : exists rest,
             sent (snd (resolve_labels up params w))
             = sent w ++ mkRequest GET unibox_labels (headers (self w)) params :: rest).
  { unfold resolve_labels.
    apply try_except_first; [| intros e; apply net_only_ret].
    apply try_except_first.
    - apply bind_send_first. intros a. net_only.
    - intros e. destruct e; try apply net_only_raise.
      destruct (_ =? 404); net_only. }
  destruct F as (rest & F). exists rest.
  destruct (resolve_labels up params w) as [[labels | e] w']; exact F.
Qed.

(** X5: Once 300 seconds have passed since [get_emails] stored a
    listing, the same query is a miss again and goes back to the
    provider with its listing request. *)
Theorem get_emails_expires :
  forall (up1 up2 : upstream) (preview_only : bool)
         (lead_email campaign_id : option string) (email_type : string)
         (label : option string) (w : state) (r : value) (d : Z),
    let first := get_emails up1 preview_only lead_email campaign_id email_type label in
    let second := get_emails up2 preview_only lead_email campaign_id email_type label in
    let key := email_cache_key preview_only lead_email campaign_id email_type label in
    cache_contains key (clock w) (email_cache (self w)) = false ->
    run first w = Return r ->
    300 <= d ->
    let w1 := advance d (after first w) in
    cache_contains key (clock w1) (email_cache (self w1)) = false /\
    exists rest,
      sent (after second w1)
      = sent w1 ++ listing_request (self w1) preview_only lead_email campaign_id
                     email_type label :: rest.
Proof.
  intros up1 up2 preview_only lead_email campaign_id email_type label w r d
    first second key Hmiss Hret Hd w1.
  assert (Hexp : cache_contains key (clock w1) (email_cache (self w1)) = false).
  { subst w1 first key.
    destruct (get_emails_miss_return up1 preview_only lead_email campaign_id
                email_type label w r Hmiss Hret) as (w' & _ & ->).
    simpl. apply cache_contains_setitem_expired. unfold email_ttl. lia. }
  split; [exact Hexp |].
  apply (get_emails_first_request up2 preview_only lead_email campaign_id email_type
           label w1 Hexp).
Qed.

(** The same preview listing asked for again five minutes later. *)
Lemma get_emails_expires_witness :
  let up := always (Success (Some (VDict [("data", VList [])]))) in
  let first := get_emails up true None None "all" None in
  exists rest,
    sent (after first (advance 300 (after first (boot [] 0))))
    = sent (after first (boot [] 0)) ++ rest /\ rest <> [].
Proof.
  cbv zeta.
  destruct (get_emails_expires (always (Success (Some (VDict [("data", VList [])]))))
              (always (Success (Some (VDict [("data", VList [])]))))
              true None None "all" None (boot [] 0) (VList []) 300
              eq_refl eq_refl ltac:(lia)) as (_ & rest & L).
  eexists. split; [exact L | discriminate].
Defined.

(** X6: Once 3600 seconds have passed since [get_labels] stored a list,
    the next call is a miss again and asks the dedicated labels endpoint
    first. *)
Theorem get_labels_expires :
  forall (up1 up2 : upstream) (w : state) (r : value) (d : Z),
    cache_contains "labels" (clock w) (label_cache (self w)) = false ->
    run (get_labels up1) w = Return r ->
    3600 <= d ->
    let w1 := advance d (after (get_labels up1) w) in
    cache_contains "labels" (clock w1) (label_cache (self w1)) = false /\
    exists rest,
      sent (after (get_labels up2) w1)
      = sent w1 ++ mkRequest GET unibox_labels (headers (self w1))
                     (workspace_params (self w1)) :: rest.
Proof.
  intros up1 up2 w r d Hmiss Hret Hd w1.
  assert (Hexp : cache_contains "labels" (clock w1) (label_cache (self w1)) = false).
  { subst w1.
    destruct (get_labels_miss_return up1 w r Hmiss Hret) as (w' & _ & ->).
    simpl. apply cache_contains_setitem_expired. unfold label_ttl. lia. }
  split; [exact Hexp |].
  apply (get_labels_first_request up2 w1 Hexp).
Qed.

(** Default labels served while the provider was down are dropped an hour
    later, and the provider is asked again. *)
Lemma get_labels_expires_witness :
  let healthy := always (Success (Some (VDict [("labels", VList [VStr "HOT"])]))) in
  let w1 := advance 3600 (after (get_labels (always Failure)) (boot [] 0)) in
  run (get_labels healthy) w1 = Return (VList [VStr "HOT"]) /\
  exists rest, sent (after (get_labels healthy) w1) = sent w1 ++ rest /\ rest <> [].
Proof.
  cbv zeta. split; [reflexivity |].
  destruct (get_labels_expires (always Failure)
              (always (Success (Some (VDict [("labels", VList [VStr "HOT"])]))))
              (boot [] 0) default_labels 3600 eq_refl eq_refl ltac:(lia))
    as (_ & rest & L).
  eexists. split; [exact L | discriminate].
Defined.

(** X7: [invalidate_email_cache] empties the email cache, leaves the
    label cache alone and sends nothing; the next [get_emails], whatever
    its arguments, goes to the provider.  [invalidate_label_cache] does
    the same for labels. *)
Theorem invalidation_forces_refetch :
  forall (up : upstream) (w : state),
    let we := after invalidate_email_cache w in
    let wl := after invalidate_label_cache w in
    (email_cache (self we) = [] /\
     label_cache (self we) = label_cache (self w) /\
     sent we = sent w /\ clock we = clock w /\
     forall preview_only lead_email campaign_id email_type label,
     exists rest,
       sent (after (get_emails up preview_only lead_email campaign_id email_type label) we)
       = sent w ++ listing_request (self we) preview_only lead_email campaign_id
                     email_type label :: rest) /\
    (label_cache (self wl) = [] /\
     email_cache (self wl) = email_cache (self w) /\
     sent wl = sent w /\ clock wl = clock w /\
     exists rest,
       sent (after (get_labels up) wl)
       = sent w ++ mkRequest GET unibox_labels (headers (self wl))
                     (workspace_params (self wl)) :: rest).
Proof.
  intros up w we wl. split.
  - repeat match goal with |- _ /\ _ => split end; try reflexivity.
    intros preview_only lead_email campaign_id email_type label.
    apply (get_emails_first_request up preview_only lead_email campaign_id email_type
             label we). reflexivity.
  - repeat match goal with |- _ /\ _ => split end; try reflexivity.
    apply (get_labels_first_request up wl). reflexivity.
Qed.

(** ** The caches stay in good order *)

Lemma NoDup_map_filter {A B} (f : A -> B) (p : A -> bool) l :
  NoDup (map f l) -> NoDup (map f (filter p l)).
Proof.
  induction l as [| x l IH]; simpl; [auto |].
  intros H. inversion H as [| ? ? Hx Hl]; subst.
  destruct (p x); simpl; [| auto].
  constructor; [| auto].
  intros Hin. apply Hx. apply in_map_iff in Hin as (y & E & Hy).
  apply filter_In in Hy as (Hy & _). apply in_map_iff. eauto.
Qed.

Lemma NoDup_map_skipn {A B} (f : A -> B) n l :
  NoDup (map f l) -> NoDup (map f (skipn n l)).
Proof.
  revert l. induction n as [| n IH]; intros l H; [exact H |].
  destruct l as [| x l]; simpl; [constructor |].
  inversion H; subst. auto.
Qed.

Lemma forget_not_in k c : ~ In k (map e_key (forget k c)).
Proof.
  intros Hin. apply in_map_iff in Hin as (e & E & He).
  apply filter_In in He as (_ & Hne). rewrite E, String.eqb_refl in Hne. discriminate.
Qed.

Lemma length_forget_le k c : (length (forget k c) <= length c)%nat.
Proof. apply filter_length_le. Qed.

Lemma length_forget_lt k c e :
  find_entry k c = Some e -> (length (forget k c) < length c)%nat.
Proof.
  unfold find_entry, forget. induction c as [| x c IH]; simpl; [discriminate |].
  destruct (String.eqb (e_key x) k) eqn:E; simpl.
  - intros _. pose proof (filter_length_le (fun e0 => negb (String.eqb (e_key e0) k)) c). lia.
  - intros H. specialize (IH H). lia.
Qed.

Lemma find_entry_key k c e : find_entry k c = Some e -> e_key e = k.
Proof. intros F. apply find_some in F. now apply String.eqb_eq. Qed.

Lemma NoDup_keys_recent k c e :
  NoDup (map e_key c) -> e_key e = k -> NoDup (map e_key (forget k c ++ [e])).
Proof.
  intros Hnd Hk. rewrite map_app. simpl.
  apply NoDup_app_remove_l with (l := []). simpl.
  rewrite <- app_nil_r. apply NoDup_app.
  - apply NoDup_app.
    + now apply NoDup_map_filter.
    + constructor; [intros [] | constructor].
    + intros x Hx [<- | []]. rewrite Hk in Hx. now apply forget_not_in in Hx.
  - constructor.
  - intros x _ [].
Qed.

Lemma cache_ok_setitem maxsize ttl k v now c :
  (1 <= maxsize)%nat ->
  cache_ok maxsize c -> cache_ok maxsize (cache_setitem maxsize ttl k v now c).
Proof.
  intros Hm (Hnd & Hlen). unfold cache_setitem.
  set (live := expire now c).
  assert (Hlive : NoDup (map e_key live)) by now apply NoDup_map_filter.
  assert (Hll : (length live <= length c)%nat) by apply filter_length_le.
  split.
  - apply NoDup_keys_recent; [| reflexivity].
    destruct (find_entry k live); [exact Hlive | now apply NoDup_map_skipn].
  - rewrite length_app. simpl.
    destruct (find_entry k live) as [e |] eqn:F.
    + pose proof (length_forget_lt k live e F). lia.
    + pose proof (length_forget_le k (skipn (length live + 1 - maxsize) live)).
      rewrite length_skipn in H. lia.
Qed.

Lemma cache_ok_getitem maxsize k now c :
  cache_ok maxsize c -> cache_ok maxsize (snd (cache_getitem k now c)).
Proof.
  intros (Hnd & Hlen). unfold cache_getitem.
  destruct (find_entry k c) as [e |] eqn:F; [| now split].
  assert (O : cache_ok maxsize (forget k c ++ [e])).
  { split.
    - apply NoDup_keys_recent; [exact Hnd | now apply find_entry_key in F].
    - rewrite length_app. simpl. pose proof (length_forget_lt k c e F). lia. }
  now destruct (now <? e_expires e).
Qed.

Lemma net_only_round_trip up v path data handler :
  (forall e, net_only (handler e)) -> net_only (round_trip up v path data handler).
Proof. intros H. unfold round_trip. net_only; apply H. Qed.

Lemma caches_ok_extends w w' : extends w w' -> caches_ok w -> caches_ok w'.
Proof. intros (_ & S & _) H. unfold caches_ok. now rewrite S. Qed.

Lemma caches_ok_get_emails up preview_only lead_email campaign_id email_type label w :
  caches_ok w ->
  caches_ok (after (get_emails up preview_only lead_email campaign_id email_type label) w).
Proof.
  intros (He & Hl). unfold after. rewrite get_emails_unfold.
  destruct (cache_contains _ _ _).
  - unfold email_cache_getitem.
    pose proof (cache_ok_getitem email_maxsize
                  (email_cache_key preview_only lead_email campaign_id email_type label)
                  (clock w) (email_cache (self w)) He) as G.
    destruct (cache_getitem _ _ _) as [r c]. simpl in *. now split.
  - pose proof (net_only_fetch_emails up preview_only
                  (get_emails_params (self w) preview_only lead_email campaign_id
                     email_type label) w) as (_ & S & _).
    destruct (fetch_emails _ _ _ w) as [[emails | e] w']; simpl in *.
    + unfold caches_ok. simpl. rewrite S. split; [| exact Hl].
      apply cache_ok_setitem; [unfold email_maxsize; lia | exact He].
    + unfold caches_ok. now rewrite S.
Qed.

Lemma caches_ok_get_labels up w : caches_ok w -> caches_ok (after (get_labels up) w).
Proof.
  intros (He & Hl). unfold after. rewrite get_labels_unfold.
  destruct (cache_contains _ _ _).
  - unfold label_cache_getitem.
    pose proof (cache_ok_getitem label_maxsize "labels" (clock w)
                  (label_cache (self w)) Hl) as G.
    destruct (cache_getitem _ _ _) as [r c]. simpl in *. now split.
  - pose proof (net_only_resolve_labels up (workspace_params (self w)) w) as (_ & S & _).
    destruct (resolve_labels _ _ w) as [[labels | e] w']; simpl in *.
    + unfold caches_ok. simpl. rewrite S. split; [exact He |].
      apply cache_ok_setitem; [unfold label_maxsize; lia | exact Hl].
    + unfold caches_ok. now rewrite S.
Qed.

(** X8: Neither cache ever holds a key twice or more than a hundred
    entries: this is so when the process starts, and every operation of
    the gateway keeps it so, whatever the provider answers. *)
Theorem caches_stay_in_order :
  forall (up : upstream) (w : state),
    caches_ok w ->
    (forall preview_only lead_email campaign_id email_type label,
        caches_ok (after (get_emails up preview_only lead_email campaign_id
                            email_type label) w)) /\
    caches_ok (after (get_labels up) w) /\
    caches_ok (after invalidate_email_cache w) /\
    caches_ok (after invalidate_label_cache w) /\
    (forall to subject body reply_to_id,
        caches_ok (after (send_email up to subject body reply_to_id) w)) /\
    caches_ok (after (get_campaigns up) w) /\
    (forall email sequence_id,
        caches_ok (after (add_lead_to_sequence up email sequence_id) w)) /\
    caches_ok (after (get_tags up) w) /\
    (forall email campaign_id variables,
        caches_ok (after (update_lead up email campaign_id variables) w)) /\
    (forall campaign_id, caches_ok (after (get_analytics up campaign_id) w)) /\
    (forall email_id label,
        caches_ok (after (update_email_label up email_id label) w)) /\
    (forall campaign_id status label email first_name last_name page limit sort direction,
        caches_ok (after (get_leads up campaign_id status label email first_name
                            last_name page limit sort direction) w)) /\
    (forall env now, caches_ok (boot env now)).
Proof.
  intros up w Hok.
  assert (R : forall v path data handler,
             (forall e, net_only (handler e)) ->
             caches_ok (snd (round_trip up v path data handler w))).
  { intros. eapply caches_ok_extends; [now apply net_only_round_trip | exact Hok]. }
  repeat match goal with |- _ /\ _ => split end; intros; unfold after.
  - now apply caches_ok_get_emails.
  - now apply caches_ok_get_labels.
  - destruct Hok as (_ & Hl). split; [| exact Hl]. split; [constructor | simpl; lia].
  - destruct Hok as (He & _). split; [exact He |]. split; [constructor | simpl; lia].
  - rewrite send_email_round_trip.
    destruct (given reply_to_id); apply R; intros; apply net_only_raise.
  - rewrite get_campaigns_round_trip. apply R. intros; apply net_only_ret.
  - rewrite add_lead_to_sequence_round_trip. apply R. intros; apply net_only_raise.
  - rewrite get_tags_round_trip. apply R. intros; apply net_only_ret.
  - rewrite update_lead_round_trip. apply R. intros; apply net_only_raise.
  - rewrite get_analytics_round_trip. apply R. intros; apply net_only_ret.
  - rewrite update_email_label_round_trip. apply R. intros; apply net_only_raise.
  - rewrite get_leads_by_reply. exact Hok.
  - split; (split; [constructor | simpl; lia]).
Qed.

(** Two listings and the labels, fetched by a fresh process. *)
Lemma caches_stay_in_order_witness :
  let up := always (Success (Some (VDict [("data", VList [])]))) in
  let w1 := after (get_emails up true None None "all" None) (boot [] 0) in
  caches_ok (after (get_labels up) (after (get_emails up false None None "all" None) w1)).
Proof.
  cbv zeta.
  set (up := always (Success (Some (VDict [("data", VList [])])))).
  pose proof (caches_stay_in_order up (boot [] 0)) as H0.
  assert (B : caches_ok (boot [] 0)) by (split; (split; [constructor | simpl; lia])).
  destruct (H0 B) as (E0 & _).
  pose proof (E0 true None None "all" None) as O1.
  destruct (caches_stay_in_order up _ O1) as (E1 & _).
  pose proof (E1 false None None "all" None) as O2.
  destruct (caches_stay_in_order up _ O2) as (_ & L2 & _).
  exact L2.
Defined.

(** ** What a lookup finds *)

Lemma cache_contains_peek k now c :
  cache_contains k now c = match cache_peek k now c with Some _ => true | None => false end.
Proof.
  unfold cache_contains, cache_peek. destruct (find_entry k c); [| reflexivity].
  now destruct (now <? e_expires e).
Qed.

Lemma cache_getitem_peek k now c v :
  cache_peek k now c = Some v -> fst (cache_getitem k now c) = Return v.
Proof.
  unfold cache_peek, cache_getitem. destruct (find_entry k c) as [e |]; [| discriminate].
  destruct (now <? e_expires e); [| discriminate]. now intros [= <-].
Qed.

Lemma cache_peek_setitem maxsize ttl k v now c later :
  later < now + ttl -> cache_peek k later (cache_setitem maxsize ttl k v now c) = Some v.
Proof.
  intros H. destruct (cache_setitem_shape maxsize ttl k v now c) as [older ->].
  unfold cache_peek. rewrite find_entry_fresh by reflexivity. simpl.
  apply Z.ltb_lt in H. now rewrite H.
Qed.

Lemma find_entry_forget_other k k' c :
  String.eqb k k' = false -> find_entry k' (forget k c) = find_entry k' c.
Proof.
  intros Hne. unfold find_entry, forget. induction c as [| e c IH]; simpl; [reflexivity |].
  destruct (String.eqb (e_key e) k) eqn:E; simpl.
  - apply String.eqb_eq in E. rewrite E, Hne. exact IH.
  - destruct (String.eqb (e_key e) k'); [reflexivity | exact IH].
Qed.

Lemma find_entry_not_in k c : ~ In k (map e_key c) -> find_entry k c = None.
Proof.
  intros Hn. unfold find_entry. destruct (find _ c) as [e |] eqn:F; [| reflexivity].
  apply find_some in F as (Hin & E). apply String.eqb_eq in E.
  exfalso. apply Hn. apply in_map_iff. eauto.
Qed.

Lemma find_entry_expire k now c :
  NoDup (map e_key c) ->
  find_entry k (expire now c)
  = match find_entry k c with
    | Some e => if now <? e_expires e then Some e else None
    | None => None
    end.
Proof.
  unfold find_entry, expire. induction c as [| x c IH]; simpl; [reflexivity |].
  intros H. inversion H as [| ? ? Hx Hc]; subst.
  destruct (String.eqb (e_key x) k) eqn:E.
  - destruct (now <? e_expires x) eqn:L; simpl; [now rewrite E |].
    apply String.eqb_eq in E. subst k.
    apply (find_entry_not_in (e_key x)).
    intros Hin. apply Hx. apply in_map_iff in Hin as (y & Ey & Hy).
    apply filter_In in Hy as (Hy & _). apply in_map_iff. eauto.
  - destruct (now <? e_expires x); simpl; [rewrite E |]; now apply IH.
Qed.

Lemma find_entry_app_other k' c e :
  String.eqb (e_key e) k' = false -> find_entry k' (c ++ [e]) = find_entry k' c.
Proof.
  intros Hne. unfold find_entry. induction c as [| x c IH]; simpl.
  - now rewrite Hne.
  - destruct (String.eqb (e_key x) k'); [reflexivity | exact IH].
Qed.

(** Writing one key leaves what a lookup of another key finds, as long
    as nothing has to be evicted. *)
Lemma cache_peek_setitem_other maxsize ttl k v now c k' later :
  NoDup (map e_key c) -> (length c < maxsize)%nat ->
  String.eqb k k' = false -> now <= later ->
  cache_peek k' later (cache_setitem maxsize ttl k v now c) = cache_peek k' later c.
Proof.
  intros Hnd Hlen Hne Hlater. unfold cache_setitem.
  set (live := expire now c).
  assert (Hroom : (length live + 1 - maxsize = 0)%nat).
  { pose proof (filter_length_le (fun e => now <? e_expires e) c). unfold live, expire. lia. }
  rewrite Hroom. simpl skipn.
  replace (match find_entry k live with Some _ => live | None => live end) with live
    by now destruct (find_entry k live).
  unfold cache_peek.
  rewrite find_entry_app_other by exact Hne.
  rewrite find_entry_forget_other by exact Hne.
  unfold live. rewrite find_entry_expire by exact Hnd.
  destruct (find_entry k' c) as [e |]; [| reflexivity].
  destruct (now <? e_expires e) eqn:L; [reflexivity |].
  apply Z.ltb_ge in L. replace (later <? e_expires e) with false; [reflexivity |].
  symmetry. apply Z.ltb_ge. lia.
Qed.

(** A listing that a lookup would find is what [get_emails] returns,
    without a request and without the clock moving. *)
Lemma get_emails_hit up preview_only lead_email campaign_id email_type label w v :
  cache_peek (email_cache_key preview_only lead_email campaign_id email_type label)
    (clock w) (email_cache (self w)) = Some v ->
  let call := get_emails up preview_only lead_email campaign_id email_type label in
  run call w = Return v /\ sent (after call w) = sent w /\ clock (after call w) = clock w.
Proof.
  intros Hpeek call. subst call. unfold run, after. rewrite get_emails_unfold.
  rewrite cache_contains_peek, Hpeek.
  unfold email_cache_getitem.
  pose proof (cache_getitem_peek _ _ _ _ Hpeek) as G.
  destruct (cache_getitem _ _ _) as [r c]. simpl in *. now subst r.
Qed.

(** What a miss that returns leaves in the email cache. *)
Lemma get_emails_miss_cache up preview_only lead_email campaign_id email_type label w r :
  let call := get_emails up preview_only lead_email campaign_id email_type label in
  let key := email_cache_key preview_only lead_email campaign_id email_type label in
  cache_contains key (clock w) (email_cache (self w)) = false ->
  run call w = Return r ->
  email_cache (self (after call w))
  = cache_setitem email_maxsize email_ttl key r (clock (after call w))
      (email_cache (self w)) /\
  clock w <= clock (after call w).
Proof.
  intros call key Hmiss Hret. subst call.
  destruct (get_emails_miss_return up preview_only lead_email campaign_id
              email_type label w r Hmiss Hret) as (w' & (_ & S & C & _) & ->).
  simpl. rewrite S. now split.
Qed.

(** X9: A listing cached under one key is not disturbed by a later query
    with another key, as long as the cache has room: when the cache holds
    no key twice and fewer than a hundred entries, and a query that
    misses has been fetched and stored, a listing that was still to be
    found under a different key is then returned by [get_emails] without
    a request. *)
Theorem other_queries_stay_cached :
  forall (up1 up2 : upstream) (preview_only preview_only0 : bool)
         (lead_email lead_email0 campaign_id campaign_id0 : option string)
         (email_type email_type0 : string) (label label0 : option string)
         (w : state) (r r0 : value) (d : Z),
    let fetched := get_emails up1 preview_only lead_email campaign_id email_type label in
    let earlier := get_emails up2 preview_only0 lead_email0 campaign_id0 email_type0
                     label0 in
    let key := email_cache_key preview_only lead_email campaign_id email_type label in
    let key0 := email_cache_key preview_only0 lead_email0 campaign_id0 email_type0
                  label0 in
    NoDup (map e_key (email_cache (self w))) ->
    (length (email_cache (self w)) < 100)%nat ->
    key0 <> key ->
    cache_contains key (clock w) (email_cache (self w)) = false ->
    run fetched w = Return r ->
    0 <= d ->
    let w1 := advance d (after fetched w) in
    cache_peek key0 (clock w1) (email_cache (self w)) = Some r0 ->
    run earlier w1 = Return r0 /\ sent (after earlier w1) = sent w1.
Proof.
  intros up1 up2 preview_only preview_only0 lead_email lead_email0 campaign_id
    campaign_id0 email_type email_type0 label label0 w r r0 d fetched earlier key key0
    Hnd Hlen Hne Hmiss Hret Hd w1 Hpeek.
  destruct (get_emails_miss_cache up1 preview_only lead_email campaign_id email_type
              label w r Hmiss Hret) as (Hcache & Hclock).
  fold fetched key in Hcache, Hclock.
  assert (P : cache_peek key0 (clock w1) (email_cache (self w1)) = Some r0).
  { subst w1. simpl. rewrite Hcache.
    rewrite cache_peek_setitem_other; [exact Hpeek | exact Hnd | exact Hlen | | lia].
    apply String.eqb_neq. congruence. }
  destruct (get_emails_hit up2 preview_only0 lead_email0 campaign_id0 email_type0
              label0 w1 r0 P) as (R & S & _).
  now split.
Qed.

(** A preview listing is cached, then a full listing is fetched; two
    minutes later the preview listing is still served from the cache. *)
Lemma other_queries_stay_cached_witness :
  let up := always (Success (Some (VDict [("data", VList [])]))) in
  let w0 := after (get_emails up true None None "all" None) (boot [] 0) in
  let w1 := advance 120 (after (get_emails up false None None "all" None) w0) in
  run (get_emails (always Failure) true None None "all" None) w1 = Return (VList []) /\
  sent (after (get_emails (always Failure) true None None "all" None) w1) = sent w1.
Proof.
  cbv zeta.
  set (up := always (Success (Some (VDict [("data", VList [])])))).
  apply (other_queries_stay_cached up (always Failure) false true None None None None
           "all" "all" None None
           (after (get_emails up true None None "all" None) (boot [] 0))
           (VList []) (VList []) 120).
  - repeat constructor. intros [].
  - simpl. lia.
  - discriminate.
  - reflexivity.
  - reflexivity.
  - lia.
  - reflexivity.
Defined.

(** ** Cache keys *)

Lemma string_app_assoc (a b c : string) : ((a ++ b) ++ c = a ++ (b ++ c))%string.
Proof. induction a as [| x a IH]; simpl; [reflexivity | now rewrite IH]. Qed.

(** A colon-free head is determined by the whole. *)
Lemma colon_split a a' r r' :
  colon_free a = true -> colon_free a' = true ->
  (a ++ ":" ++ r = a' ++ ":" ++ r')%string -> a = a' /\ r = r'.
Proof.
  revert a'. induction a as [| x a IH]; intros [| x' a'] Ha Ha' E; simpl in *.
  - inversion E. now split.
  - inversion E; subst. rewrite Ascii.eqb_refl in Ha'. discriminate.
  - inversion E; subst. rewrite Ascii.eqb_refl in Ha. discriminate.
  - inversion E; subst.
    apply andb_prop in Ha as (_ & Ha). apply andb_prop in Ha' as (_ & Ha').
    destruct (IH a' Ha Ha' H1) as (-> & ->). now split.
Qed.

Lemma fmt_bool_inj b b' : fmt_bool b = fmt_bool b' -> b = b'.
Proof. destruct b, b'; simpl; intros E; try reflexivity; discriminate. Qed.

Lemma fmt_opt_inj o o' :
  o <> Some "None" -> o' <> Some "None" -> fmt_opt o = fmt_opt o' -> o = o'.
Proof.
  destruct o as [s |], o' as [s' |]; simpl; intros H H' E; subst; try reflexivity.
  - now destruct H.
  - now destruct H'.
Qed.

(** Two queries with the same key are one query to the cache. *)
Lemma get_emails_shared_key up1 up2 preview_only preview_only' lead_email lead_email'
    campaign_id campaign_id' email_type email_type' label label' w r d :
  let first := get_emails up1 preview_only lead_email campaign_id email_type label in
  let second := get_emails up2 preview_only' lead_email' campaign_id' email_type'
                  label' in
  email_cache_key preview_only' lead_email' campaign_id' email_type' label'
  = email_cache_key preview_only lead_email campaign_id email_type label ->
  cache_contains (email_cache_key preview_only lead_email campaign_id email_type label)
    (clock w) (email_cache (self w)) = false ->
  run first w = Return r ->
  0 <= d < 300 ->
  let w1 := advance d (after first w) in
  run second w1 = Return r /\ sent (after second w1) = sent w1.
Proof.
  intros first second Hkey Hmiss Hret Hd w1.
  destruct (get_emails_miss_cache up1 preview_only lead_email campaign_id email_type
              label w r Hmiss Hret) as (Hcache & _).
  fold first in Hcache.
  assert (P : cache_peek (email_cache_key preview_only' lead_email' campaign_id'
                            email_type' label')
                (clock w1) (email_cache (self w1)) = Some r).
  { rewrite Hkey. subst w1. simpl. rewrite Hcache.
    apply cache_peek_setitem. unfold email_ttl. lia. }
  destruct (get_emails_hit up2 preview_only' lead_email' campaign_id' email_type'
              label' w1 r P) as (R & S & _).
  now split.
Qed.

(** X10: The cache key does not tell an absent filter from the text
    ["None"], nor where a colon inside a filter ends it.  So a query
    for the lead ["None"] made within 300 seconds of an unfiltered one
    is answered with the unfiltered listing and never reaches the
    provider; and so is a query for lead [x] and campaign [y ++ ":" ++ c]
    after one for lead [x ++ ":" ++ y] and campaign [c]. *)
Theorem cache_key_collisions :
  forall (up1 up2 : upstream) (preview_only : bool) (campaign_id : option string)
         (email_type : string) (label : option string) (x y c : string)
         (w : state) (r : value) (d : Z),
    0 <= d < 300 ->
    (let first := get_emails up1 preview_only None campaign_id email_type label in
     let second := get_emails up2 preview_only (Some "None") campaign_id email_type label in
     cache_contains (email_cache_key preview_only None campaign_id email_type label)
       (clock w) (email_cache (self w)) = false ->
     run first w = Return r ->
     run second (advance d (after first w)) = Return r /\
     sent (after second (advance d (after first w))) = sent (after first w)) /\
    (let first := get_emails up1 preview_only (Some (x ++ ":" ++ y)%string) (Some c)
                    email_type label in
     let second := get_emails up2 preview_only (Some x) (Some (y ++ ":" ++ c)%string)
                     email_type label in
     cache_contains (email_cache_key preview_only (Some (x ++ ":" ++ y)%string) (Some c)
                       email_type label)
       (clock w) (email_cache (self w)) = false ->
     run first w = Return r ->
     run second (advance d (after first w)) = Return r /\
     sent (after second (advance d (after first w))) = sent (after first w)).
Proof.
  intros up1 up2 preview_only campaign_id email_type label x y c w r d Hd. split.
  - intros first second Hmiss Hret.
    apply (get_emails_shared_key up1 up2 preview_only preview_only None (Some "None")
             campaign_id campaign_id email_type email_type label label w r d);
      [reflexivity | exact Hmiss | exact Hret | exact Hd].
  - intros first second Hmiss Hret.
    apply (get_emails_shared_key up1 up2 preview_only preview_only
             (Some (x ++ ":" ++ y)%string) (Some x) (Some c) (Some (y ++ ":" ++ c)%string)
             email_type email_type label label w r d);
      [| exact Hmiss | exact Hret | exact Hd].
    unfold email_cache_key. simpl fmt_opt.
    rewrite !string_app_assoc. reflexivity.
Qed.

(** An unfiltered listing that is empty, then the listing for the lead
    called "None", which the provider would answer with one email. *)
Lemma cache_key_collisions_witness :
  let first := get_emails (always (Success (Some (VDict [("data", VList [])]))))
                 true None None "all" None in
  let second := get_emails
                  (always (Success (Some (VDict [("data", VList [VDict [("id", VStr "e1")]])]))))
                  true (Some "None") None "all" None in
  run second (advance 10 (after first (boot [] 0))) = Return (VList []) /\
  sent (after second (advance 10 (after first (boot [] 0)))) = sent (after first (boot [] 0)).
Proof.
  cbv zeta.
  destruct (cache_key_collisions
              (always (Success (Some (VDict [("data", VList [])]))))
              (always (Success (Some (VDict [("data", VList [VDict [("id", VStr "e1")]])]))))
              true None "all" None "" "" "" (boot [] 0) (VList []) 10 ltac:(lia))
    as (N & _).
  exact (N eq_refl eq_refl).
Defined.

(** X11: Apart from those cases the key tells queries apart: when the
    lead, the campaign and the email type of two queries hold no colon
    and no filter is the text ["None"], equal keys mean equal
    arguments. *)
Theorem cache_key_injective :
  forall (preview_only preview_only' : bool)
         (lead_email lead_email' campaign_id campaign_id' : option string)
         (email_type email_type' : string) (label label' : option string),
    colon_free (fmt_opt lead_email) = true -> colon_free (fmt_opt lead_email') = true ->
    colon_free (fmt_opt campaign_id) = true -> colon_free (fmt_opt campaign_id') = true ->
    colon_free email_type = true -> colon_free email_type' = true ->
    lead_email <> Some "None" -> lead_email' <> Some "None" ->
    campaign_id <> Some "None" -> campaign_id' <> Some "None" ->
    label <> Some "None" -> label' <> Some "None" ->
    email_cache_key preview_only lead_email campaign_id email_type label
    = email_cache_key preview_only' lead_email' campaign_id' email_type' label' ->
    preview_only = preview_only' /\ lead_email = lead_email' /\
    campaign_id = campaign_id' /\ email_type = email_type' /\ label = label'.
Proof.
  intros preview_only preview_only' lead_email lead_email' campaign_id campaign_id'
    email_type email_type' label label' Hl Hl' Hc Hc' Ht Ht' Nl Nl' Nc Nc' Nb Nb' E.
  unfold email_cache_key in E.
  apply colon_split in E as (Ep & E);
    [| now destruct preview_only | now destruct preview_only'].
  apply colon_split in E as (El & E); [| exact Hl | exact Hl'].
  apply colon_split in E as (Ec & E); [| exact Hc | exact Hc'].
  apply colon_split in E as (Et & Eb); [| exact Ht | exact Ht'].
  repeat split.
  - now apply fmt_bool_inj.
  - now apply fmt_opt_inj.
  - now apply fmt_opt_inj.
  - exact Et.
  - now apply fmt_opt_inj.
Qed.

(** A filtered preview query against itself. *)
Lemma cache_key_injective_witness :
  true = true /\ Some "lp@fund.example" = Some "lp@fund.example" /\
  @None string = None /\ "all" = "all" /\ Some "HOT" = Some "HOT".
Proof.
  apply (cache_key_injective true true (Some "lp@fund.example") (Some "lp@fund.example")
           None None "all" "all" (Some "HOT") (Some "HOT"));
    try reflexivity; discriminate.
Defined.

(** ** Writes and the cache *)

(** X12: No write invalidates the email cache.  After a listing has been
    fetched and stored, a call of [update_email_label], [update_lead],
    [send_email] or [add_lead_to_sequence], whether it succeeds or
    raises, leaves that listing in place: the same query made afterwards,
    less than 300 seconds after the listing was stored, returns the
    listing as it was before the write and sends nothing. *)
Theorem writes_do_not_invalidate :
  forall (up1 upw up2 : upstream) (preview_only : bool)
         (lead_email campaign_id : option string) (email_type : string)
         (label : option string) (w w2 : state) (r : value) (d : Z),
    let first := get_emails up1 preview_only lead_email campaign_id email_type label in
    let again := get_emails up2 preview_only lead_email campaign_id email_type label in
    cache_contains (email_cache_key preview_only lead_email campaign_id email_type label)
      (clock w) (email_cache (self w)) = false ->
    run first w = Return r ->
    0 <= d ->
    let w1 := advance d (after first w) in
    ((exists email_id new_label, w2 = after (update_email_label upw email_id new_label) w1) \/
     (exists email campaign variables, w2 = after (update_lead upw email campaign variables) w1) \/
     (exists to subject body reply_to_id,
         w2 = after (send_email upw to subject body reply_to_id) w1) \/
     (exists email sequence_id, w2 = after (add_lead_to_sequence upw email sequence_id) w1)) ->
    clock w2 < clock (after first w) + 300 ->
    run again w2 = Return r /\ sent (after again w2) = sent w2.
Proof.
  intros up1 upw up2 preview_only lead_email campaign_id email_type label w w2 r d
    first again Hmiss Hret Hd w1 Hw2 Hclock.
  destruct (get_emails_miss_cache up1 preview_only lead_email campaign_id email_type
              label w r Hmiss Hret) as (Hcache & _).
  fold first in Hcache.
  assert (E : extends w1 w2).
  { assert (R : forall v path data,
               extends w1 (snd (round_trip upw v path data (fun e => raise e) w1))).
    { intros. apply net_only_round_trip. intros; apply net_only_raise. }
    destruct Hw2 as [(? & ? & ->) | [(? & ? & ? & ->) | [(? & ? & ? & o & ->) | (? & ? & ->)]]];
      unfold after.
    - rewrite update_email_label_round_trip. apply R.
    - rewrite update_lead_round_trip. apply R.
    - rewrite send_email_round_trip. destruct (given o); apply R.
    - rewrite add_lead_to_sequence_round_trip. apply R. }
  destruct E as (_ & S & C & _).
  assert (P : cache_peek (email_cache_key preview_only lead_email campaign_id email_type
                            label) (clock w2) (email_cache (self w2)) = Some r).
  { rewrite S. subst w1. simpl. rewrite Hcache.
    apply cache_peek_setitem. unfold email_ttl. simpl in C. lia. }
  destruct (get_emails_hit up2 preview_only lead_email campaign_id email_type label
              w2 r P) as (R & L & _).
  now split.
Qed.

(** A listing, then a label update that the provider accepts, then the
    listing again: it is the old one. *)
Lemma writes_do_not_invalidate_witness :
  let old := VDict [("data", VList [])] in
  let new := VDict [("data", VList [VDict [("id", VStr "e1"); ("label", VStr "HOT")]])] in
  let w1 := advance 5 (after (get_emails (always (Success (Some old))) true None None
                                "all" None) (boot [] 0)) in
  let w2 := after (update_email_label (always (Success (Some (VDict []))))
                     "e1" "HOT") w1 in
  run (get_emails (always (Success (Some new))) true None None "all" None) w2
  = Return (VList []).
Proof.
  cbv zeta.
  set (w1 := advance 5 _).
  set (w2 := after _ w1).
  assert (H : (exists email_id new_label,
                  w2 = after (update_email_label (always (Success (Some (VDict []))))
                                email_id new_label) w1) \/
              (exists email campaign variables,
                  w2 = after (update_lead (always (Success (Some (VDict []))))
                                email campaign variables) w1) \/
              (exists to subject body reply_to_id,
                  w2 = after (send_email (always (Success (Some (VDict []))))
                                to subject body reply_to_id) w1) \/
              (exists email sequence_id,
                  w2 = after (add_lead_to_sequence (always (Success (Some (VDict []))))
                                email sequence_id) w1)).
  { left. exists "e1", "HOT". reflexivity. }
  assert (C : clock w2 < clock (after (get_emails
                                         (always (Success (Some (VDict [("data", VList [])]))))
                                         true None None "all" None) (boot [] 0)) + 300)
    by (simpl; lia).
  exact (proj1 (writes_do_not_invalidate
                  (always (Success (Some (VDict [("data", VList [])]))))
                  (always (Success (Some (VDict []))))
                  (always (Success (Some (VDict [("data",
                     VList [VDict [("id", VStr "e1"); ("label", VStr "HOT")]])]))))
                  true None None "all" None (boot [] 0) w2 (VList []) 5
                  eq_refl eq_refl ltac:(lia) H C)).
Defined.

(** ** Thread expansion that succeeds *)

Lemma adopt_body_first_match email eid pre entry post :
  dict_get email "id" = Some eid ->
  Forall (fun t => py_eq (dict_get_default t "id" VNone) eid = false) pre ->
  py_eq (dict_get_default entry "id" VNone) eid = true ->
  adopt_body email (map VDict pre ++ VDict entry :: post)
  = Return (match structured_body (dict_get_default entry "body" (VDict [])) with
            | Some b => dict_set email "body" b
            | None => email
            end).
Proof.
  intros Hid Hpre Hentry. induction Hpre as [| t pre Ht _ IH]; simpl.
  - unfold dict_getitem. rewrite Hid. simpl. now rewrite Hentry.
  - unfold dict_getitem. rewrite Hid. simpl. rewrite Ht. exact IH.
Qed.

(** X13: In full mode, when the record's [thread_id] fits a URL and the
    thread request succeeds with a list of entries, the record gets that
    list as its [thread] and takes its
    body from the first entry whose [id] equals its own: a string body
    fills both [text] and [html], an object body is read key by key with
    empty defaults, a missing body gives two empty strings; entries
    after the match are not looked at.  If that entry's body is of any
    other type the record's body stays as the listing gave it. *)
Theorem thread_expansion_adopts_body :
  forall (up : upstream) (email : dict) (w : state) (tid : value)
         (thread_data : dict) (pre : list dict) (entry : dict) (post : list value),
    let eid := dict_get_default email "id" (VStr "") in
    let thread := VList (map VDict pre ++ VDict entry :: post) in
    dict_get email "thread_id" = Some tid ->
    truthy tid = true ->
    thread_url_ok tid = true ->
    next_reply up w GET (unibox_thread tid) [("workspace_id", VStr (workspace_id (self w)))]
    = Success (Some (VDict thread_data)) ->
    dict_get thread_data "data" = Some thread ->
    Forall (fun t => py_eq (dict_get_default t "id" VNone) eid = false) pre ->
    py_eq (dict_get_default entry "id" VNone) eid = true ->
    exists email',
      run (normalize_email up false (VDict email)) w = Return (VDict email') /\
      dict_get email' "thread" = Some thread /\
      dict_get email' "body"
      = match dict_get_default entry "body" (VDict []) with
        | VStr s => Some (VDict [("text", VStr s); ("html", VStr s)])
        | VDict b => Some (VDict [("text", dict_get_default b "text" (VStr ""));
                                  ("html", dict_get_default b "html" (VStr ""))])
        | _ => dict_get email "body"
        end.
Proof.
  intros up email w tid thread_data pre entry post eid thread Htid Htruthy Hok Hreply
    Hdata Hpre Hentry.
  subst thread.
  set (items := map VDict pre ++ VDict entry :: post) in *.
  unfold run, normalize_email, bind at 1.
  rewrite wants_thread_required_fields. unfold dict_get_default at 1. rewrite Htid, Htruthy.
  change (negb false && true) with true. cbv iota.
  set (d := required_fields email).
  assert (Hd : dict_get d "thread_id" = Some tid)
    by (unfold d; now rewrite required_fields_thread_id).
  assert (Hid : dict_get (dict_set d "thread" (VList items)) "id" = Some eid).
  { unfold d, required_fields. now dict_simpl. }
  assert (E : expand_thread up d w
              = (Return (match structured_body (dict_get_default entry "body" (VDict [])) with
                         | Some b => dict_set (dict_set d "thread" (VList items)) "body" b
                         | None => dict_set d "thread" (VList items)
                         end),
                 answered up w GET (unibox_thread tid)
                   [("workspace_id", VStr (workspace_id (self w)))])).
  { rewrite (expand_thread_valid _ _ _ _ Hd Hok). unfold try_except, workspace_params.
    rewrite (bind_Return _ _ _ _ _ (send_success _ _ _ _ _ _ Hreply)).
    cbv beta. unfold json. unfold bind at 1, ret at 1. cbv beta iota.
    unfold bind at 1, lift at 1, py_get, dict_get_default at 1. rewrite Hdata. cbv beta iota.
    unfold bind at 1, lift at 1, py_iter. cbv beta iota. unfold lift.
    unfold items in *. unfold dict_get_default at 1. rewrite Hdata.
    now rewrite (adopt_body_first_match _ eid pre entry post Hid Hpre Hentry). }
  rewrite E. simpl fst.
  eexists. split; [reflexivity |]. split.
  - rewrite other_fields_thread.
    destruct (structured_body _); now dict_simpl.
  - rewrite other_fields_body.
    destruct (dict_get_default entry "body" (VDict [])); simpl; dict_simpl;
      try reflexivity; unfold d; apply required_fields_body.
Qed.

(** The second entry of the thread is the record's own message. *)
Lemma thread_expansion_adopts_body_witness :
  let email := [("id", VStr "e2"); ("thread_id", VStr "t1"); ("body", VStr "short")] in
  let thread := [VDict [("id", VStr "e1"); ("body", VStr "first")];
                 VDict [("id", VStr "e2"); ("body", VDict [("html", VStr "<p>full</p>")])]] in
  let up := always (Success (Some (VDict [("data", VList thread)]))) in
  exists email',
    run (normalize_email up false (VDict email)) (boot [] 0) = Return (VDict email') /\
    dict_get email' "body"
    = Some (VDict [("text", VStr ""); ("html", VStr "<p>full</p>")]).
Proof.
  cbv zeta.
  destruct (thread_expansion_adopts_body
              (always (Success (Some (VDict [("data",
                 VList [VDict [("id", VStr "e1"); ("body", VStr "first")];
                        VDict [("id", VStr "e2");
                               ("body", VDict [("html", VStr "<p>full</p>")])]])]))))
              [("id", VStr "e2"); ("thread_id", VStr "t1"); ("body", VStr "short")]
              (boot [] 0) (VStr "t1") _
              [[("id", VStr "e1"); ("body", VStr "first")]]
              [("id", VStr "e2"); ("body", VDict [("html", VStr "<p>full</p>")])]
              [] eq_refl eq_refl eq_refl eq_refl eq_refl
              ltac:(repeat constructor) eq_refl)
    as (email' & R & _ & B).
  exists email'. split; [exact R | exact B].
Defined.

(** ** Normalised records *)

Lemma dict_get_set_keeps d k v k' v' :
  dict_get d k' = Some v' -> k' <> k -> dict_get (dict_set d k v) k' = Some v'.
Proof.
  intros H Hne. rewrite dict_get_set_other; [exact H |].
  apply String.eqb_neq. congruence.
Qed.

(** A backfill never changes a binding that is there. *)
Lemma dict_get_backfill_keeps d k default k' v' :
  dict_get d k' = Some v' -> dict_get (backfill d k default) k' = Some v'.
Proof.
  intros H. unfold backfill. destruct (String.eqb k k') eqn:E.
  - apply String.eqb_eq in E. subst k'.
    rewrite dict_get_set_same. unfold dict_get_default. now rewrite H.
  - now rewrite dict_get_set_other.
Qed.

Lemma required_fields_keeps email k v :
  dict_get email k = Some v -> dict_get (required_fields email) k = Some v.
Proof.
  intros H. unfold required_fields. now repeat apply dict_get_backfill_keeps.
Qed.

Lemma other_fields_keeps email k v :
  dict_get email k = Some v -> dict_get (other_fields email) k = Some v.
Proof.
  intros H. unfold other_fields. now repeat apply dict_get_backfill_keeps.
Qed.

Lemma preview_record_has email k : In k record_keys -> dict_has (preview_record email) k = true.
Proof.
  intros Hin. unfold dict_has.
  assert (H : exists v, dict_get (preview_record email) k = Some v);
    [| now destruct H as (v & ->)].
  unfold record_keys in Hin. simpl in Hin.
  repeat (destruct Hin as [<- | Hin];
          [unfold preview_record, other_fields, preview_body, required_fields;
           dict_simpl; eauto |]).
  contradiction.
Qed.

(** X14: In preview mode a record comes back with all sixteen keys of
    the normalised shape.  Every field the provider sent, apart from
    [body] and [thread], comes back as it was sent; a missing text field
    is the empty string, a missing optional field is null, and a missing
    [from_address_json] is built from [from_address_email] with an empty
    name. *)
Theorem preview_record_fields :
  forall (up : upstream) (email : dict) (w : state),
    run (normalize_email up true (VDict email)) w = Return (VDict (preview_record email)) /\
    (forall k, In k record_keys -> dict_has (preview_record email) k = true) /\
    (forall k v, dict_get email k = Some v -> k <> "body" -> k <> "thread" ->
                 dict_get (preview_record email) k = Some v) /\
    (forall k, In k ["id"; "message_id"; "subject"; "from_address_email"; "content_preview"] ->
               dict_get email k = None ->
               dict_get (preview_record email) k = Some (VStr "")) /\
    (forall k, In k ["timestamp_created"; "label"; "campaign_id"; "lead_id"; "thread_id"] ->
               dict_get email k = None ->
               dict_get (preview_record email) k = Some VNone) /\
    (dict_get email "from_address_json" = None ->
     dict_get (preview_record email) "from_address_json"
     = Some (VList [VDict [("address", dict_get_default email "from_address_email" (VStr ""));
                           ("name", VStr "")]])).
Proof.
  intros up email w.
  repeat match goal with |- _ /\ _ => split end.
  - reflexivity.
  - intros k. apply preview_record_has.
  - intros k v H Hb Ht. unfold preview_record.
    apply other_fields_keeps. unfold preview_body.
    apply dict_get_set_keeps; [| exact Ht].
    apply dict_get_set_keeps; [| exact Hb].
    now apply required_fields_keeps.
  - intros k Hin Hnone. simpl in Hin.
    repeat (destruct Hin as [<- | Hin];
            [unfold preview_record, other_fields, preview_body, required_fields;
             repeat (dict_simpl; unfold dict_get_default); now rewrite Hnone |]).
    contradiction.
  - intros k Hin Hnone. simpl in Hin.
    repeat (destruct Hin as [<- | Hin];
            [unfold preview_record, other_fields, preview_body, required_fields;
             repeat (dict_simpl; unfold dict_get_default); now rewrite Hnone |]).
    contradiction.
  - intros Hnone.
    unfold preview_record, other_fields, preview_body, required_fields.
    dict_simpl. unfold dict_get_default at 1. dict_simpl. rewrite Hnone.
    do 4 f_equal. repeat (unfold dict_get_default; dict_simpl).
    now destruct (dict_get email "from_address_email").
Qed.

(** A record that carries only a sender and an unknown extra field. *)
Lemma preview_record_fields_witness :
  let email := [("from_address_email", VStr "lp@fund.example"); ("x_score", VInt 7)] in
  dict_get (preview_record email) "x_score" = Some (VInt 7) /\
  dict_get (preview_record email) "subject" = Some (VStr "") /\
  dict_get (preview_record email) "lead_id" = Some VNone /\
  dict_get (preview_record email) "from_address_json"
  = Some (VList [VDict [("address", VStr "lp@fund.example"); ("name", VStr "")]]).
Proof.
  cbv zeta.
  destruct (preview_record_fields (always Failure)
              [("from_address_email", VStr "lp@fund.example"); ("x_score", VInt 7)]
              (boot [] 0)) as (_ & _ & K & S & N & F).
  split; [| split; [| split]].
  - apply K; [reflexivity | discriminate | discriminate].
  - apply S; [simpl; tauto | reflexivity].
  - apply N; [simpl; tauto | reflexivity].
  - apply F. reflexivity.
Defined.

Lemma dict_set_present d k v : dict_get d k = Some v -> dict_set d k v = d.
Proof.
  induction d as [| [k' v'] d IH]; simpl; [discriminate |].
  destruct (String.eqb k' k) eqn:E.
  - now intros [= ->].
  - intros H. now rewrite IH.
Qed.

Lemma backfill_present d k default :
  dict_has d k = true -> backfill d k default = d.
Proof.
  unfold dict_has, backfill, dict_get_default.
  destruct (dict_get d k) as [v |] eqn:E; [| discriminate].
  intros _. now apply dict_set_present.
Qed.

(** X15: Normalising a record that is already normalised changes
    nothing: records served again, from the cache or from a provider that
    already sends the normalised shape, come out the same. *)
Theorem preview_record_idempotent :
  forall (email : dict), preview_record (preview_record email) = preview_record email.
Proof.
  intros email.
  set (d := preview_record email).
  assert (H : forall k, In k record_keys -> dict_has d k = true)
    by (intros k; apply preview_record_has).
  assert (R : required_fields d = d).
  { unfold required_fields.
    repeat rewrite (backfill_present d) by (apply H; simpl; tauto). reflexivity. }
  assert (B : exists text html, dict_get d "body" = Some (body_of text html)).
  { unfold d, preview_record. rewrite other_fields_body. unfold preview_body. dict_simpl.
    destruct (structured_body _) as [b |] eqn:S.
    - destruct (dict_get_default (required_fields email) "body" VNone);
        simpl in S; inversion S; eauto.
    - eauto. }
  assert (T : dict_get d "thread" = Some (VList [])).
  { unfold d, preview_record. rewrite other_fields_thread. unfold preview_body.
    now dict_simpl. }
  assert (P : preview_body d = d).
  { unfold preview_body. destruct B as (text & html & B). unfold body_of in B.
    unfold dict_get_default. rewrite B. simpl.
    replace (body_of _ _) with (VDict [("text", text); ("html", html)]) by reflexivity.
    rewrite (dict_set_present d "body" _ B). now apply dict_set_present. }
  assert (O : other_fields d = d).
  { unfold other_fields.
    repeat rewrite (backfill_present d) by (apply H; simpl; tauto). reflexivity. }
  unfold preview_record at 1. fold d. now rewrite R, P, O.
Qed.

(** ** Pages that are not a list of records *)

(** X16: What [get_emails] makes of a listing reply that is not an
    object holding a list of records, on a cache miss.  An object without
    [data] gives the empty list, which is cached like any other result.
    A body that is not JSON raises [ValueError]; a JSON value that is
    not an object raises [AttributeError]; a [data] that is null or a
    number raises [TypeError]; a [data] list whose first item is not an
    object raises [AttributeError].  Whenever it raises, one request was
    sent and neither cache was touched. *)
Theorem get_emails_odd_pages :
  forall (up : upstream) (preview_only : bool) (lead_email campaign_id : option string)
         (email_type : string) (label : option string) (w : state),
    let call := get_emails up preview_only lead_email campaign_id email_type label in
    let key := email_cache_key preview_only lead_email campaign_id email_type label in
    let first := listing_request (self w) preview_only lead_email campaign_id
                   email_type label in
    let answer := snd (up (length (sent w)) first) in
    let raised e :=
      run call w = Raise e /\ sent (after call w) = sent w ++ [first] /\
      self (after call w) = self w in
    cache_contains key (clock w) (email_cache (self w)) = false ->
    (forall page, answer = Success (Some (VDict page)) -> dict_get page "data" = None ->
                  run call w = Return (VList []) /\
                  cache_peek key (clock (after call w)) (email_cache (self (after call w)))
                  = Some (VList [])) /\
    (answer = Success None -> raised ValueError) /\
    (forall j, answer = Success (Some j) ->
               match j with VDict _ => False | _ => True end ->
               raised AttributeError) /\
    (forall page data, answer = Success (Some (VDict page)) ->
                       dict_get page "data" = Some data ->
                       match data with VNone | VBool _ | VInt _ => True | _ => False end ->
                       raised TypeError) /\
    (forall page item items, answer = Success (Some (VDict page)) ->
                             dict_get page "data" = Some (VList (item :: items)) ->
                             match item with VDict _ => False | _ => True end ->
                             raised AttributeError).
Proof.
  intros up preview_only lead_email campaign_id email_type label w call key first answer
    raised Hmiss.
  subst call raised. unfold run, after. rewrite get_emails_unfold. fold key. rewrite Hmiss.
  subst first answer. unfold listing_request.
  set (params := get_emails_params _ _ _ _ _ _).
  change (snd (up (length (sent w)) (mkRequest GET unibox_emails (headers (self w)) params)))
    with (next_reply up w GET unibox_emails params).
  repeat match goal with |- _ /\ _ => split end.
  - intros page Hreply Hdata. unfold fetch_emails.
    rewrite (bind_Return _ _ _ _ _ (send_success _ _ _ _ _ _ Hreply)).
    cbv beta. unfold json, bind, ret, lift, py_get, dict_get_default. rewrite Hdata.
    simpl. split; [reflexivity |].
    apply cache_peek_setitem. unfold email_ttl. lia.
  - intros Hreply. unfold fetch_emails.
    rewrite (bind_Return _ _ _ _ _ (send_success _ _ _ _ _ _ Hreply)). simpl.
    repeat split.
  - intros j Hreply Hj. unfold fetch_emails.
    rewrite (bind_Return _ _ _ _ _ (send_success _ _ _ _ _ _ Hreply)).
    destruct j; try contradiction; simpl; repeat split.
  - intros page data Hreply Hdata Hd. unfold fetch_emails.
    rewrite (bind_Return _ _ _ _ _ (send_success _ _ _ _ _ _ Hreply)).
    cbv beta. unfold json, bind, ret, lift, py_get, dict_get_default. rewrite Hdata.
    destruct data; try contradiction; simpl; repeat split.
  - intros page item items Hreply Hdata Hi. unfold fetch_emails.
    rewrite (bind_Return _ _ _ _ _ (send_success _ _ _ _ _ _ Hreply)).
    cbv beta. unfold json, bind, ret, lift, py_get, dict_get_default. rewrite Hdata.
    destruct item; try contradiction; simpl; repeat split.
Qed.

(** The provider answers with an object that has no [data], then with
    a bare list. *)
Lemma get_emails_odd_pages_witness :
  run (get_emails (always (Success (Some (VDict [("status", VStr "ok")]))))
         true None None "all" None) (boot [] 0)
  = Return (VList []) /\
  run (get_emails (always (Success (Some (VList [])))) true None None "all" None) (boot [] 0)
  = Raise AttributeError.
Proof.
  pose proof (get_emails_odd_pages (always (Success (Some (VDict [("status", VStr "ok")]))))
                true None None "all" None (boot [] 0) eq_refl) as (P & _).
  pose proof (get_emails_odd_pages (always (Success (Some (VList []))))
                true None None "all" None (boot [] 0) eq_refl) as (_ & _ & A & _).
  split.
  - exact (proj1 (P _ eq_refl eq_refl)).
  - exact (proj1 (A _ eq_refl I)).
Defined.

(** ** Labels derived from tags *)

Lemma upper_ascii_not_lower c : is_lower (upper_ascii c) = false.
Proof.
  unfold upper_ascii, is_lower.
  destruct ((97 <=? nat_of_ascii c) && (nat_of_ascii c <=? 122))%nat eqn:E; [| exact E].
  apply andb_prop in E as (L & U).
  apply Nat.leb_le in L. apply Nat.leb_le in U.
  rewrite nat_ascii_embedding by lia.
  apply andb_false_iff. left. apply Nat.leb_gt. lia.
Qed.

Lemma label_shaped_derived s : label_shaped (replace_space (upper s)) = true.
Proof.
  induction s as [| c s IH]; [reflexivity |]. simpl.
  rewrite IH, andb_true_r.
  destruct (Ascii.eqb (upper_ascii c) " ") eqn:E; [reflexivity |].
  rewrite E. simpl. now rewrite upper_ascii_not_lower.
Qed.

Lemma length_derived s : String.length (replace_space (upper s)) = String.length s.
Proof. induction s as [| c s IH]; simpl; [reflexivity | now rewrite IH]. Qed.

Lemma labels_of_plain_tags tags :
  forallb plain_tag tags = true ->
  labels_of_tags (map VDict tags)
  = Return (map (fun s => VStr (replace_space (upper s))) (tag_names tags)).
Proof.
  induction tags as [| tag tags IH]; [reflexivity |].
  simpl. intros H. apply andb_prop in H as (Hp & Hr). specialize (IH Hr).
  unfold plain_tag in Hp. unfold tag_name, dict_get_default.
  destruct (dict_get tag "name") as [v |]; [| exact IH].
  destruct v; simpl in *; try (apply negb_true_iff in Hp; rewrite Hp); try exact IH.
  destruct (String.eqb s ""); simpl; [exact IH |]. now rewrite IH.
Qed.

Lemma length_tag_names tags : (length (tag_names tags) <= length tags)%nat.
Proof.
  induction tags as [| tag tags IH]; simpl; [lia |].
  destruct (tag_name tag); simpl; lia.
Qed.

(** X17: When the labels endpoint answers 404 and the tag list holds
    tags whose name, if any, is an ASCII string or counts as false,
    [get_labels] returns one label for each tag that has a non-empty
    name, in the order of the tags, and skips the others.  Each label is
    its name with the letters [a]-[z] in upper case and every space
    turned into an underscore: it has the length of the name and holds
    no space and no lower-case ASCII letter. *)
Theorem get_labels_from_tags :
  forall (up : upstream) (w : state) (tags : list dict),
    let params := workspace_params (self w) in
    cache_contains "labels" (clock w) (label_cache (self w)) = false ->
    next_reply up w GET unibox_labels params = Status 404 ->
    next_reply up (answered up w GET unibox_labels params) GET tag_list params
    = Success (Some (VList (map VDict tags))) ->
    forallb plain_tag tags = true ->
    forallb ascii_text (tag_names tags) = true ->
    exists labels,
      run (get_labels up) w = Return (VList (map VStr labels)) /\
      labels = map (fun s => replace_space (upper s)) (tag_names tags) /\
      (length labels <= length tags)%nat /\
      Forall (fun l => label_shaped l = true) labels /\
      Forall2 (fun l s => String.length l = String.length s) labels (tag_names tags).
Proof.
  intros up w tags params Hmiss H1 H2 Hplain _.
  exists (map (fun s => replace_space (upper s)) (tag_names tags)).
  repeat match goal with |- _ /\ _ => split end.
  - unfold run. rewrite get_labels_unfold, Hmiss. fold params.
    pose proof (labels_of_plain_tags tags Hplain) as L.
    rewrite (resolve_labels_tags up params w _ _ H1 H2 L). simpl.
    now rewrite map_map.
  - reflexivity.
  - rewrite length_map. apply length_tag_names.
  - apply Forall_forall. intros l Hin. apply in_map_iff in Hin as (s & <- & _).
    apply label_shaped_derived.
  - induction (tag_names tags) as [| s names IH]; simpl; constructor;
      [apply length_derived | exact IH].
Qed.

(** Three tags, the second without a name. *)
Lemma get_labels_from_tags_witness :
  let tags := [[("name", VStr "warm lead")]; [("color", VStr "red")];
               [("name", VStr "Q3 follow up")]] in
  let up := by_path (fun p => match p with
                              | unibox_labels => Status 404
                              | _ => Success (Some (VList (map VDict tags)))
                              end) in
  run (get_labels up) (boot [] 0)
  = Return (VList [VStr "WARM_LEAD"; VStr "Q3_FOLLOW_UP"]).
Proof.
  cbv zeta.
  destruct (get_labels_from_tags
              (by_path (fun p => match p with
                                 | unibox_labels => Status 404
                                 | _ => Success (Some (VList (map VDict
                                          [[("name", VStr "warm lead")];
                                           [("color", VStr "red")];
                                           [("name", VStr "Q3 follow up")]])))
                                 end))
              (boot [] 0)
              [[("name", VStr "warm lead")]; [("color", VStr "red")];
               [("name", VStr "Q3 follow up")]]
              eq_refl eq_refl eq_refl eq_refl eq_refl) as (labels & R & -> & _).
  exact R.
Defined.

(** ** What the degrading operations can still raise *)

Lemma try_except_returns_on_HTTPError {A} (m : M A) (fallback : M A) w e :
  (forall w', exists v, fst (fallback w') = Return v) ->
  fst (try_except m is_HTTPError (fun _ => fallback) w) = Raise e ->
  is_HTTPError e = false.
Proof.
  intros Hf. unfold try_except.
  destruct (m w) as [[a | e'] w1]; simpl; [discriminate |].
  destruct (is_HTTPError e') eqn:E.
  - destruct (Hf w1) as (v & Hv). rewrite Hv. discriminate.
  - simpl. now intros [= <-].
Qed.

(** X18: The operations that degrade never raise an [httpx] error,
    whatever the provider does: if [get_campaigns], [get_tags],
    [get_analytics], [get_leads] or [get_labels] raises at all, it is not
    an HTTP error.  And when [get_labels] raises, the instance, its label
    cache included, is as it was: nothing is cached for the next call. *)
Theorem degrading_operations_raise_no_http_error :
  forall (up : upstream) (w : state) (e : exn),
    (run (get_campaigns up) w = Raise e -> is_HTTPError e = false) /\
    (run (get_tags up) w = Raise e -> is_HTTPError e = false) /\
    (forall campaign_id,
        run (get_analytics up campaign_id) w = Raise e -> is_HTTPError e = false) /\
    (forall campaign_id status label email first_name last_name page limit sort direction,
        run (get_leads up campaign_id status label email first_name last_name page
               limit sort direction) w = Raise e ->
        is_HTTPError e = false) /\
    (run (get_labels up) w = Raise e ->
     is_HTTPError e = false /\ self (after (get_labels up) w) = self w).
Proof.
  intros up w e.
  assert (R : forall v path data (d : value),
             fst (round_trip up v path data (fun _ => ret d) w) = Raise e ->
             is_HTTPError e = false).
  { intros v path data d. unfold round_trip.
    apply try_except_returns_on_HTTPError. intros w'. now exists d. }
  unfold run. repeat match goal with |- _ /\ _ => split end; intros.
  - rewrite get_campaigns_round_trip in H. now apply R in H.
  - rewrite get_tags_round_trip in H. now apply R in H.
  - rewrite get_analytics_round_trip in H. now apply R in H.
  - unfold get_leads, bind at 1, get_self in H.
    eapply try_except_returns_on_HTTPError; [| exact H].
    intros w'. now eexists.
  - assert (Hit : cache_contains "labels" (clock w) (label_cache (self w)) = false).
    { destruct (cache_contains "labels" (clock w) (label_cache (self w))) eqn:Hit;
        [| reflexivity].
      exfalso. revert H. rewrite get_labels_unfold, Hit.
      rewrite cache_contains_peek in Hit.
      destruct (cache_peek "labels" (clock w) (label_cache (self w))) as [v |] eqn:P;
        [| discriminate].
      unfold label_cache_getitem.
      pose proof (cache_getitem_peek _ _ _ _ P) as G.
      destruct (cache_getitem _ _ _) as [r c]. simpl in *. subst r. discriminate. }
    revert H. unfold after. rewrite get_labels_unfold, Hit.
    pose proof (net_only_resolve_labels up (workspace_params (self w)) w) as (_ & S & _).
    destruct (resolve_labels up (workspace_params (self w)) w) as [[labels | e'] w'] eqn:E;
      simpl in *; [discriminate |].
    intros [= <-]. split; [| exact S].
    assert (E' : fst (resolve_labels up (workspace_params (self w)) w) = Raise e')
      by now rewrite E.
    unfold resolve_labels in E'.
    eapply try_except_returns_on_HTTPError; [| exact E'].
    intros w0. now eexists.
Qed.

(** The labels endpoint answers 404 and the tag list holds a tag whose
    name is a number: [get_labels] raises and caches nothing. *)
Lemma degrading_operations_raise_no_http_error_witness :
  let up := by_path (fun p => match p with
                              | unibox_labels => Status 404
                              | _ => Success (Some (VList [VDict [("name", VInt 7)]]))
                              end) in
  run (get_labels up) (boot [] 0) = Raise AttributeError /\
  label_cache (self (after (get_labels up) (boot [] 0))) = [].
Proof.
  cbv zeta. split; [reflexivity |].
  pose proof (degrading_operations_raise_no_http_error
                (by_path (fun p => match p with
                                   | unibox_labels => Status 404
                                   | _ => Success (Some (VList [VDict [("name", VInt 7)]]))
                                   end))
                (boot [] 0) AttributeError) as (_ & _ & _ & _ & L).
  destruct (L eq_refl) as (_ & S). now rewrite S.
Defined.

(** ** The one-request operations, answer by answer *)

Lemma round_trip_by_reply up v path data handler w :
  round_trip up v path data handler w
  = match next_reply up w v path data with
    | Success (Some j) => (Return j, answered up w v path data)
    | Success None => (Raise ValueError, answered up w v path data)
    | Status code => handler (HTTPStatusError code) (answered up w v path data)
    | Failure => handler RequestError (answered up w v path data)
    end.
Proof.
  destruct (next_reply up w v path data) as [[j |] | code |] eqn:E.
  - now apply round_trip_success.
  - unfold round_trip, try_except.
    now rewrite (bind_Return _ _ _ _ _ (send_success _ _ _ _ _ _ E)).
  - apply round_trip_error. now rewrite E.
  - apply round_trip_error. now rewrite E.
Qed.

Lemma round_trip_degraded up v path data fallback w :
  fst (round_trip up v path data (fun _ => ret fallback) w)
  = degraded (next_reply up w v path data) fallback /\
  snd (round_trip up v path data (fun _ => ret fallback) w) = answered up w v path data.
Proof.
  rewrite round_trip_by_reply.
  destruct (next_reply up w v path data) as [[j |] | code |]; now split.
Qed.

Lemma round_trip_propagated up v path data w :
  fst (round_trip up v path data (fun e => raise e) w)
  = propagated (next_reply up w v path data) /\
  snd (round_trip up v path data (fun e => raise e) w) = answered up w v path data.
Proof.
  rewrite round_trip_by_reply.
  destruct (next_reply up w v path data) as [[j |] | code |]; now split.
Qed.

(** X19: [get_campaigns], [get_tags] and [get_analytics] each send one
    GET with the workspace id ([get_analytics] adds the campaign id when
    it is given and non-empty) and leave the instance alone.  They return
    the provider's JSON unchanged and unchecked, whatever its shape;
    return their default, the empty list or [{"stats": {}}], on a bad
    status or a transport failure; and raise [ValueError] when a 2xx body
    is not JSON. *)
Theorem read_operations_by_reply :
  forall (up : upstream) (w : state) (campaign_id : option string),
    let ws := [("workspace_id", VStr (workspace_id (self w)))] in
    (run (get_campaigns up) w
     = degraded (next_reply up w GET campaign_list_all ws) (VList []) /\
     sent_only (get_campaigns up) w GET campaign_list_all ws) /\
    (run (get_tags up) w = degraded (next_reply up w GET tag_list ws) (VList []) /\
     sent_only (get_tags up) w GET tag_list ws) /\
    (exists data,
        run (get_analytics up campaign_id) w
        = degraded (next_reply up w GET analytics_campaign_stats data)
            (VDict [("stats", VDict [])]) /\
        sent_only (get_analytics up campaign_id) w GET analytics_campaign_stats data /\
        dict_get data "workspace_id" = Some (VStr (workspace_id (self w))) /\
        filter_sent data "campaign_id" campaign_id).
Proof.
  intros up w campaign_id ws. unfold run, sent_only, after.
  repeat match goal with |- _ /\ _ => split end.
  - rewrite get_campaigns_round_trip. apply round_trip_degraded.
  - rewrite get_campaigns_round_trip.
    now rewrite (proj2 (round_trip_degraded _ _ _ _ _ _)).
  - rewrite get_campaigns_round_trip.
    now rewrite (proj2 (round_trip_degraded _ _ _ _ _ _)).
  - rewrite get_tags_round_trip. apply round_trip_degraded.
  - rewrite get_tags_round_trip. now rewrite (proj2 (round_trip_degraded _ _ _ _ _ _)).
  - rewrite get_tags_round_trip. now rewrite (proj2 (round_trip_degraded _ _ _ _ _ _)).
  - eexists. rewrite get_analytics_round_trip.
    repeat match goal with |- _ /\ _ => split end.
    + apply round_trip_degraded.
    + now rewrite (proj2 (round_trip_degraded _ _ _ _ _ _)).
    + now rewrite (proj2 (round_trip_degraded _ _ _ _ _ _)).
    + unfold workspace_params. now query_simpl.
    + unfold workspace_params. sent_as.
Qed.

(** X20: [add_lead_to_sequence], [update_lead] and [update_email_label]
    each send one POST with exactly the fields shown and leave the
    instance alone.  They return the provider's JSON unchanged, raise the
    HTTP error on a bad status or a transport failure, and raise
    [ValueError] when a 2xx body is not JSON. *)
Theorem write_operations_by_reply :
  forall (up : upstream) (w : state),
    (forall email sequence_id,
        let data := [("workspace_id", VStr (workspace_id (self w)));
                     ("subseq_id", VStr sequence_id);
                     ("parent_lead_ids", VList [VStr email])] in
        run (add_lead_to_sequence up email sequence_id) w
        = propagated (next_reply up w POST lead_add_lead_in_subseq data) /\
        sent_only (add_lead_to_sequence up email sequence_id) w
          POST lead_add_lead_in_subseq data) /\
    (forall email campaign_id variables,
        let data := [("workspace_id", VStr (workspace_id (self w)));
                     ("campaign_id", VStr campaign_id);
                     ("email", VStr email);
                     ("variables", VDict variables)] in
        run (update_lead up email campaign_id variables) w
        = propagated (next_reply up w POST lead_data_update data) /\
        sent_only (update_lead up email campaign_id variables) w
          POST lead_data_update data) /\
    (forall email_id label,
        let data := [("workspace_id", VStr (workspace_id (self w)));
                     ("email_id", VStr email_id);
                     ("label", VStr label)] in
        run (update_email_label up email_id label) w
        = propagated (next_reply up w POST unibox_emails_label data) /\
        sent_only (update_email_label up email_id label) w
          POST unibox_emails_label data).
Proof.
  intros up w. unfold run, sent_only, after.
  repeat match goal with |- _ /\ _ => split end; intros; cbv zeta.
  - rewrite add_lead_to_sequence_round_trip.
    pose proof (round_trip_propagated up POST lead_add_lead_in_subseq
                  [("workspace_id", VStr (workspace_id (self w)));
                   ("subseq_id", VStr sequence_id);
                   ("parent_lead_ids", VList [VStr email])] w) as (F & S).
    rewrite S. now repeat split.
  - rewrite update_lead_round_trip.
    pose proof (round_trip_propagated up POST lead_data_update
                  [("workspace_id", VStr (workspace_id (self w)));
                   ("campaign_id", VStr campaign_id);
                   ("email", VStr email);
                   ("variables", VDict variables)] w) as (F & S).
    rewrite S. now repeat split.
  - rewrite update_email_label_round_trip.
    pose proof (round_trip_propagated up POST unibox_emails_label
                  [("workspace_id", VStr (workspace_id (self w)));
                   ("email_id", VStr email_id);
                   ("label", VStr label)] w) as (F & S).
    rewrite S. now repeat split.
Qed.

(** X21: [send_email] returns the provider's JSON unchanged when the
    request succeeds, in either mode, and raises [ValueError] when a 2xx
    body is not JSON.  The sender it puts in a reply is the configured
    name followed by the address in angle brackets, or the bare address
    when the configured name is empty. *)
Theorem send_email_by_reply :
  forall (up : upstream) (to subject body : string) (reply_to_id : option string)
         (w : state),
    let call := send_email up to subject body reply_to_id in
    let data :=
      if given reply_to_id
      then reply_data (self w) (sender_of (environ w)) to subject body reply_to_id
      else new_lead_data (self w) (environ w) to subject body in
    let path := if given reply_to_id then unibox_emails_reply else lead_add in
    run call w = propagated (next_reply up w POST path data) /\
    sent_only call w POST path data /\
    (given reply_to_id = true ->
     forall name address,
       getenv_default (environ w) "PIPL_SENDER_NAME" "Diana Moreno" = name ->
       getenv_default (environ w) "PIPL_SENDER_EMAIL" "noreply@caeros.com" = address ->
       dict_get data "from"
       = Some (VStr (if String.eqb name "" then address
                     else (name ++ " <" ++ address ++ ">")%string))).
Proof.
  intros up to subject body reply_to_id w call data path.
  subst call data path. unfold run, sent_only, after.
  rewrite send_email_round_trip.
  destruct (given reply_to_id).
  - pose proof (round_trip_propagated up POST unibox_emails_reply
                  (reply_data (self w) (sender_of (environ w)) to subject body
                     reply_to_id) w) as (F & S).
    rewrite S. repeat split; [exact F |].
    intros _ name address <- <-. simpl. unfold sender_of.
    now destruct (String.eqb _ "").
  - pose proof (round_trip_propagated up POST lead_add
                  (new_lead_data (self w) (environ w) to subject body) w) as (F & S).
    rewrite S. repeat split; [exact F | discriminate].
Qed.

(** A reply sent from a process whose sender name is configured empty. *)
Lemma send_email_by_reply_witness :
  let env := [("PIPL_SENDER_NAME", ""); ("PIPL_SENDER_EMAIL", "ir@caeros.example")] in
  let up := always (Success (Some (VDict [("id", VStr "m-18")]))) in
  run (send_email up "lp@fund.example" "Re: Intro" "Thanks" (Some "m-17")) (boot env 0)
  = Return (VDict [("id", VStr "m-18")]) /\
  exists req,
    sent (after (send_email up "lp@fund.example" "Re: Intro" "Thanks" (Some "m-17"))
            (boot env 0)) = [req] /\
    dict_get (r_data req) "from" = Some (VStr "ir@caeros.example").
Proof.
  cbv zeta.
  destruct (send_email_by_reply (always (Success (Some (VDict [("id", VStr "m-18")]))))
              "lp@fund.example" "Re: Intro" "Thanks" (Some "m-17")
              (boot [("PIPL_SENDER_NAME", ""); ("PIPL_SENDER_EMAIL", "ir@caeros.example")] 0))
    as (R & (L & _) & F).
  split; [exact R |].
  eexists. split; [exact L |].
  exact (F eq_refl "" "ir@caeros.example" eq_refl eq_refl).
Defined.

(** X22: [get_leads] raises in two cases only: with [ValueError] when a
    2xx body is not JSON, and with [TypeError] when the reply is an
    object whose [data] is null, a boolean or a number, which has no
    length to put in the log line.  In every other case it returns. *)
Theorem get_leads_raises_iff :
  forall (up : upstream)
         (campaign_id status label email first_name last_name : option string)
         (page limit : option Z) (sort direction : option string) (w : state) (e : exn),
    let call := get_leads up campaign_id status label email first_name last_name
                  page limit sort direction in
    let answer := next_reply up w GET lead_workspace_leads
                    (get_leads_params (self w) campaign_id status label email
                       first_name last_name page limit sort direction) in
    run call w = Raise e <->
    (answer = Success None /\ e = ValueError) \/
    (exists d items,
        answer = Success (Some (VDict d)) /\ dict_get d "data" = Some items /\
        match items with VNone | VBool _ | VInt _ => True | _ => False end /\
        e = TypeError).
Proof.
  intros up campaign_id status label email first_name last_name page limit sort
    direction w e call answer.
  subst call. unfold run. rewrite get_leads_by_reply. cbv zeta. fold answer. simpl fst.
  split.
  - destruct answer as [[data |] | code |]; try discriminate.
    + destruct data as [| | | | l | d]; try discriminate. simpl.
      unfold dict_has, dict_getitem.
      destruct (dict_get d "data") as [items |] eqn:D.
      * simpl. destruct items; simpl; try discriminate;
          intros [= <-]; right; exists d; eexists; repeat split; eauto; exact I.
      * destruct (dict_get d "_id"); discriminate.
    + intros [= <-]. now left.
  - intros [(-> & ->) | (d & items & -> & D & Hi & ->)]; [reflexivity |].
    simpl. unfold dict_has, dict_getitem. rewrite D. simpl.
    destruct items; try contradiction; reflexivity.
Qed.

(** The provider answers the leads query with a null [data]. *)
Lemma get_leads_raises_iff_witness :
  run (get_leads (always (Success (Some (VDict [("data", VNone)])))) None None None None
         None None (Some 1) (Some 10) (Some "_id") (Some "asc")) (boot [] 0)
  = Raise TypeError.
Proof.
  apply (get_leads_raises_iff (always (Success (Some (VDict [("data", VNone)])))) None None
           None None None None (Some 1) (Some 10) (Some "_id") (Some "asc") (boot [] 0)
           TypeError).
  right. exists [("data", VNone)], VNone. repeat split.
Defined.

(** ** A full cache *)

Lemma expire_all_live now c :
  Forall (fun e => now < e_expires e) c -> expire now c = c.
Proof.
  unfold expire. induction 1 as [| e c He _ IH]; simpl; [reflexivity |].
  apply Z.ltb_lt in He. now rewrite He, IH.
Qed.

Lemma forget_absent k c : find_entry k c = None -> forget k c = c.
Proof.
  unfold find_entry, forget. induction c as [| e c IH]; simpl; [reflexivity |].
  destruct (String.eqb (e_key e) k); [discriminate |].
  intros H. simpl. now rewrite IH.
Qed.

(** X23: When the email cache holds a hundred listings that are all still
    live, fetching a query that is not cached drops exactly one of them,
    the one used least recently, and stores the new listing as the most
    recent; the other ninety-nine stay in their order. *)
Theorem full_cache_evicts_oldest :
  forall (up : upstream) (preview_only : bool) (lead_email campaign_id : option string)
         (email_type : string) (label : option string) (w : state) (r : value)
         (oldest : entry) (others : TTLCache),
    let call := get_emails up preview_only lead_email campaign_id email_type label in
    let key := email_cache_key preview_only lead_email campaign_id email_type label in
    email_cache (self w) = oldest :: others ->
    length (oldest :: others) = 100%nat ->
    Forall (fun e => clock (after call w) < e_expires e) (oldest :: others) ->
    cache_contains key (clock w) (email_cache (self w)) = false ->
    run call w = Return r ->
    email_cache (self (after call w))
    = others ++ [mkEntry key r (clock (after call w) + 300)].
Proof.
  intros up preview_only lead_email campaign_id email_type label w r oldest others
    call key Hcache Hlen Hlive Hmiss Hret.
  subst call key.
  destruct (get_emails_miss_cache up preview_only lead_email campaign_id email_type
              label w r Hmiss Hret) as (-> & Hclock).
  set (key := email_cache_key _ _ _ _ _) in *.
  rewrite Hcache in *.
  assert (Habsent : find_entry key (oldest :: others) = None).
  { unfold cache_contains in Hmiss.
    destruct (find_entry key (oldest :: others)) as [e |] eqn:F; [| reflexivity].
    apply Z.ltb_ge in Hmiss.
    assert (Hin : In e (oldest :: others)) by (apply find_some in F; tauto).
    rewrite Forall_forall in Hlive. specialize (Hlive e Hin). lia. }
  unfold cache_setitem. rewrite (expire_all_live _ _ Hlive), Habsent, Hlen.
  change (skipn (100 + 1 - email_maxsize) (oldest :: others)) with others.
  rewrite forget_absent; [reflexivity |].
  unfold find_entry in *. simpl in Habsent.
  now destruct (String.eqb (e_key oldest) key).
Qed.

(** A cache filled with a hundred one-letter keys. *)
Lemma full_cache_evicts_oldest_witness :
  let filler n := mkEntry (String (ascii_of_nat n) EmptyString) (VList []) 1000 in
  let w := {| environ := [];
              self := {| api_key := "k"; base_url := "u"; workspace_id := "ws";
                         headers := []; email_cache := map filler (seq 0 100);
                         label_cache := [] |};
              clock := 0; sent := [] |} in
  let call := get_emails (always (Success (Some (VDict [("data", VList [])]))))
                true None None "all" None in
  email_cache (self (after call w))
  = map filler (seq 1 99) ++ [mkEntry "True:None:None:all:None" (VList []) 300].
Proof.
  cbv zeta.
  set (filler := fun n => mkEntry (String (ascii_of_nat n) EmptyString) (VList []) 1000).
  set (w := mkState _ _ _ _).
  assert (Hlive : Forall (fun e => clock (after (get_emails
                    (always (Success (Some (VDict [("data", VList [])]))))
                    true None None "all" None) w) < e_expires e)
                    (filler 0%nat :: map filler (seq 1 99))).
  { apply Forall_forall. intros e Hin.
    change (In e (map filler (seq 0 100))) in Hin.
    apply in_map_iff in Hin as (n & <- & _). simpl. lia. }
  exact (full_cache_evicts_oldest
           (always (Success (Some (VDict [("data", VList [])]))))
           true None None "all" None w (VList [])
           (filler 0%nat) (map filler (seq 1 99))
           eq_refl eq_refl Hlive eq_refl eq_refl).
Defined.

(** ** The routes in front of a failing provider *)

Lemma guarded_run (m : M value) w :
  fst (Main.guarded m w)
  = match run m w with
    | Return v => Main.Body v
    | Raise e => Main.HTTPException 500 e
    end.
Proof. unfold Main.guarded, run. now destruct (m w) as [[v | e] w']. Qed.

(** X24: What the API answers while every request to the provider
    fails.  The routes for campaigns, tags, analytics and leads answer
    with their defaults, and so does the labels route unless it has a
    list cached; the routes that list emails (on a cache miss), send an
    email, add a lead to a sequence, update tags and update a label
    answer 500 with the HTTP error. *)
Theorem routes_when_provider_is_down :
  forall (up : upstream) (w : state),
    down up ->
    let failed (r : Main.response) :=
      exists e, is_HTTPError e = true /\ r = Main.HTTPException 500 e in
    fst (Main.get_campaigns up w) = Main.Body (VList []) /\
    fst (Main.get_tags up w) = Main.Body (VList []) /\
    (forall campaign_id,
        fst (Main.get_analytics up campaign_id w) = Main.Body (VDict [("stats", VDict [])])) /\
    (forall campaign_id status label email first_name last_name page limit sort direction,
        fst (Main.get_leads up campaign_id status label email first_name last_name
               page limit sort direction w)
        = Main.Body (VDict [("data", VList []); ("total", VInt 0);
                            ("page", VInt page); ("limit", VInt limit)])) /\
    (cache_contains "labels" (clock w) (label_cache (self w)) = false ->
     fst (Main.get_labels up w) = Main.Body default_labels) /\
    (forall preview_only email_type label lead_email campaign_id,
        cache_contains (email_cache_key preview_only lead_email campaign_id email_type label)
          (clock w) (email_cache (self w)) = false ->
        failed (fst (Main.get_emails up preview_only email_type label lead_email
                       campaign_id w))) /\
    (forall to subject body reply_to_id,
        failed (fst (Main.send_email up to subject body reply_to_id w))) /\
    (forall email sequence_id, failed (fst (Main.add_to_sequence up email sequence_id w))) /\
    (forall email campaign_id tags,
        failed (fst (Main.update_tags up email campaign_id tags w))) /\
    (forall email_id label, failed (fst (Main.update_email_label up email_id label w))).
Proof.
  intros up w Hdown failed.
  assert (Hnext : forall v path data, reply_error (next_reply up w v path data) <> None)
    by (intros; apply Hdown).
  assert (P : forall v path data,
             failed (fst (Main.guarded (round_trip up v path data (fun e => raise e)) w))).
  { intros v path data.
    destruct (round_trip_down up w v path data (fun e => raise e) Hnext) as (e & He & R).
    exists e. split; [exact He |]. unfold Main.guarded. now rewrite R. }
  repeat match goal with |- _ /\ _ => split end; intros.
  - unfold Main.get_campaigns, Main.guarded. rewrite get_campaigns_round_trip.
    now destruct (round_trip_down up w GET campaign_list_all (workspace_params (self w))
                    (fun _ => ret (VList [])) Hnext) as (e & _ & ->).
  - unfold Main.get_tags, Main.guarded. rewrite get_tags_round_trip.
    now destruct (round_trip_down up w GET tag_list (workspace_params (self w))
                    (fun _ => ret (VList [])) Hnext) as (e & _ & ->).
  - unfold Main.get_analytics, Main.guarded. rewrite get_analytics_round_trip.
    now destruct (round_trip_down up w GET analytics_campaign_stats
                    (add_filter (workspace_params (self w)) "campaign_id" campaign_id)
                    (fun _ => ret (VDict [("stats", VDict [])])) Hnext) as (e & _ & ->).
  - unfold Main.get_leads, Main.guarded. rewrite get_leads_by_reply. cbv zeta.
    match goal with
    | |- context [next_reply up w ?v ?p ?d] =>
        pose proof (Hnext v p d) as N; destruct (next_reply up w v p d)
    end; simpl in *; [now destruct N | reflexivity | reflexivity].
  - unfold Main.get_labels. rewrite guarded_run. unfold run.
    rewrite get_labels_unfold, H.
    pose proof (resolve_labels_down up (workspace_params (self w)) w Hdown) as R.
    destruct (resolve_labels up (workspace_params (self w)) w) as [r w'].
    simpl in R. now subst r.
  - unfold Main.get_emails. rewrite guarded_run. unfold run.
    rewrite get_emails_unfold, H. unfold fetch_emails.
    destruct (reply_error (next_reply up w GET unibox_emails
                             (get_emails_params (self w) preview_only lead_email
                                campaign_id email_type label))) as [e |] eqn:E;
      [| now apply Hnext in E].
    rewrite (bind_Raise _ _ _ _ _ (send_error _ _ _ _ _ _ E)). simpl.
    exists e. split; [eapply reply_error_is_HTTPError, E | reflexivity].
  - unfold Main.send_email, Main.guarded. rewrite send_email_round_trip.
    destruct (given reply_to_id); apply P.
  - unfold Main.add_to_sequence, Main.guarded. rewrite add_lead_to_sequence_round_trip.
    apply P.
  - unfold Main.update_tags, Main.guarded. rewrite update_lead_round_trip. apply P.
  - unfold Main.update_email_label, Main.guarded. rewrite update_email_label_round_trip.
    apply P.
Qed.

(** A fresh process in front of a provider that times out. *)
Lemma routes_when_provider_is_down_witness :
  fst (Main.get_labels (always Failure) (boot [] 0)) = Main.Body default_labels /\
  exists e,
    is_HTTPError e = true /\
    fst (Main.get_emails (always Failure) true "all" None None None (boot [] 0))
    = Main.HTTPException 500 e.
Proof.
  assert (D : down (always Failure)) by (intros n req; discriminate).
  pose proof (routes_when_provider_is_down (always Failure) (boot [] 0) D)
    as (_ & _ & _ & _ & L & E & _).
  split; [exact (L eq_refl) | exact (E true "all" None None None eq_refl)].
Defined.

(** X25: The routes [mark_email_read] and [get_unread_count] build their
    own request with the gateway's headers but read the workspace id from
    the environment when they are called, without the gateway's literal
    default.  With [PIPL_WORKSPACE_ID] set they send what the gateway
    sends.  With it unset, [mark_email_read] posts a JSON [null] and
    [get_unread_count] sends the key with an empty value, while every
    gateway request carries the default id.  [get_unread_count] always
    makes its request; [mark_email_read] makes it unless its [thread_id]
    holds a control character, which ends the route with status 500 and
    nothing sent.  A route that made its request answers with the
    provider's JSON on a 2xx JSON reply, and with status 500 on a body
    that is not JSON, on a bad status and on a transport failure, the
    exception caught being the detail. *)
Theorem direct_routes_workspace :
  forall (env : list (string * string)) (now : Z) (up : Main.request -> reply)
         (thread_id : string),
    let w := boot env now in
    let id := getenv env "PIPL_WORKSPACE_ID" in
    let read := Main.mark_email_read up thread_id w in
    let count := Main.get_unread_count up w in
    let read_request :=
      Main.mkRequest POST (Main.unibox_threads_mark_as_read thread_id) (headers (self w))
        [("workspace_id", match id with Some v => VStr v | None => VNone end)] in
    let count_request :=
      Main.mkRequest GET Main.unibox_emails_count_unread (headers (self w))
        [("workspace_id", VStr (match id with Some v => v | None => "" end))] in
    let answers (out : Main.response) (r : reply) :=
      (forall j, r = Success (Some j) -> out = Main.Body j) /\
      (r = Success None -> out = Main.HTTPException 500 ValueError) /\
      (forall code, r = Status code ->
                    out = Main.HTTPException 500 (HTTPStatusError code)) /\
      (r = Failure -> out = Main.HTTPException 500 RequestError) in
    (forall v, id = Some v ->
               dict_get (Main.r_data read_request) "workspace_id" = Some (VStr v) /\
               dict_get (Main.r_data count_request) "workspace_id" = Some (VStr v) /\
               workspace_id (self w) = v) /\
    (id = None ->
     dict_get (Main.r_data read_request) "workspace_id" = Some VNone /\
     dict_get (Main.r_data count_request) "workspace_id" = Some (VStr "") /\
     workspace_id (self w) = "67bd12283f02ce58fa6fb65d") /\
    (has_control thread_id = true ->
     read = (Main.HTTPException 500 InvalidURL, None)) /\
    (has_control thread_id = false ->
     snd read = Some read_request /\ answers (fst read) (up read_request)) /\
    snd count = count_request /\
    answers (fst count) (up count_request).
Proof.
  intros env now up thread_id w id read count read_request count_request answers.
  assert (A : forall r, answers (Main.direct r) r).
  { intros r. unfold answers.
    repeat match goal with |- _ /\ _ => split end; intros; subst r; reflexivity. }
  assert (C : snd count = count_request).
  { subst count count_request id w. unfold Main.get_unread_count. simpl.
    now destruct (getenv env "PIPL_WORKSPACE_ID"). }
  repeat match goal with |- _ /\ _ => split end.
  - intros v H. subst read_request count_request w. simpl.
    unfold getenv_default. fold id. rewrite H. now repeat split.
  - intros H. subst read_request count_request w. simpl.
    unfold getenv_default. fold id. rewrite H. now repeat split.
  - intros H. subst read. unfold Main.mark_email_read. now rewrite H.
  - intros H. subst read. unfold Main.mark_email_read. rewrite H.
    assert (R : Main.mkRequest POST (Main.unibox_threads_mark_as_read thread_id)
                  (headers (self w))
                  [("workspace_id", of_opt_str (getenv (environ w) "PIPL_WORKSPACE_ID"))]
                = read_request).
    { subst read_request id w. simpl. now destruct (getenv env "PIPL_WORKSPACE_ID"). }
    rewrite R. split; [reflexivity | apply A].
  - exact C.
  - rewrite <- C. subst count. unfold Main.get_unread_count. apply A.
Qed.

(** A process started without [PIPL_WORKSPACE_ID], the provider out of
    reach; then a thread id that is a line feed. *)
Lemma direct_routes_workspace_witness :
  let count := Main.get_unread_count (fun _ => Failure) (boot [] 0) in
  dict_get (Main.r_data (snd count)) "workspace_id" = Some (VStr "") /\
  fst count = Main.HTTPException 500 RequestError /\
  workspace_id (self (boot [] 0)) = "67bd12283f02ce58fa6fb65d" /\
  Main.mark_email_read (fun _ => Failure) (String "010" "") (boot [] 0)
  = (Main.HTTPException 500 InvalidURL, None).
Proof.
  cbv zeta.
  destruct (direct_routes_workspace [] 0 (fun _ => Failure) (String "010" ""))
    as (_ & U & B & _ & C & _ & _ & _ & F).
  destruct (U eq_refl) as (_ & E & G).
  repeat match goal with |- _ /\ _ => split end.
  - rewrite C. exact E.
  - exact (F eq_refl).
  - exact G.
  - exact (B eq_refl).
Defined.

(** ** The EmailBison client *)

Lemma exchange_propagated up req :
  EmailBison.exchange up req = propagated (up req).
Proof.
  unfold EmailBison.exchange, propagated. now destruct (up req) as [[j |] | code |].
Qed.

(** X26: Each of the five EmailBison operations has no fallback: it
    makes one request and returns the provider's JSON, raises the HTTP
    error on a bad status or a transport failure, and raises
    [ValueError] when the body is not JSON.  Every request carries
    ["Bearer "] followed by the configured key as its authorization, and
    that is the text ["Bearer None"] when [EMAILBISON_API_KEY] is
    unset.  The two operations that put an argument into the URL make
    that request when the argument holds no control character, and
    raise [httpx.InvalidURL] with nothing sent when it does. *)
Theorem emailbison_operations :
  forall (env : list (string * string)) (up : EmailBison.request -> reply),
    let self := EmailBison.init env in
    let bearer := ("Bearer " ++ match getenv env "EMAILBISON_API_KEY" with
                                | Some key => key
                                | None => "None"
                                end)%string in
    let sends (out : result value * EmailBison.request) v path data :=
      fst out = propagated (up (snd out)) /\
      EmailBison.r_verb (snd out) = v /\ EmailBison.r_path (snd out) = path /\
      EmailBison.r_data (snd out) = data /\
      getenv (EmailBison.r_headers (snd out)) "Authorization" = Some bearer in
    let sends_if (ok : bool) (out : result value * option EmailBison.request) v path data :=
      (ok = true ->
       exists req, snd out = Some req /\ sends (fst out, req) v path data) /\
      (ok = false -> out = (Raise InvalidURL, None)) in
    (forall folder,
        sends (EmailBison.get_emails up self folder) GET EmailBison.emails
          [("folder", VStr folder)]) /\
    (forall to subject body,
        sends (EmailBison.send_email up self to subject body) POST EmailBison.send
          [("to", VStr to); ("subject", VStr subject); ("body", VStr body)]) /\
    (forall name steps,
        sends (EmailBison.create_sequence up self name steps) POST EmailBison.sequences
          [("name", VStr name); ("steps", VList (map VDict steps))]) /\
    (forall sequence_id contact_email,
        sends_if (negb (has_control sequence_id))
          (EmailBison.add_to_sequence up self sequence_id contact_email) POST
          (EmailBison.sequence_contacts sequence_id) [("email", VStr contact_email)]) /\
    (forall sequence_id contact_email,
        sends_if (negb (has_control sequence_id || has_control contact_email))
          (EmailBison.get_sequence_status up self sequence_id contact_email) GET
          (EmailBison.sequence_contact sequence_id contact_email) []).
Proof.
  intros env up self bearer sends sends_if. subst sends_if sends self bearer. cbv beta.
  repeat match goal with |- _ /\ _ => split end; intros;
    try (split; [simpl; rewrite exchange_propagated; reflexivity | now repeat split]);
    split; intros H.
  - apply negb_true_iff in H. unfold EmailBison.add_to_sequence. rewrite H.
    eexists. split; [reflexivity |].
    split; [simpl; rewrite exchange_propagated; reflexivity | now repeat split].
  - apply negb_false_iff in H. unfold EmailBison.add_to_sequence. now rewrite H.
  - apply negb_true_iff in H. unfold EmailBison.get_sequence_status. rewrite H.
    eexists. split; [reflexivity |].
    split; [simpl; rewrite exchange_propagated; reflexivity | now repeat split].
  - apply negb_false_iff in H. unfold EmailBison.get_sequence_status. now rewrite H.
Qed.
